(** * Hybrid recommendation trainer: latent-factor training loop and offline evaluation

    A shallow embedding of [src/models/hybrid_trainer.py]: the masked
    reconstruction loss and early stopping of the two matrix-factorisation
    trainers, the holdout construction and ranking metrics of the offline
    evaluators, and the in-place self-exclusion of the business evaluator;
    further the ID maps of the trainers, the business-post and
    business-product affinities, the economic context, the evaluator of the
    company recommendations and the evaluation of [main].

    Conventions of the embedding.
    - Finite array cells are exact rationals ([Q]); the IEEE specials that the
      code produces or compares against ([nan], [-inf], [+inf]) are the other
      constructors of [fnum].  Rounding error of floating point is not modelled.
    - A 2-D array is the list of its rows.
    - Python exceptions are the [Err] results of [result]; a [try]/[except]
      is a [match] on it.
    - Library calls whose values are not rational or not determined by the
      source (square root, norm, the random generator, the optimiser update)
      are section variables.
    - A dictionary is the list of its items in insertion order; a frame is
      given by the columns or rows that the function at hand reads. *)

From Stdlib Require Import QArith Qround Qabs Qpower Lqa Lia.
From stdpp Require Import base list sorting gmap strings.

(* ================================================================= *)
(** ** Numbers *)

Inductive fnum : Type :=
  | NaN
  | NInf
  | Fin (q : Q)
  | PInf.

(** [a < b] on rationals, as a boolean. *)
Definition Qltb (a b : Q) : bool := negb (Qle_bool b a).

(** IEEE [<]: every comparison with [nan] is false. *)
Definition flt (a b : fnum) : bool :=
  match a, b with
  | NaN, _ | _, NaN => false
  | NInf, NInf => false
  | NInf, _ => true
  | _, NInf => false
  | Fin x, Fin y => Qltb x y
  | Fin _, PInf => true
  | PInf, _ => false
  end.

(** Unary minus. *)
Definition fneg (a : fnum) : fnum :=
  match a with
  | NaN => NaN
  | NInf => PInf
  | Fin q => Fin (- q)
  | PInf => NInf
  end.

(** Addition. *)
Definition fadd (a b : fnum) : fnum :=
  match a, b with
  | NaN, _ | _, NaN => NaN
  | NInf, PInf | PInf, NInf => NaN
  | NInf, _ | _, NInf => NInf
  | PInf, _ | _, PInf => PInf
  | Fin x, Fin y => Fin (x + y)
  end.

(** Tensor division of two finite scalars: [0/0] is [nan], [x/0] is an
    infinity, no exception is raised. *)
Definition fdiv (a b : Q) : fnum :=
  if Qeq_bool b 0 then
    if Qeq_bool a 0 then NaN else if Qltb 0 a then PInf else NInf
  else Fin (a / b).

(** The ascending order [numpy.argsort] sorts by: [nan] goes last. *)
Definition sort_le (a b : fnum) : bool :=
  match a, b with
  | _, NaN => true
  | NaN, _ => false
  | NInf, _ => true
  | _, NInf => false
  | _, PInf => true
  | PInf, _ => false
  | Fin x, Fin y => Qle_bool x y
  end.

(* ================================================================= *)
(** ** Exceptions *)

Inductive exn : Type :=
  | KeyError
  | TypeError
  | ValueError
  | IndexError
  | ZeroDivisionError
  | OverflowError.

Inductive result (A : Type) : Type :=
  | Ok (a : A)
  | Err (e : exn).
Arguments Ok {A} a.
Arguments Err {A} e.

#[global] Instance result_ret : MRet result := λ A a, Ok a.
#[global] Instance result_bind : MBind result := λ A B f r,
  match r with
  | Ok a => f a
  | Err e => Err e
  end.

(** [try: body / except Exception as e: handler(e)] as a computation: what
    the body raises reaches the handler, what the handler raises reaches the
    caller. *)
Definition try_except {A} (body : result A) (handler : exn → result A) : result A :=
  match body with
  | Ok a => Ok a
  | Err e => handler e
  end.

(** Python's [a / b] on numbers. *)
Definition py_div (a b : Q) : result Q :=
  if Qeq_bool b 0 then Err ZeroDivisionError else Ok (a / b)%Q.

(** Python's [int(x)] on a float: truncation toward zero. *)
Definition py_int (x : Q) : Z := Z.quot (Qnum x) (Z.pos (Qden x)).

(** Python's list slices [l[:k]] and [l[-k:]]. *)
Definition slice_to {A} (k : Z) (l : list A) : list A :=
  if (0 <=? k)%Z then take (Z.to_nat k) l
  else take (length l - Z.to_nat (- k)) l.

Definition slice_last {A} (k : Z) (l : list A) : list A :=
  if (0 <? k)%Z then drop (length l - Z.to_nat k) l
  else drop (Z.to_nat (- k)) l.

(* ================================================================= *)
(** ** Arrays *)

Definition matrix : Type := list (list Q).

(** [M.shape]: the width is read from the first row (0 without rows). *)
Definition n_rows {A} (M : list (list A)) : nat := length M.
Definition n_cols {A} (M : list (list A)) : nat := length (hd [] M).

(** [M] has [r] rows of [c] cells each. *)
Definition has_shape {A} (M : list (list A)) (r c : nat) : Prop :=
  length M = r ∧ Forall (λ row, length row = c) M.

(** [M] and [N] have the same number of rows, of the same lengths. *)
Definition same_shape {A B} (M : list (list A)) (N : list (list B)) : Prop :=
  Forall2 (λ r s, length r = length s) M N.

Definition qsum (l : list Q) : Q := foldr Qplus 0%Q l.

(** [torch.sum] / [np.sum] over every cell. *)
Definition tsum (M : matrix) : Q := qsum (map qsum M).

Definition map2 {A B C} (f : A → B → C) (M : list (list A)) (N : list (list B))
  : list (list C) := zip_with (zip_with f) M N.

Definition msub : matrix → matrix → matrix := map2 Qminus.
Definition mmul : matrix → matrix → matrix := map2 Qmult.
Definition msq (M : matrix) : matrix := map (map (λ x, x * x)%Q) M.

Definition column (j : nat) (M : matrix) : list Q := map (λ row, nth j row 0%Q) M.
Definition transpose (M : matrix) : matrix := map (λ j, column j M) (seq 0 (n_cols M)).

Definition dot (u v : list Q) : Q := qsum (zip_with Qmult u v).

(** The product of the values; the callers check or construct the shapes. *)
Definition matmul (A B : matrix) : matrix :=
  map (λ row, map (dot row) (transpose B)) A.

(** Indices of the cells that satisfy [p], ascending: [np.where(...)[0]]. *)
Definition where_ {A} (p : A → bool) (row : list A) : list nat :=
  filter (λ j, p <$> row !! j = Some true) (seq 0 (length row)).

Definition positive (x : Q) : bool := Qltb 0 x.

(* ================================================================= *)
(** ** The data loss of the two trainers *)

(** [(R > 0).float()] *)
Definition mask_of (R : matrix) : matrix :=
  map (map (λ r, if positive r then 1%Q else 0%Q)) R.

(** Squared reconstruction error of every cell: [(R - P) ** 2]. *)
Definition sq_err (R P : matrix) : matrix := msq (msub R P).

(** The quick trainer, [train_collaborative_filtering]:
    [if torch.sum(mask) > 0: loss = torch.sum(mask * err) / torch.sum(mask)]
    [else: loss = torch.sum(err) / (n_users * n_posts)]. *)
Definition cf_mse_loss (R P : matrix) : fnum :=
  let n_users := n_rows R in
  let n_posts := n_cols R in
  let mask := mask_of R in
  if Qltb 0 (tsum mask) then
    fdiv (tsum (mmul mask (sq_err R P))) (tsum mask)
  else
    fdiv (tsum (sq_err R P)) (inject_Z (Z.of_nat (n_users * n_posts))).

(** The full trainer, [train_hybrid_recommendation_model]:
    [mse_loss = torch.sum(mask * err) / torch.sum(mask)], without a test of
    the mask. *)
Definition hybrid_mse_loss (R P : matrix) : fnum :=
  let mask := mask_of R in
  fdiv (tsum (mmul mask (sq_err R P))) (tsum mask).

(** The cells of [R], each with its prediction, and the strictly positive
    ones among them. *)
Definition cells (R P : matrix) : list (Q * Q) := concat (zip_with zip R P).

Definition observed (R P : matrix) : list (Q * Q) :=
  filter (λ c, positive c.1 = true) (cells R P).

Definition sq_errs (cs : list (Q * Q)) : list Q :=
  map (λ c, (c.1 - c.2) * (c.1 - c.2))%Q cs.

Definition mean (l : list Q) : Q := (qsum l / inject_Z (Z.of_nat (length l)))%Q.

(** The data loss in the words of the specification: the mean of the
    squared errors of the strictly positive cells, and the mean over all
    cells when there is none. *)
Definition spec_mse_loss (R P : matrix) : Q :=
  match observed R P with
  | [] => mean (sq_errs (cells R P))
  | obs => mean (sq_errs obs)
  end.

(* ================================================================= *)
(** ** The training loop with early stopping *)

Record factors : Type := Factors {
  user_factors : matrix;
  item_factors : matrix
}.

Record loop_state (P : Type) : Type := LoopState {
  params : P;
  best_loss : fnum;
  patience_counter : nat
}.
Arguments LoopState {P} _ _ _.
Arguments params {P} _.
Arguments best_loss {P} _.
Arguments patience_counter {P} _.

Section Loop.
Context {P : Type}.
(** The forward pass and [loss.item()] of the current parameters. *)
Variable loss_of : P → fnum.
(** [optimizer.zero_grad(); loss.backward(); optimizer.step()] (and the
    scheduler step of the full trainer). *)
Variable update : P → P.
Variable patience : nat.

(** The early-stopping test that ends the loop body; the boolean is [break].
    [if loss.item() < best_loss: best_loss = loss.item(); patience_counter = 0]
    [else: patience_counter += 1; if patience_counter >= patience: break] *)
Definition early_stopping (loss best : fnum) (counter : nat) : fnum * nat * bool :=
  if flt loss best then (loss, 0, false)
  else (best, S counter, patience <=? S counter).

(** [for epoch in range(budget)], with [todo] epochs left; the result
    carries the number of epochs whose body was executed. *)
Fixpoint run_epochs (todo : nat) (st : loop_state P) (executed : nat)
  : loop_state P * nat :=
  match todo with
  | O => (st, executed)
  | S todo' =>
      let loss := loss_of (params st) in
      let p' := update (params st) in
      let '(best, counter, stop) :=
        early_stopping loss (best_loss st) (patience_counter st) in
      let st' := LoopState p' best counter in
      if stop then (st', S executed) else run_epochs todo' st' (S executed)
  end.

(** [best_loss = float('inf'); patience_counter = 0; for epoch in range(budget)] *)
Definition train (budget : nat) (init : P) : loop_state P * nat :=
  run_epochs budget (LoopState init PInf 0) 0.

(** The parameters and the loss at the start of epoch [e] (counted from 0),
    and the running best before it; none depends on when the loop stops. *)
Definition params_at (init : P) (e : nat) : P := Nat.iter e update init.
Definition loss_at (init : P) (e : nat) : fnum := loss_of (params_at init e).

Fixpoint best_before (init : P) (e : nat) : fnum :=
  match e with
  | O => PInf
  | S e' =>
      if flt (loss_at init e') (best_before init e') then loss_at init e'
      else best_before init e'
  end.

(** Epoch [e] improves on the best seen before it. *)
Definition improves (init : P) (e : nat) : bool :=
  flt (loss_at init e) (best_before init e).

(** The patience counter before epoch [e]. *)
Fixpoint stale (init : P) (e : nat) : nat :=
  match e with
  | O => 0
  | S e' => if improves init e' then 0 else S (stale init e')
  end.

(** The loop state before epoch [e] of a run that has not stopped. *)
Definition state_at (init : P) (e : nat) : loop_state P :=
  LoopState (params_at init e) (best_before init e) (stale init e).

(** The test of [break] at the end of epoch [e]. *)
Definition stops (init : P) (e : nat) : bool :=
  negb (improves init e) && (patience <=? S (stale init e)).

(** The [patience] epochs that end with epoch [e] all failed to improve
    on the best loss. *)
Definition stale_run (init : P) (e : nat) : Prop :=
  patience ≤ S e ∧ ∀ i, S e - patience ≤ i ≤ e → improves init i = false.

(** The claim on early stopping, for the result [run] of a loop of
    [budget] epochs: the best loss is the lowest seen; an improving loss
    resets the counter; the loop breaks (the counter has reached the
    patience) exactly when there is a stale run within the budget, at the
    end of the first one; and epochs of the budget are left out exactly
    when a stale run ends before the last epoch. *)
Record early_stopping_ok (budget : nat) (init : P)
    (run : loop_state P * nat) : Prop := {
  es_budget : run.2 ≤ budget;
  es_running : run.1 = state_at init run.2;
  es_lowest : ∀ i, i < run.2 → flt (loss_at init i) (best_loss run.1) = false;
  es_seen : best_loss run.1 = PInf
            ∨ ∃ i, i < run.2 ∧ best_loss run.1 = loss_at init i;
  es_reset : ∀ loss best counter, flt loss best = true →
             early_stopping loss best counter = (loss, 0, false);
  es_break : patience ≤ patience_counter run.1
             ↔ ∃ e, e < budget ∧ stale_run init e;
  es_first : ∀ e, S e < run.2 → ¬ stale_run init e;
  es_stop : run.2 < budget ↔ ∃ e, S e < budget ∧ stale_run init e
}.
End Loop.

Section Trainers.
(** State of the torch generator and of the Adam optimiser (its moment
    estimates, step count and learning rate). *)
Context {gen optimizer : Type}.
(** [torch.randn(rows, cols)] *)
Variable randn : nat → nat → gen → matrix * gen.
(** [torch.norm], the Frobenius norm. *)
Variable norm : matrix → Q.
(** One step of the optimiser of the trainer at hand on both factor
    matrices, for the loss of the interaction matrix given first: Adam with
    weight decay in the quick trainer, Adam and the step of its learning-rate
    scheduler in the full one. *)
Variable adam_step : matrix → factors * optimizer → factors * optimizer.

Definition predict (f : factors) : matrix :=
  matmul (user_factors f) (item_factors f).

(** *** [train_collaborative_filtering] *)

Definition cf_n_factors : nat := 32.
Definition cf_epochs : nat := 50.
Definition cf_patience : nat := 5.

(** [loss = <data loss>; loss += 0.01 * (norm(user_factors) + norm(post_factors))] *)
Definition cf_loss (R : matrix) (s : factors * optimizer) : fnum :=
  let f := s.1 in
  fadd (cf_mse_loss R (predict f))
       (Fin ((1 # 100) * (norm (user_factors f) + norm (item_factors f)))).

(** [torch.randn(n_users, n_factors)] and [torch.randn(n_factors, n_posts)];
    the GPU branch draws the two again, with the same shapes. *)
Definition cf_init (R : matrix) (g : gen) : factors :=
  let n_users := n_rows R in
  let n_posts := n_cols R in
  let '(uf, g1) := randn n_users cf_n_factors g in
  let '(pf, _) := randn cf_n_factors n_posts g1 in
  Factors uf pf.

Definition cf_run (R : matrix) (g : gen) (adam : optimizer)
  : loop_state (factors * optimizer) * nat :=
  train (cf_loss R) (adam_step R) cf_patience cf_epochs (cf_init R g, adam).

(** The [model] dictionary: ['user_factors'], ['post_factors'], ['final_loss'].
    [.detach().cpu().numpy()] keeps the values of a tensor.  The function
    returns it with the four ID maps built from the row and column labels,
    which the training does not read. *)
Record cf_model_out : Type := CfModel {
  out_user_factors : matrix;
  out_post_factors : matrix;
  final_loss : fnum
}.

Definition train_collaborative_filtering (R : matrix) (g : gen) (adam : optimizer)
  : cf_model_out :=
  let st := (cf_run R g adam).1 in
  CfModel (user_factors (params st).1) (item_factors (params st).1) (best_loss st).

(** The quick trainer over the loss as the tensors of the run compute it:
    [loss] maps the parameters of an epoch to the value of [loss.item()],
    a float32 widened to a Python float, which is [inf] where a sum
    overflows and [nan] where infinities cancel.  [cf_run] and
    [train_collaborative_filtering] are the instances at [cf_loss], the loss
    in exact arithmetic. *)
Definition cf_run_with (loss : factors * optimizer → fnum) (R : matrix)
    (g : gen) (adam : optimizer) : loop_state (factors * optimizer) * nat :=
  train loss (adam_step R) cf_patience cf_epochs (cf_init R g, adam).

Definition train_collaborative_filtering_with (loss : factors * optimizer → fnum)
    (R : matrix) (g : gen) (adam : optimizer) : cf_model_out :=
  let st := (cf_run_with loss R g adam).1 in
  CfModel (user_factors (params st).1) (item_factors (params st).1) (best_loss st).

(** *** [train_hybrid_recommendation_model], the PyTorch branch of its
    collaborative-filtering component *)

Definition hybrid_n_factors : nat := 128.
Definition hybrid_epochs : nat := 25.
Definition hybrid_patience : nat := 3.

(** [l2_reg = 0.001 * (sum(user_factors**2) + sum(item_factors**2))]
    [loss = mse_loss + l2_reg] *)
Definition hybrid_loss (R : matrix) (s : factors * optimizer) : fnum :=
  let f := s.1 in
  fadd (hybrid_mse_loss R (predict f))
       (Fin ((1 # 1000) * (tsum (msq (user_factors f)) + tsum (msq (item_factors f))))).

(** [torch.randn(n, m) / np.sqrt(n_factors)]; the scaling constant is the
    section variable [inv_sqrt_factors]. *)
Variable inv_sqrt_factors : Q.

Definition scale (c : Q) (M : matrix) : matrix := map (map (Qmult c)) M.

Definition hybrid_init (R : matrix) (g : gen) : factors :=
  let n_users := n_rows R in
  let n_items := n_cols R in
  let '(uf, g1) := randn n_users hybrid_n_factors g in
  let '(itf, _) := randn hybrid_n_factors n_items g1 in
  Factors (scale inv_sqrt_factors uf) (scale inv_sqrt_factors itf).

Definition hybrid_run (R : matrix) (g : gen) (adam : optimizer)
  : loop_state (factors * optimizer) * nat :=
  train (hybrid_loss R) (adam_step R) hybrid_patience hybrid_epochs
        (hybrid_init R g, adam).

(** [torch.randn(r, c)] has [r] rows and [c] columns. *)
Definition randn_shaped : Prop :=
  ∀ r c g, has_shape (randn r c g).1 r c.

(** The optimiser updates the factor matrices in place: their shapes stay. *)
Definition step_keeps_shapes : Prop :=
  ∀ R (s : factors * optimizer) r1 c1 r2 c2,
    has_shape (user_factors s.1) r1 c1 →
    has_shape (item_factors s.1) r2 c2 →
    has_shape (user_factors (adam_step R s).1) r1 c1
    ∧ has_shape (item_factors (adam_step R s).1) r2 c2.
End Trainers.

(** A generator of zero matrices and an optimiser that leaves the factors
    as they are, to run the trainer on. *)
Definition zeros_randn (r c : nat) (g : unit) : matrix * unit :=
  (replicate r (replicate c 0%Q), g).

Definition idle_step (R : matrix) (s : factors * unit) : factors * unit := s.

(* ================================================================= *)
(** ** Ranking helpers shared by the evaluators *)

(** [np.argsort(v)]: the indices of [v] in ascending order of their values. *)
Definition key_le (v : list fnum) (i j : nat) : Prop :=
  sort_le (nth i v NaN) (nth j v NaN) = true.

#[global] Instance key_le_dec v i j : Decision (key_le v i j).
Proof. unfold key_le. apply _. Defined.

Definition argsort (v : list fnum) : list nat :=
  merge_sort (key_le v) (seq 0 (length v)).


(** [len(set(a) & set(b))] *)
Definition n_common (a b : list nat) : nat :=
  size ((list_to_set a : gset nat) ∩ list_to_set b).

Definition Qnat (n : nat) : Q := inject_Z (Z.of_nat n).

(** Python's [round(x)]: to the nearest integer, halves to the even one. *)
Definition py_round (x : Q) : Z :=
  let f := Qfloor x in
  let d := (x - inject_Z f)%Q in
  if Qltb d (1 # 2) then f
  else if Qltb (1 # 2) d then (f + 1)%Z
  else if Z.even f then f else (f + 1)%Z.

(** The size of a user's test sample in the words of the specification:
    [max(1, round(test_fraction * observed_count))]. *)
Definition spec_n_test (test_fraction : Q) (observed_count : nat) : Z :=
  Z.max 1 (py_round (test_fraction * Qnat observed_count)).

(** [np.mean(l) if l else 0] *)
Definition mean_or_zero (l : list Q) : Q :=
  match l with
  | [] => 0%Q
  | _ => mean l
  end.

(** [2 * (p * r) / (p + r) if (p + r) > 0 else 0] *)
Definition f1_score (p r : Q) : result Q :=
  if Qltb 0 (p + r) then py_div (2 * (p * r)) (p + r) else Ok 0%Q.


Record metrics : Type := Metrics {
  rmse : Q;
  precision_at_k : Q;
  recall_at_k : Q;
  f1_at_k : Q
}.

(** The record of the [except] branches. *)
Definition zero_metrics : metrics := Metrics 0 0 0 0.

(** [A[mask]] with a boolean array: the selected cells in row-major order;
    the shapes have to agree. *)
Definition same_shape_b {A B} (M : list (list A)) (N : list (list B)) : bool :=
  (length M =? length N) &&
  forallb (λ p, length p.1 =? length p.2) (zip M N).

Definition select_row {A} (row : list A) (mrow : list bool) : list A :=
  omap (λ p, if p.2 : bool then Some p.1 else None) (zip row mrow).

Definition bool_index {A} (M : list (list A)) (mask : list (list bool))
  : result (list A) :=
  if same_shape_b M mask then Ok (concat (zip_with select_row M mask))
  else Err IndexError.

(** [np.dot(A, B)] of two 2-D arrays. *)
Definition np_dot (A B : matrix) : result matrix :=
  if n_cols A =? n_rows B then Ok (matmul A B) else Err ValueError.

(** [sklearn.metrics.mean_squared_error]: input validation rejects arrays
    without samples and arrays of different lengths. *)
Definition mean_squared_error (y_true y_pred : list Q) : result Q :=
  if (length y_true =? 0) || negb (length y_true =? length y_pred)
  then Err ValueError
  else Ok (mean (sq_errs (zip y_true y_pred))).

(* ================================================================= *)
(** ** [evaluate_collaborative_filtering] *)

(** The [cf_model] argument: a dictionary that may or may not hold the two
    factor arrays, or some other object. *)
Inductive cf_model : Type :=
  | FactorDict (uf itf : option matrix)
  | OtherModel.

Definition lookup_key {A} (o : option A) : result A :=
  match o with
  | Some a => Ok a
  | None => Err KeyError
  end.

(** [a[i]] and [a[idx] = x] with bounds checks. *)
Definition index {A} (l : list A) (i : nat) : result A :=
  match l !! i with
  | Some x => Ok x
  | None => Err IndexError
  end.

Definition assign_all {A} (l : list A) (idx : list nat) (x : A) : result (list A) :=
  if forallb (λ j, j <? length l) idx
  then Ok (foldr (λ j s, <[j := x]> s) l idx)
  else Err IndexError.

(** The statements of a loop body run for every element of [l]; the body
    appends to the output list or skips the element ([None], [continue]). *)
Fixpoint for_each {A B} (body : A → result (option B)) (l : list A)
  : result (list B) :=
  match l with
  | [] => Ok []
  | a :: l' =>
      o ← body a;
      rest ← for_each body l';
      Ok (match o with Some b => b :: rest | None => rest end)
  end.

(* ================================================================= *)
(** ** Double precision *)

(** The exponent of the largest power of two that is at most [x], for
    [x > 0]: the difference of the bit lengths of numerator and denominator,
    or one less. *)
Definition floor_log2 (x : Q) : Z :=
  let l := (Z.log2 (Qnum x) - Z.log2 (Z.pos (Qden x)))%Z in
  if Qle_bool (2 ^ l) x then l else (l - 1)%Z.

(** The double nearest to a real number (IEEE 754 binary64, round to
    nearest, ties to even): 53 significant bits, the last of them no lower
    than [2^-1074], and infinity from [2^1024] on. *)
Definition round_double (x : Q) : fnum :=
  if Qeq_bool x 0 then Fin 0
  else
    let a := Qabs x in
    let e := Z.max (floor_log2 a - 52) (-1074) in
    let m := py_round (a / 2 ^ e) in
    let y := (inject_Z m * 2 ^ e)%Q in
    if Qle_bool (2 ^ 1024) y then (if Qltb 0 x then PInf else NInf)
    else Fin (if Qltb 0 x then y else - y).

(** The product of two doubles. *)
Definition double_mul (a b : fnum) : fnum :=
  match a, b with
  | NaN, _ | _, NaN => NaN
  | Fin x, Fin y => round_double (x * y)
  | Fin x, inf | inf, Fin x =>
      if Qeq_bool x 0 then NaN else if Qltb 0 x then inf else fneg inf
  | PInf, PInf | NInf, NInf => PInf
  | PInf, NInf | NInf, PInf => NInf
  end.

(** [float(n)] of a Python integer. *)
Definition float_of_nat (n : nat) : result fnum :=
  match round_double (Qnat n) with
  | Fin c => Ok (Fin c)
  | _ => Err OverflowError
  end.

(** [int(x)] of a float. *)
Definition py_int_float (x : fnum) : result Z :=
  match x with
  | Fin q => Ok (py_int q)
  | NaN => Err ValueError
  | PInf | NInf => Err OverflowError
  end.

Section Evaluator.
(** State of numpy's global generator. *)
Context {rng : Type}.
(** [np.random.choice(a, size, replace=False)] for [size ≤ len(a)]. *)
Variable choice : rng → list nat → nat → list nat * rng.
(** [math.sqrt] / [np.sqrt] *)
Variable sqrt : Q → Q.

Definition random_choice (g : rng) (a : list nat) (size : Z)
  : result (list nat * rng) :=
  if (size <? 0)%Z || (Z.of_nat (length a) <? size)%Z then Err ValueError
  else Ok (choice g a (Z.to_nat size)).

(** [max(1, int(test_size * len(interacted_items)))]: [test_size] reaches
    the function as a double, the double nearest to the number given here;
    the length is converted to a double and the product is that of two
    doubles. *)
Definition n_test_of (test_size : Q) (n_interacted : nat) : result Z :=
  count ← float_of_nat n_interacted;
  n ← py_int_float (double_mul (round_double test_size) count);
  Ok (Z.max 1 n).

(** The holdout loop over the user rows. *)
Fixpoint holdout (test_size : Q) (M : matrix) (g : rng)
  : result (list (list bool)) :=
  match M with
  | [] => Ok []
  | row :: M' =>
      let interacted_items := where_ positive row in
      let blank := replicate (length row) false in
      if 5 <? length interacted_items then
        n_test ← n_test_of test_size (length interacted_items);
        '(test_indices, g') ← random_choice g interacted_items n_test;
        mask_row ← assign_all blank test_indices true;
        rest ← holdout test_size M' g';
        Ok (mask_row :: rest)
      else
        rest ← holdout test_size M' g;
        Ok (blank :: rest)
  end.

(** What [np.random.choice(a, size, replace=False)] returns for
    [size ≤ len(a)]: [size] elements of [a], none taken twice. *)
Definition choice_ok : Prop :=
  ∀ g a n, n ≤ length a → length (choice g a n).1 = n ∧ (choice g a n).1 ⊆+ a.

(** What the claim on the holdout says of one user row and its row of
    the test mask. *)
Definition holdout_row_ok (test_size : Q) (row : list Q) (mask_row : list bool) : Prop :=
  let observed_count := length (where_ positive row) in
  let test_cells := where_ id mask_row in
  length mask_row = length row
  ∧ (∀ j, j ∈ test_cells → j ∈ where_ positive row)
  ∧ length test_cells ≤ observed_count
  ∧ (5 < observed_count →
       n_test_of test_size observed_count = Ok (Z.of_nat (length test_cells)))
  ∧ (observed_count ≤ 5 → test_cells = []).

(** [train_matrix = user_item_matrix.copy(); train_matrix[test_mask] = 0] *)
Definition zero_out (M : matrix) (mask : list (list bool)) : matrix :=
  map2 (λ x (b : bool), if b then 0%Q else x) M mask.

(** [np.argsort(-pred_ratings)[:k]] *)
Definition top_k (k : Z) (scores : list fnum) : list nat :=
  slice_to k (argsort (map fneg scores)).

(** [n / min(k, len(top_k_items)) if len(top_k_items) > 0 else 0] *)
Definition precision_of (k : Z) (hits : nat) (top : list nat) : result Q :=
  if 0 <? length top then
    py_div (Qnat hits) (inject_Z (Z.min k (Z.of_nat (length top))))
  else Ok 0%Q.

(** [n / len(test_items) if len(test_items) > 0 else 0] *)
Definition recall_of (hits : nat) (test_items : list nat) : result Q :=
  if 0 <? length test_items then py_div (Qnat hits) (Qnat (length test_items))
  else Ok 0%Q.

(** The ranking of one user from the row of predictions (a view of the
    array of predictions, written here once, after its only read). *)
Definition rank_user (k : Z) (pred_row : list Q) (train_items test_items : list nat)
  : result (Q * Q) :=
  pred_ratings ← assign_all (Fin <$> pred_row) train_items NInf;
  let top_k_items := top_k k pred_ratings in
  let hits := n_common top_k_items test_items in
  precision ← precision_of k hits top_k_items;
  recall ← recall_of hits test_items;
  Ok (precision, recall).

(** The body of [for u in range(n_users)]. *)
Definition user_metrics (k : Z) (predicted train : matrix)
    (mask : list (list bool)) (u : nat) : result (option (Q * Q)) :=
  mask_row ← index mask u;
  let test_items := where_ id mask_row in
  if length test_items =? 0 then Ok None
  else
    train_row ← index train u;
    let train_items := where_ positive train_row in
    pred_row ← index predicted u;
    pr ← rank_user k pred_row train_items test_items;
    Ok (Some pr).

Definition predict_ratings (model : cf_model) (train_matrix : matrix)
  : result matrix :=
  match model with
  | FactorDict uf itf =>
      user_factors ← lookup_key uf;
      item_factors ← lookup_key itf;
      if n_rows item_factors =? n_cols user_factors
      then np_dot user_factors item_factors
      else np_dot user_factors (transpose item_factors)
  | OtherModel => Ok train_matrix
  end.

(** The [try] block. *)
Definition evaluate_cf_body (model : cf_model) (user_item_matrix : matrix)
    (test_size : Q) (k : Z) (g : rng) : result metrics :=
  test_mask ← holdout test_size user_item_matrix g;
  let train_matrix := zero_out user_item_matrix test_mask in
  predicted_ratings ← predict_ratings model train_matrix;
  test_ratings ← bool_index user_item_matrix test_mask;
  predicted_test_ratings ← bool_index predicted_ratings test_mask;
  mse ← mean_squared_error test_ratings predicted_test_ratings;
  let rmse := sqrt mse in
  per_user ← for_each (user_metrics k predicted_ratings train_matrix test_mask)
                     (seq 0 (n_rows user_item_matrix));
  let avg_precision := mean_or_zero (per_user.*1) in
  let avg_recall := mean_or_zero (per_user.*2) in
  f1 ← f1_score avg_precision avg_recall;
  Ok (Metrics rmse avg_precision avg_recall f1).

(** [try: ... except Exception as e: return {all entries 0.0}] *)
Definition evaluate_collaborative_filtering (model : cf_model)
    (user_item_matrix : matrix) (test_size : Q) (k : Z) (g : rng) : metrics :=
  match evaluate_cf_body model user_item_matrix test_size k g with
  | Ok m => m
  | Err _ => zero_metrics
  end.

(** The call as a computation that may raise: the log line before the
    [try] formats the integer [k], the handler logs the exception and builds
    the record of zeros. *)
Definition evaluate_collaborative_filtering_call (model : cf_model)
    (user_item_matrix : matrix) (test_size : Q) (k : Z) (g : rng)
  : result metrics :=
  try_except (evaluate_cf_body model user_item_matrix test_size k g)
             (λ _, Ok zero_metrics).
End Evaluator.

(** A sampler that takes the first elements, to run the evaluators on. *)
Definition first_choice (g : unit) (a : list nat) (n : nat) : list nat * unit :=
  (take n a, g).

(* ================================================================= *)
(** ** [evaluate_post_collaborative_filtering] *)

Section PostEvaluator.
Context {rng : Type}.
Variable choice : rng → list nat → nat → list nat * rng.
(** [np.random.seed(n)] *)
Variable seed : nat → rng.
Variable sqrt : Q → Q.

Definition iloc (M : matrix) (i j : nat) : result Q :=
  row ← index M i; index row j.

Definition iloc_set (M : matrix) (i j : nat) (x : Q) : result matrix :=
  row ← index M i;
  _ ← index row j;
  Ok (<[i := <[j := x]> row]> M).

(** The body of [for idx in test_indices], on the two copies of the
    interaction matrix. *)
Definition hold_out_cell (n_posts : nat) (st : matrix * matrix) (idx : nat)
  : result (matrix * matrix) :=
  let '(train_matrix, test_matrix) := st in
  let user_idx := idx / n_posts in
  let post_idx := idx mod n_posts in
  x ← iloc train_matrix user_idx post_idx;
  if positive x then
    test_matrix' ← iloc_set test_matrix user_idx post_idx x;
    train_matrix' ← iloc_set train_matrix user_idx post_idx 0%Q;
    Ok (train_matrix', test_matrix')
  else Ok (train_matrix, test_matrix).

Fixpoint hold_out_cells (n_posts : nat) (st : matrix * matrix) (idxs : list nat)
  : result (matrix * matrix) :=
  match idxs with
  | [] => Ok st
  | idx :: idxs' =>
      st' ← hold_out_cell n_posts st idx;
      hold_out_cells n_posts st' idxs'
  end.

(** [train_matrix = user_post_matrix.copy(); test_matrix = user_post_matrix.copy()],
    20% of all cell positions drawn with the seed 42, then the loop. *)
Definition post_split (user_post_matrix : matrix) : result (matrix * matrix) :=
  let train_matrix := user_post_matrix in
  let test_matrix := user_post_matrix in
  let n_users := n_rows train_matrix in
  let n_posts := n_cols train_matrix in
  let n_test := py_int ((1 # 5) * Qnat n_users * Qnat n_posts) in
  '(test_indices, _) ← random_choice choice (seed 42) (seq 0 (n_users * n_posts)) n_test;
  hold_out_cells n_posts (train_matrix, test_matrix) test_indices.

Definition count_true (mask : list (list bool)) : nat :=
  length (filter (λ b, b = true) (concat mask)).

(** [if np.sum(test_mask) > 0: rmse = np.sqrt(np.mean((test - pred) ** 2)) else: rmse = 0] *)
Definition post_rmse (test_matrix predictions : matrix) : result Q :=
  let test_mask := map (map positive) test_matrix in
  if 0 <? count_true test_mask then
    test_vals ← bool_index test_matrix test_mask;
    pred_vals ← bool_index predictions test_mask;
    Ok (sqrt (mean (sq_errs (zip test_vals pred_vals))))
  else Ok 0%Q.

(** [np.sum(user_true[top_k_indices])] *)
Definition count_relevant (user_true : list bool) (idx : list nat) : result nat :=
  picked ← mapM (index user_true) idx;
  Ok (length (filter (λ b, b = true) picked)).

(** The body of [for user_idx in range(min(10, n_users))]. *)
Definition post_user_metrics (k : Z) (user_post_matrix predictions : matrix)
    (user_idx : nat) : result (option (Q * Q)) :=
  row ← index user_post_matrix user_idx;
  let user_true := map positive row in
  user_pred ← index predictions user_idx;
  let n_true := length (filter (λ b, b = true) user_true) in
  if 0 <? n_true then
    let top_k_indices := slice_last k (argsort (Fin <$> user_pred)) in
    relevant_recommended ← count_relevant user_true top_k_indices;
    precision ← (if (0 <? k)%Z then py_div (Qnat relevant_recommended) (inject_Z k)
                 else Ok 0%Q);
    recall ← (if 0 <? n_true then py_div (Qnat relevant_recommended) (Qnat n_true)
              else Ok 0%Q);
    Ok (Some (precision, recall))
  else Ok None.

Definition post_cf_body (model : cf_model) (user_post_matrix : matrix) (k : Z)
  : result metrics :=
  '(train_matrix, test_matrix) ← post_split user_post_matrix;
  '(uf, pf) ← match model with
              | FactorDict uf pf =>
                  user_factors ← lookup_key uf;
                  post_factors ← lookup_key pf;
                  Ok (user_factors, post_factors)
              | OtherModel => Err TypeError
              end;
  predictions ← np_dot uf pf;
  rmse ← post_rmse test_matrix predictions;
  per_user ← for_each (post_user_metrics k user_post_matrix predictions)
                      (seq 0 (10 `min` n_rows user_post_matrix));
  let avg_precision := mean_or_zero (per_user.*1) in
  let avg_recall := mean_or_zero (per_user.*2) in
  f1 ← f1_score avg_precision avg_recall;
  Ok (Metrics rmse avg_precision avg_recall f1).

(** [try: ... except Exception as e: return {'rmse': 0, ...: 0}] *)
Definition evaluate_post_collaborative_filtering (model : cf_model)
    (user_post_matrix : matrix) (k : Z) : metrics :=
  match post_cf_body model user_post_matrix k with
  | Ok m => m
  | Err _ => zero_metrics
  end.

Definition evaluate_post_collaborative_filtering_call (model : cf_model)
    (user_post_matrix : matrix) (k : Z) : result metrics :=
  try_except (post_cf_body model user_post_matrix k) (λ _, Ok zero_metrics).
End PostEvaluator.

(** In the post evaluator the test matrix starts as a copy of the whole
    interaction matrix, and the holdout loop only writes into it the values
    it already holds: every training cell is the original or zero, and the
    test matrix stays the interaction matrix. *)
Definition held_out (M train_matrix : matrix) : Prop :=
  Forall2 (Forall2 (λ x t, t = x ∨ t = 0%Q)) M train_matrix.

(* ================================================================= *)
(** ** [evaluate_business_recommendations] *)

Record business_metrics : Type := BusinessMetrics {
  b_precision_at_k : Q;
  b_recall_at_k : Q;
  b_f1_at_k : Q;
  category_coverage : Q
}.

Definition zero_business_metrics : business_metrics := BusinessMetrics 0 0 0 0.

(** The caller's similarity array.  The function receives a reference to
    it, so the array is threaded through the model as a store: every
    function returns the array as it is after its writes, also when it
    raises. *)
Abbreviation similarity := (list (list fnum)).

Section BusinessEvaluator.
(** The values of the ['Category'] column. *)
Context `{Countable category}.

(** [sim_scores = similarity_matrix[i, :]; sim_scores[i] = -np.inf]:
    the row is a view, the assignment writes into the caller's array. *)
Definition exclude_self (sim : similarity) (i : nat)
  : similarity * result (list fnum) :=
  match sim !! i with
  | None => (sim, Err IndexError)
  | Some row =>
      if i <? length row then
        let sim_scores := <[i := NInf]> row in
        (<[i := sim_scores]> sim, Ok sim_scores)
      else (sim, Err IndexError)
  end.

(** [np.where(ground_truth[i, :] == 1)[0]], where [ground_truth[i, j]] is 1
    for [i != j] with [categories[i] == categories[j]]. *)
Definition relevant_to (categories : list category) (i : nat) : list nat :=
  filter (λ j, i ≠ j ∧ categories !! i = categories !! j)
         (seq 0 (length categories)).

(** The first loop: precision and recall of every business that has a
    relevant one. *)
Fixpoint business_ranking (categories : list category) (k : Z)
    (todo : list nat) (sim : similarity)
  : similarity * result (list (Q * Q)) :=
  match todo with
  | [] => (sim, Ok [])
  | i :: todo' =>
      match exclude_self sim i with
      | (sim1, Err e) => (sim1, Err e)
      | (sim1, Ok sim_scores) =>
          let top_k_indices := top_k k sim_scores in
          let relevant_indices := relevant_to categories i in
          let this : result (option (Q * Q)) :=
            if length relevant_indices =? 0 then Ok None
            else
              let hits := n_common top_k_indices relevant_indices in
              precision ← precision_of k hits top_k_indices;
              recall ← recall_of hits relevant_indices;
              Ok (Some (precision, recall)) in
          match this with
          | Err e => (sim1, Err e)
          | Ok o =>
              let '(sim2, rest) := business_ranking categories k todo' sim1 in
              (sim2, rest ← rest;
                     Ok (match o with Some pr => pr :: rest | None => rest end))
          end
      end
  end.

(** The second loop: the categories of everything recommended. *)
Fixpoint recommended_categories (categories : list category) (k : Z)
    (todo : list nat) (sim : similarity) (acc : gset category)
  : similarity * result (gset category) :=
  match todo with
  | [] => (sim, Ok acc)
  | i :: todo' =>
      match exclude_self sim i with
      | (sim1, Err e) => (sim1, Err e)
      | (sim1, Ok sim_scores) =>
          let top_k_indices := top_k k sim_scores in
          match mapM (index categories) top_k_indices with
          | Err e => (sim1, Err e)
          | Ok cats =>
              recommended_categories categories k todo' sim1 (acc ∪ list_to_set cats)
          end
      end
  end.

(** The [try] block; [None] for the column is a frame without ['Category']. *)
Definition business_body (similarity_matrix : similarity)
    (category_column : option (list category)) (k : Z)
  : similarity * result business_metrics :=
  match lookup_key category_column with
  | Err e => (similarity_matrix, Err e)
  | Ok categories =>
      let n_businesses := length categories in
      match business_ranking categories k (seq 0 n_businesses) similarity_matrix with
      | (sim1, Err e) => (sim1, Err e)
      | (sim1, Ok per_business) =>
          let avg_precision := mean_or_zero (per_business.*1) in
          let avg_recall := mean_or_zero (per_business.*2) in
          match f1_score avg_precision avg_recall with
          | Err e => (sim1, Err e)
          | Ok f1 =>
              let unique_categories := size (list_to_set categories : gset category) in
              match recommended_categories categories k (seq 0 n_businesses) sim1 ∅ with
              | (sim2, Err e) => (sim2, Err e)
              | (sim2, Ok recommended) =>
                  let coverage :=
                    if 0 <? unique_categories
                    then py_div (Qnat (size recommended)) (Qnat unique_categories)
                    else Ok 0%Q in
                  (sim2, c ← coverage;
                         Ok (BusinessMetrics avg_precision avg_recall f1 c))
              end
          end
      end
  end.

(** [try: ... except Exception: return {all entries 0.0}]; the first
    component is the caller's array after the call. *)
Definition evaluate_business_recommendations (similarity_matrix : similarity)
    (category_column : option (list category)) (k : Z)
  : similarity * business_metrics :=
  match business_body similarity_matrix category_column k with
  | (sim', Ok m) => (sim', m)
  | (sim', Err _) => (sim', zero_business_metrics)
  end.

(** The array after the self-exclusion of the businesses [a .. a + m - 1]. *)
Definition excluded_range (a m : nat) (sim : similarity) : similarity :=
  imap (λ i row, if decide (a ≤ i < a + m) then <[i := NInf]> row else row) sim.
End BusinessEvaluator.

(* ================================================================= *)
(** ** Dictionaries and the ID mappings *)

Section Dict.
Context {K V : Type} `{EqDecision K}.

(** A dictionary is the list of its items in insertion order, every key
    once.  [d.get(k)]: *)
Fixpoint dict_get (k : K) (d : list (K * V)) : option V :=
  match d with
  | [] => None
  | kv :: d' => if decide (k = kv.1) then Some kv.2 else dict_get k d'
  end.

(** [d[k] = v]: a key that is already in [d] keeps its place. *)
Fixpoint dict_set (k : K) (v : V) (d : list (K * V)) : list (K * V) :=
  match d with
  | [] => [(k, v)]
  | kv :: d' => if decide (k = kv.1) then (k, v) :: d' else kv :: dict_set k v d'
  end.

(** [{k: v for k, v in items}] *)
Definition dict_of (items : list (K * V)) : list (K * V) :=
  foldl (λ d kv, dict_set kv.1 kv.2 d) [] items.
End Dict.

(** [{i: key for key, i in m.items()}] *)
Definition reverse_map {K} (m : list (K * nat)) : list (nat * K) :=
  dict_of (map (λ kv, (kv.2, kv.1)) m).

Section IdMaps.
Context {L K : Type} `{EqDecision K}.
(** The conversion of a row or column label to a key: [str(user_id)],
    [int(post_id)], or none in the full trainer. *)
Variable key_of : L → result K.

(** [{key_of(label): i for i, label in enumerate(labels)}] *)
Definition id_map (labels : list L) : result (list (K * nat)) :=
  keys ← mapM key_of labels;
  Ok (dict_of (imap (λ i k, (k, i)) keys)).

(** The two maps of one axis; the conversion that the source applies again
    to the keys of the first map leaves a key it produced as it is. *)
Definition id_maps (labels : list L) : result (list (K * nat) * list (nat * K)) :=
  m ← id_map labels;
  Ok (m, reverse_map m).
End IdMaps.

(** [df.drop_duplicates(subset=[column])] and [Series.unique()], on the
    values of the column: the first of equal values stays. *)
Fixpoint drop_duplicates {K} `{EqDecision K} (l : list K) : list K :=
  match l with
  | [] => []
  | x :: l' => x :: filter (λ y, y ≠ x) (drop_duplicates l')
  end.

(** The ID maps of [train_content_based_business]: the frame without
    duplicate names, [BusinessID = range(1, len + 1)],
    [{name: id for name, id in zip(names, ids)}] and
    [{id: idx for idx, id in enumerate(ids)}]. *)
Definition business_id_maps {K} `{EqDecision K} (names : list K)
  : list K * list (K * nat) * list (nat * nat) :=
  let business_names := drop_duplicates names in
  let business_ids := seq 1 (length business_names) in
  (business_names,
   dict_of (zip business_names business_ids),
   dict_of (imap (λ idx id, (id, idx)) business_ids)).

(** The business maps of [train_hybrid_recommendation_model], built from
    the names of the frame as they are:
    [{name: i for i, name in enumerate(business_names)}] and
    [{i: name for i, name in enumerate(business_names)}]. *)
Definition hybrid_business_maps {K} `{EqDecision K} (business_names : list K)
  : list (K * nat) * list (nat * K) :=
  (dict_of (imap (λ i name, (name, i)) business_names),
   dict_of (imap (λ i name, (i, name)) business_names)).

(* ================================================================= *)
(** ** [create_business_post_affinity] *)

(** A row of the posts frame.  A cell of ['CompanyName'] may be missing
    ([None], pandas' [nan]); the cells of ['PostID'] and ['Engagement'] are
    floats, [nan] included; [None] for the quality is a frame without the
    column ['QualityScore']. *)
Record post (K : Type) : Type := Post {
  post_id : fnum;
  company_name : option K;
  post_title : K;
  post_industry : K;
  engagement : fnum;
  quality_score : option fnum
}.
Arguments Post {K} _ _ _ _ _ _.
Arguments post_id {K} _.
Arguments company_name {K} _.
Arguments post_title {K} _.
Arguments post_industry {K} _.
Arguments engagement {K} _.
Arguments quality_score {K} _.

Record post_info (K : Type) : Type := PostInfo {
  info_id : Z;
  info_title : K;
  info_industry : K;
  info_engagement : fnum;
  info_quality : fnum
}.
Arguments PostInfo {K} _ _ _ _ _.
Arguments info_id {K} _.
Arguments info_quality {K} _.

Section PostAffinity.
Context {K : Type} `{EqDecision K}.

(** The dictionary built for one post: [int(post['PostID'])] raises on a
    missing ID; [post.get('QualityScore', 4.0)]. *)
Definition post_info_of (p : post K) : result (post_info K) :=
  id ← py_int_float (post_id p);
  Ok (PostInfo id (post_title p) (post_industry p) (engagement p)
               (default (Fin 4) (quality_score p))).

(** [company_posts[company_posts['CompanyName'] == company_name]]: a
    missing name equals no name, not even a missing one. *)
Definition posts_of (company_posts : list (post K)) (name : option K)
  : list (post K) :=
  filter (λ p, is_Some name ∧ company_name p = name) company_posts.

(** The loop over [company_posts['CompanyName'].unique()], which lists a
    missing name once, like any other.  The function also pickles the
    dictionary to a file; the file system is not part of the embedding. *)
Definition create_business_post_affinity (company_posts : list (post K))
  : result (list (option K * list (post_info K))) :=
  items ← mapM (λ name, posts_info ← mapM post_info_of (posts_of company_posts name);
                        Ok (name, posts_info))
               (drop_duplicates (company_name <$> company_posts));
  Ok (dict_of items).
End PostAffinity.

(* ================================================================= *)
(** ** [calculate_business_product_affinity] *)

(** A row of the products frame.  After the first block of the function
    the frame always has the column ['EgyptRelevance']. *)
Record product : Type := Product {
  stock_code : string;
  description : string;
  egypt_relevance : Q
}.

(** A row of the business frame; [None] for the region is a frame without
    the column ['Region']. *)
Record business : Type := Business {
  business_name : string;
  business_category : string;
  business_region : option string
}.

Record matched_product : Type := Matched {
  m_stock_code : string;
  m_description : string;
  m_score : Q;
  m_relevance : Q
}.

Definition egyptian_keywords : list string :=
  ["cotton"; "textile"; "spice"; "craft"; "ceramic"; "papyrus";
   "leather"; "copper"; "silver"; "gold"; "carpet"; "rug";
   "dates"; "olive"; "tea"; "coffee"; "lamp"; "glass"; "metal";
   "furniture"; "decoration"; "ornament"; "jewelry"; "herb"].

Definition category_product_map : list (string * list string) :=
  [("Spices", ["SPICES"; "FOOD"; "KITCHEN"; "HERB"; "TEA"]);
   ("Agriculture", ["GARDEN"; "PLANTS"; "OUTDOOR"; "ORGANIC"; "COTTON"; "FLOWER"]);
   ("Metals", ["METAL"; "HARDWARE"; "TOOLS"; "COPPER"; "SILVER"; "GOLD"]);
   ("Electronics", ["ELECTRONICS"; "TECHNOLOGY"; "BATTERIES"; "PHONE"; "COMPUTER"]);
   ("Textiles", ["TEXTILES"; "FABRIC"; "CLOTHING"; "COTTON"; "LINEN"; "CARPET"]);
   ("Fruits & Vegetables", ["FOOD"; "KITCHEN"; "STORAGE"; "FRUIT"; "ORGANIC"]);
   ("Machinery", ["TOOLS"; "HARDWARE"; "EQUIPMENT"; "METAL"]);
   ("Seafood", ["FOOD"; "KITCHEN"; "STORAGE"; "FISH"]);
   ("Pharmaceuticals", ["HEALTH"; "WELLNESS"; "BATHROOM"; "HERBAL"; "MEDICINE"]);
   ("Manufacturing", ["TOOLS"; "EQUIPMENT"; "HARDWARE"; "FACTORY"]);
   ("Chemicals", ["CLEANING"; "HOUSEHOLD"; "GARDEN"; "LABORATORY"]);
   ("Automobiles", ["TRANSPORT"; "TRAVEL"; "OUTDOOR"; "VEHICLE"; "CAR"])].

Definition region_product_map : list (string * list string) :=
  [("Greater Cairo", ["URBAN"; "MODERN"; "FURNITURE"; "DECOR"; "OFFICE"]);
   ("Mediterranean Coast", ["SEAFOOD"; "MARINE"; "BEACH"; "SUMMER"; "FISH"]);
   ("Upper Egypt", ["CRAFT"; "TRADITIONAL"; "HANDMADE"; "POTTERY"; "STATUE"]);
   ("Nile Delta", ["COTTON"; "TEXTILE"; "AGRICULTURE"; "FRUIT"]);
   ("Suez Canal", ["SHIPPING"; "LOGISTICS"; "TRADE"; "INTERNATIONAL"]);
   ("Red Sea", ["TOURISM"; "BEACH"; "SUMMER"; "CORAL"; "DIVING"]);
   ("Sinai", ["CRAFT"; "TRADITIONAL"; "BEDOUIN"; "HERBS"; "DESERT"])].

(** [keyword in text] *)
Fixpoint contains (keyword text : string) : bool :=
  String.prefix keyword text ||
  match text with
  | EmptyString => false
  | String _ text' => contains keyword text'
  end.

(** [sum(1 for keyword in keywords if keyword in text)] *)
Definition count_keywords (keywords : list string) (text : string) : nat :=
  length (filter (λ keyword, contains keyword text = true) keywords).

(** [min(a, b)] of Python: the first argument unless the second is smaller. *)
Definition py_min (a b : Q) : Q := if Qltb b a then b else a.

(** [sorted(l, key=lambda x: x['Score'], reverse=True)]: descending, and
    stable, so that products of equal score keep their order. *)
Fixpoint insert_by_score (x : matched_product) (l : list matched_product)
  : list matched_product :=
  match l with
  | [] => [x]
  | y :: l' =>
      if Qle_bool (m_score y) (m_score x) then x :: l
      else y :: insert_by_score x l'
  end.

Definition sorted_by_score (l : list matched_product) : list matched_product :=
  foldr insert_by_score [] l.

(** The order of the sorted list: no later score is higher. *)
Definition score_ge (a b : matched_product) : Prop := (m_score b <= m_score a)%Q.

Section ProductAffinity.
(** [str.upper] and [str.lower] *)
Variables upper lower : string → string.

(** The column that the function adds to a frame without relevance. *)
Definition relevance_of (desc : string) : Q :=
  (Qnat (count_keywords egyptian_keywords (lower (lower desc)))
   / Qnat (length egyptian_keywords))%Q.

Definition with_relevance (has_relevance : bool) (products : list product)
  : list product :=
  if has_relevance then products
  else map (λ p, Product (stock_code p) (description p)
                         (relevance_of (description p))) products.

Definition keywords_of (b : business) : list string :=
  default [] (dict_get (business_category b) category_product_map)
  ++ match business_region b with
     | Some region => default [] (dict_get region region_product_map)
     | None => []
     end.

(** The body of the loop over the products, for the keywords of one
    business. *)
Definition match_product (keywords : list string) (p : product)
  : result (option matched_product) :=
  let match_score :=
    (Qnat (count_keywords keywords (upper (description p)))
     * (1 + egypt_relevance p))%Q in
  if Qltb 0 match_score then
    normalized ← py_div match_score (Qnat (length keywords));
    Ok (Some (Matched (stock_code p) (description p)
                      (py_min (9 # 10) normalized) (egypt_relevance p)))
  else Ok None.

(** The entry of one business. *)
Definition affinity_of (products : list product) (b : business)
  : result (string * list matched_product) :=
  matched_products ← for_each (match_product (keywords_of b)) products;
  let matched_products := sorted_by_score matched_products in
  Ok (business_name b,
      match matched_products with
      | [] => []
      | _ => slice_to 20 matched_products
      end).

(** The function, with [has_relevance] for ['EgyptRelevance' in
    products.columns]; it returns the dictionary, the frame of the caller
    gains the relevance column. *)
Definition calculate_business_product_affinity (has_relevance : bool)
    (products : list product) (businesses : list business)
  : result (list (string * list matched_product)) :=
  let products := with_relevance has_relevance products in
  items ← mapM (affinity_of products) businesses;
  Ok (dict_of items).
End ProductAffinity.

(** [str.upper] and [str.lower] on texts of ASCII characters. *)
Fixpoint map_chars (f : Ascii.ascii → Ascii.ascii) (s : string) : string :=
  match s with
  | EmptyString => EmptyString
  | String c s' => String (f c) (map_chars f s')
  end.

Definition ascii_upper (s : string) : string :=
  map_chars (λ c, let n := Ascii.nat_of_ascii c in
                  if (97 <=? n) && (n <=? 122)
                  then Ascii.ascii_of_nat (n - 32) else c) s.

Definition ascii_lower (s : string) : string :=
  map_chars (λ c, let n := Ascii.nat_of_ascii c in
                  if (65 <=? n) && (n <=? 90)
                  then Ascii.ascii_of_nat (n + 32) else c) s.

(* ================================================================= *)
(** ** [train_economic_context_model] *)

(** The exceptions of the frame accesses of this function. *)
Inductive frame_error : Type :=
  | AttributeError
  | FrameIndexError.

Inductive frame_result (A : Type) : Type :=
  | Got (a : A)
  | Raised (e : frame_error).
Arguments Got {A} a.
Arguments Raised {A} e.

#[global] Instance frame_result_ret : MRet frame_result := λ A a, Got a.
#[global] Instance frame_result_bind : MBind frame_result := λ A B f r,
  match r with
  | Got a => f a
  | Raised e => Raised e
  end.

(** The value of [economic_data.get(col, default)]: the column of the
    frame, or the default, which the source gives as a Python list. *)
Inductive series_or_list : Type :=
  | Series (values : list Q)
  | PyList (values : list Q).

(** A frame is the dictionary of its columns. *)
Definition frame_get (economic_data : list (string * list Q)) (col : string)
    (default : list Q) : series_or_list :=
  match dict_get col economic_data with
  | Some values => Series values
  | None => PyList default
  end.

(** [x.iloc[0]]: a list has no attribute [iloc]. *)
Definition iloc_first (x : series_or_list) : frame_result Q :=
  match x with
  | Series (v :: _) => Got v
  | Series [] => Raised FrameIndexError
  | PyList _ => Raised AttributeError
  end.

(** [if col in economic_data.columns: d[key] = economic_data[col].iloc[0]] *)
Definition optional_indicator (economic_data : list (string * list Q))
    (key col : string) : frame_result (list (string * Q)) :=
  match dict_get col economic_data with
  | Some values => v ← iloc_first (Series values); Got [(key, v)]
  | None => Got []
  end.

Record context_features : Type := ContextFeatures {
  indicators : list (string * Q);
  industry_weights : list (string * Q)
}.

Definition winter_months : list nat := [10; 11; 12; 1; 2; 3]%nat.
Definition ramadan_2023 : list nat := [3; 4]%nat.
Definition ramadan_2024 : list nat := [3]%nat.
Definition ramadan_2025 : list nat := [2; 3]%nat.

(** [1 if c else 0] *)
Definition flag (c : bool) : Q := if c then 1%Q else 0%Q.

(** The function, with the month of [datetime.now()] as an argument. *)
Definition train_economic_context_model (economic_data : list (string * list Q))
    (month : nat) : frame_result context_features :=
  gdp_growth ← iloc_first (frame_get economic_data "gdp_growth_annual_pct" [42 # 10]);
  inflation ← iloc_first (frame_get economic_data
                            "inflation_consumer_prices_annual_pct" [102 # 10]);
  population_growth ← iloc_first (frame_get economic_data
                                    "population_growth_annual_pct" [19 # 10]);
  let core_indicators :=
    dict_of [("gdp_growth", gdp_growth); ("inflation", inflation);
             ("population_growth", population_growth)] in
  tourism ← match dict_get "tourism_sensitivity" economic_data with
            | Some values => iloc_first (Series values)
            | None => Got (12 # 100)
            end;
  trade ← optional_indicator economic_data "trade_balance" "trade_balance";
  stability ← optional_indicator economic_data "economic_stability_index"
                "economic_stability_index";
  let egypt_specific :=
    dict_of ([("tourism_sensitivity", tourism)] ++ trade ++ stability) in
  manufacturing ← optional_indicator economic_data "manufacturing_pct_gdp"
                    "manufacturing_value_added_pct_of_gdp";
  agriculture ← optional_indicator economic_data "agriculture_pct_gdp"
                  "agriculture_forestry_and_fishing_value_added_pct_of_gdp";
  services ← optional_indicator economic_data "services_pct_gdp"
               "services_value_added_pct_of_gdp";
  let industry_indicators := dict_of (manufacturing ++ agriculture ++ services) in
  let context_features :=
    dict_of (core_indicators ++ egypt_specific ++ industry_indicators) in
  let context_features :=
    dict_set "is_winter_tourism_season"
             (flag (bool_decide (month ∈ winter_months))) context_features in
  let context_features :=
    dict_set "is_ramadan_season"
             (flag (bool_decide (month ∈ ramadan_2023)
                    || bool_decide (month ∈ ramadan_2024)
                    || bool_decide (month ∈ ramadan_2025))) context_features in
  Got (ContextFeatures context_features
         [("Textiles", 15 # 100); ("Agriculture", 18 # 100); ("Spices", 12 # 100);
          ("Fruits & Vegetables", 15 # 100); ("Chemicals", 8 # 100);
          ("Pharmaceuticals", 7 # 100); ("Electronics", 6 # 100);
          ("Machinery", 5 # 100); ("Metals", 8 # 100); ("Automobiles", 3 # 100);
          ("Seafood", 6 # 100); ("Manufacturing", 10 # 100)]).

(** The three columns that the function reads with a default. *)
Definition core_columns : list (string * string) :=
  [("gdp_growth", "gdp_growth_annual_pct");
   ("inflation", "inflation_consumer_prices_annual_pct");
   ("population_growth", "population_growth_annual_pct")].

(* ================================================================= *)
(** ** [evaluate_company_recommendations] *)

(** Python's [l[start:stop]]: a negative bound counts from the end, and
    every bound is clipped to the list. *)
Definition slice_bound (n : nat) (i : Z) : nat :=
  if (i <? 0)%Z then Z.to_nat (Z.max 0 (i + Z.of_nat n))
  else Z.to_nat i `min` n.

Definition py_slice {A} (start stop : Z) (l : list A) : list A :=
  let n := length l in
  drop (slice_bound n start) (take (slice_bound n stop) l).

(** [a[i]] on the first axis of an array, with an integer of either sign. *)
Definition np_row {A} (a : list A) (i : Z) : result A :=
  let n := Z.of_nat (length a) in
  if (0 <=? i)%Z then index a (Z.to_nat i)
  else if (- n <=? i)%Z then index a (Z.to_nat (i + n))
  else Err IndexError.

Section CompanyEvaluator.
Context {category : Type} `{EqDecision category}.

(** [np.sum(values == c)] *)
Definition count_equal (c : category) (values : list category) : nat :=
  length (filter (λ x, x = c) values).

(** [np.argsort(similarities)[-k-1:-1]] *)
Definition company_top_k (k : Z) (similarities : list fnum) : list nat :=
  py_slice (- k - 1) (-1) (argsort similarities).

(** The loop over [business_features.iterrows()]: the rows are the index
    label and category of every business, the loop ends at the first label
    that is not below the number of rows of the array. *)
Fixpoint company_loop (business_similarity : similarity)
    (categories : list category) (k : Z) (rows : list (Z * category))
  : result (list (Q * Q)) :=
  match rows with
  | [] => Ok []
  | (i, business_category) :: rows' =>
      if (Z.of_nat (length business_similarity) <=? i)%Z then Ok []
      else
        similarities ← np_row business_similarity i;
        let top_k_indices := company_top_k k similarities in
        recommended_categories ← mapM (index categories) top_k_indices;
        let relevant_recommended :=
          count_equal business_category recommended_categories in
        let same_category_count :=
          (Z.of_nat (count_equal business_category categories) - 1)%Z in
        let precision :=
          if (0 <? k)%Z then (Qnat relevant_recommended / inject_Z k)%Q
          else 0%Q in
        let recall :=
          if (0 <? same_category_count)%Z
          then (Qnat relevant_recommended / inject_Z same_category_count)%Q
          else 0%Q in
        rest ← company_loop business_similarity categories k rows';
        Ok ((precision, recall) :: rest)
  end.

(** The [try] block.  A row of [business_features] is its index label and
    its category; [has_category] is false for a frame without the column
    ['Category'], whose rows then hold no category that is read. *)
Definition company_body (business_similarity : similarity)
    (business_features : list (Z * category)) (has_category : bool) (k : Z)
  : result business_metrics :=
  column ← lookup_key (if has_category then Some (business_features.*2) else None);
  let categories := drop_duplicates column in
  scores ← company_loop business_similarity column k business_features;
  let avg_precision := mean_or_zero (scores.*1) in
  let avg_recall := mean_or_zero (scores.*2) in
  let f1_score :=
    if Qltb 0 (avg_precision + avg_recall)
    then (2 * avg_precision * avg_recall / (avg_precision + avg_recall))%Q
    else 0%Q in
  let category_coverage :=
    if 0 <? length business_features
    then (Qnat (length categories) / Qnat (length business_features))%Q
    else 0%Q in
  Ok (BusinessMetrics avg_precision avg_recall f1_score category_coverage).

Definition evaluate_company_recommendations (business_similarity : similarity)
    (business_features : list (Z * category)) (has_category : bool) (k : Z)
  : business_metrics :=
  match company_body business_similarity business_features has_category k with
  | Ok m => m
  | Err _ => zero_business_metrics
  end.

(** A similarity array in which every business is strictly more similar
    to itself than to any other, all values being numbers. *)
Definition self_dominant (sim : similarity) : Prop :=
  ∀ i row, sim !! i = Some row →
    ∃ s, row !! i = Some (Fin s) ∧
         ∀ j x, j ≠ i → row !! j = Some x → ∃ q, x = Fin q ∧ (q < s)%Q.
End CompanyEvaluator.

(* ================================================================= *)
(** ** The evaluation of [main] *)

(** The [model] dictionary of the quick trainer as the post evaluator
    reads it: [cf_model['user_factors']] and [cf_model['post_factors']]. *)
Definition post_model (model : cf_model_out) : cf_model :=
  FactorDict (Some (out_user_factors model)) (Some (out_post_factors model)).

(* ================================================================= *)
(** * Properties *)

(** ** Numbers *)

Lemma Qltb_lt (a b : Q) : Qltb a b = true ↔ (a < b)%Q.
Proof.
  unfold Qltb. rewrite negb_true_iff, <- not_true_iff_false, Qle_bool_iff.
  split; [apply Qnot_le_lt | apply Qlt_not_le].
Qed.

Lemma Qltb_ge (a b : Q) : Qltb a b = false ↔ (b <= a)%Q.
Proof. unfold Qltb. rewrite negb_false_iff. apply Qle_bool_iff. Qed.

Lemma Qnat_pos (n : nat) : 0 < n → (0 < Qnat n)%Q.
Proof.
  intros Hn. unfold Qnat. change 0%Q with (inject_Z 0).
  rewrite <- Zlt_Qlt. lia.
Qed.

Lemma Qnat_nonneg (n : nat) : (0 <= Qnat n)%Q.
Proof.
  unfold Qnat. change 0%Q with (inject_Z 0). rewrite <- Zle_Qle. lia.
Qed.

Lemma Qnat_S (n : nat) : (Qnat (S n) == 1 + Qnat n)%Q.
Proof.
  unfold Qnat. rewrite Nat2Z.inj_succ, <- Z.add_1_l, inject_Z_plus. reflexivity.
Qed.

Lemma Qnat_le (n m : nat) : n ≤ m → (Qnat n <= Qnat m)%Q.
Proof. intros. unfold Qnat. rewrite <- Zle_Qle. lia. Qed.

(** ** Sums *)

Lemma qsum_app (l1 l2 : list Q) : (qsum (l1 ++ l2) == qsum l1 + qsum l2)%Q.
Proof.
  induction l1 as [|x l1 IH]; simpl.
  - ring.
  - rewrite IH. ring.
Qed.

Lemma tsum_concat (M : matrix) : (tsum M == qsum (concat M))%Q.
Proof.
  unfold tsum. induction M as [|row M IH]; simpl.
  - reflexivity.
  - rewrite qsum_app, IH. reflexivity.
Qed.

(** A sum weighted by the 0/1 mask is the sum over the masked elements. *)
Lemma qsum_masked {A} (p : A → bool) (f : A → Q) (l : list A) :
  (qsum (map (λ a, (if p a then 1 else 0) * f a) l)
   == qsum (map f (filter (λ a, p a = true) l)))%Q.
Proof.
  induction l as [|a l IH]; simpl; [reflexivity|].
  rewrite filter_cons. destruct (p a) eqn:Hp.
  - rewrite decide_True by done. simpl. rewrite IH. ring.
  - rewrite decide_False by done. rewrite IH. ring.
Qed.

Lemma qsum_indicator {A} (p : A → bool) (l : list A) :
  (qsum (map (λ a, if p a then 1 else 0) l)
   == Qnat (length (filter (λ a, p a = true) l)))%Q.
Proof.
  induction l as [|a l IH]; simpl; [reflexivity|].
  rewrite filter_cons. destruct (p a) eqn:Hp.
  - rewrite decide_True by done. simpl length. rewrite Qnat_S, IH. reflexivity.
  - rewrite decide_False by done. rewrite IH. ring.
Qed.

(** ** The data loss *)

Lemma concat_mask_of (R : matrix) :
  concat (mask_of R) = map (λ r, if positive r then 1 else 0)%Q (concat R).
Proof.
  unfold mask_of. induction R as [|row R IH]; simpl; [done|].
  rewrite map_app, IH. done.
Qed.

Lemma zip_with_masked_row (row prow : list Q) :
  zip_with Qmult (map (λ r, if positive r then 1 else 0)%Q row)
                 (map (λ x, x * x)%Q (zip_with Qminus row prow))
  = map (λ c, (if positive c.1 then 1 else 0) * ((c.1 - c.2) * (c.1 - c.2)))%Q
        (zip row prow).
Proof.
  revert prow. induction row as [|r row IH]; intros [|p prow]; simpl; try done.
  f_equal. apply IH.
Qed.

Lemma concat_masked_err (R P : matrix) :
  concat (mmul (mask_of R) (sq_err R P))
  = map (λ c, (if positive c.1 then 1 else 0) * ((c.1 - c.2) * (c.1 - c.2)))%Q
        (cells R P).
Proof.
  unfold mmul, map2, sq_err, msq, msub, map2, mask_of, cells.
  revert P. induction R as [|row R IH]; intros [|prow P]; simpl; try done.
  rewrite map_app, <- IH, zip_with_masked_row. done.
Qed.

Lemma concat_sq_err (R P : matrix) :
  concat (sq_err R P) = sq_errs (cells R P).
Proof.
  unfold sq_err, msq, msub, map2, cells, sq_errs.
  revert P. induction R as [|row R IH]; intros [|prow P]; simpl; try done.
  rewrite map_app, <- IH. f_equal.
  clear. revert prow. induction row as [|r row IH]; intros [|p prow]; simpl; try done.
  f_equal. apply IH.
Qed.

(** On arrays of one shape, the cells of [R] are the first components of
    the paired cells. *)
Lemma cells_fst (R P : matrix) :
  same_shape R P → (cells R P).*1 = concat R.
Proof.
  unfold cells. induction 1 as [|row prow R P Hlen _ IH]; simpl; [done|].
  rewrite fmap_app, IH. f_equal. apply fst_zip. lia.
Qed.

Lemma length_filter_fst {A B} (p : A → bool) (l : list (A * B)) :
  length (filter (λ c, p c.1 = true) l) = length (filter (λ a, p a = true) (l.*1)).
Proof.
  induction l as [|c l IH]; simpl; [done|].
  rewrite !filter_cons. simpl. destruct (p c.1) eqn:Hp.
  - rewrite !decide_True by done. simpl. f_equal. exact IH.
  - rewrite !decide_False by done. exact IH.
Qed.

Lemma mask_count (R P : matrix) :
  same_shape R P → (tsum (mask_of R) == Qnat (length (observed R P)))%Q.
Proof.
  intros Hs. rewrite tsum_concat, concat_mask_of, qsum_indicator.
  unfold observed. rewrite length_filter_fst, cells_fst by done. reflexivity.
Qed.

Lemma masked_err_sum (R P : matrix) :
  (tsum (mmul (mask_of R) (sq_err R P)) == qsum (sq_errs (observed R P)))%Q.
Proof.
  rewrite tsum_concat, concat_masked_err.
  rewrite (qsum_masked (λ c, positive c.1) (λ c, (c.1 - c.2) * (c.1 - c.2))%Q).
  reflexivity.
Qed.

Lemma length_cells (R P : matrix) (r c : nat) :
  has_shape R r c → has_shape P r c → length (cells R P) = r * c.
Proof.
  unfold cells. intros [HR1 HR2] [HP1 HP2]. subst r.
  revert P HP1 HP2. induction HR2 as [|row R Hrow _ IH]; intros [|prow P] HP1 HP2;
    simpl in *; try done.
  inversion HP2; subst. rewrite length_app, length_zip_with, IH by (auto; lia). lia.
Qed.

Lemma has_shape_same {A B} (M : list (list A)) (N : list (list B)) (r c : nat) :
  has_shape M r c → has_shape N r c → same_shape M N.
Proof.
  intros [HM1 HM2] [HN1 HN2]. subst r. unfold same_shape.
  revert N HN1 HN2. induction HM2 as [|row M Hrow _ IH]; intros [|nrow N] HN1 HN2;
    simpl in *; try done.
  inversion HN2; subst. apply List.Forall2_cons; [by symmetry | apply IH; [lia | done]].
Qed.

Lemma has_shape_n_cols {A} (M : list (list A)) (r c : nat) :
  has_shape M r c → 0 < r → n_cols M = c.
Proof.
  intros [H1 H2] Hr. destruct M as [|row M]; simpl in *; [lia|].
  inversion H2; subst. done.
Qed.

(** The quick trainer with observed cells: the loss is the mean of the
    squared errors of exactly the strictly positive cells. *)
Lemma cf_mse_loss_observed (R P : matrix) :
  same_shape R P → observed R P ≠ [] →
  ∃ q, cf_mse_loss R P = Fin q ∧ (q == mean (sq_errs (observed R P)))%Q
       ∧ (q == spec_mse_loss R P)%Q.
Proof.
  intros Hs Hobs.
  assert (Hlen : 0 < length (observed R P)).
  { destruct (observed R P); simpl; [done | lia]. }
  pose proof (mask_count R P Hs) as Hcount.
  pose proof (Qnat_pos _ Hlen) as Hpos.
  unfold cf_mse_loss. cbv zeta.
  destruct (Qltb 0 (tsum (mask_of R))) eqn:Hlt.
  2:{ apply Qltb_ge in Hlt. rewrite Hcount in Hlt. lra. }
  unfold fdiv. destruct (Qeq_bool (tsum (mask_of R)) 0) eqn:Hz.
  { apply Qeq_bool_eq in Hz. rewrite Hcount in Hz. lra. }
  eexists. split; [reflexivity|].
  assert (Hmean : (tsum (mmul (mask_of R) (sq_err R P)) / tsum (mask_of R)
                   == mean (sq_errs (observed R P)))%Q).
  { unfold mean, sq_errs at 2. rewrite length_map.
    rewrite masked_err_sum, Hcount. reflexivity. }
  split; [exact Hmean|].
  rewrite Hmean. unfold spec_mse_loss. destruct (observed R P); [done | reflexivity].
Qed.

(** The quick trainer without observed cells: the mean over all cells, for
    an array that has cells. *)
Lemma cf_mse_loss_fallback (R P : matrix) (r c : nat) :
  has_shape R r c → has_shape P r c → 0 < r * c → observed R P = [] →
  ∃ q, cf_mse_loss R P = Fin q ∧ (q == mean (sq_errs (cells R P)))%Q
       ∧ (q == spec_mse_loss R P)%Q.
Proof.
  intros HR HP Hrc Hobs.
  pose proof (has_shape_same _ _ _ _ HR HP) as Hs.
  pose proof (mask_count R P Hs) as Hcount. rewrite Hobs in Hcount. simpl in Hcount.
  assert (Hnc : n_rows R * n_cols R = r * c).
  { rewrite (has_shape_n_cols R r c) by (auto; lia). unfold n_rows.
    destruct HR as [-> _]. done. }
  unfold cf_mse_loss. cbv zeta.
  destruct (Qltb 0 (tsum (mask_of R))) eqn:Hlt.
  { apply Qltb_lt in Hlt. rewrite Hcount in Hlt. by vm_compute in Hlt. }
  rewrite Hnc. fold (Qnat (r * c)).
  pose proof (Qnat_pos _ Hrc) as Hpos.
  unfold fdiv. destruct (Qeq_bool (Qnat (r * c)) 0) eqn:Hz.
  { apply Qeq_bool_eq in Hz. lra. }
  eexists. split; [reflexivity|].
  assert (Hmean : (tsum (sq_err R P) / Qnat (r * c) == mean (sq_errs (cells R P)))%Q).
  { unfold mean. unfold sq_errs at 2. rewrite length_map, (length_cells R P r c) by done.
    rewrite tsum_concat, concat_sq_err. reflexivity. }
  split; [exact Hmean|].
  rewrite Hmean. unfold spec_mse_loss. rewrite Hobs. reflexivity.
Qed.

(** Without a strictly positive cell the mask and the masked sum are 0. *)
Lemma no_positive_filter (R : matrix) :
  Forall (Forall (λ r, positive r = false)) R →
  filter (λ r, positive r = true) (concat R) = [].
Proof.
  induction 1 as [|row R Hrow _ IH]; simpl; [done|].
  rewrite filter_app, IH, app_nil_r.
  induction Hrow as [|r row Hr _ IHrow]; [done|].
  rewrite filter_cons, decide_False by congruence. done.
Qed.

Lemma no_positive_mask (R : matrix) :
  Forall (Forall (λ r, positive r = false)) R → (tsum (mask_of R) == 0)%Q.
Proof.
  intros HR. rewrite tsum_concat, concat_mask_of, qsum_indicator.
  rewrite no_positive_filter by done. reflexivity.
Qed.

Lemma no_positive_observed (R P : matrix) :
  Forall (Forall (λ r, positive r = false)) R → observed R P = [].
Proof.
  unfold observed, cells. intros HR. revert P.
  induction HR as [|row R Hrow _ IH]; intros [|prow P]; simpl; try done.
  rewrite filter_app, IH, app_nil_r.
  clear -Hrow. revert prow.
  induction Hrow as [|r row Hr _ IHrow]; intros [|p prow]; simpl; try done.
  rewrite filter_cons. simpl. rewrite decide_False by congruence. apply IHrow.
Qed.

(** C1. The full trainer divides the masked sum by the mask sum without
    testing it: on an interaction matrix without a strictly positive cell
    its data loss is [0/0], that is [nan], where the quick trainer and the
    specification fall back to the mean over all cells. *)
Theorem hybrid_mse_loss_no_fallback (R P : matrix) :
  Forall (Forall (λ r, positive r = false)) R → hybrid_mse_loss R P = NaN.
Proof.
  intros HR. unfold hybrid_mse_loss. cbv zeta. unfold fdiv.
  rewrite (Qeq_eq_bool _ _ (no_positive_mask R HR)).
  assert (Hnum : (tsum (mmul (mask_of R) (sq_err R P)) == 0)%Q).
  { rewrite masked_err_sum, no_positive_observed by done. reflexivity. }
  rewrite (Qeq_eq_bool _ _ Hnum). done.
Qed.

Lemma hybrid_mse_loss_no_fallback_witness :
  Forall (Forall (λ r, positive r = false)) [[0; 0]; [0; 0]]%Q
  ∧ hybrid_mse_loss [[0; 0]; [0; 0]]%Q [[1; 2]; [3; 4]]%Q = NaN.
Proof.
  assert (H : Forall (Forall (λ r, positive r = false)) [[0; 0]; [0; 0]]%Q)
    by (repeat constructor).
  split; [exact H | exact (hybrid_mse_loss_no_fallback _ _ H)].
Defined.

(** ** The order of [flt] *)

Lemma flt_irrefl (a : fnum) : flt a a = false.
Proof.
  destruct a; simpl; try done. apply Qltb_ge, Qle_refl.
Qed.

Lemma flt_trans (a b c : fnum) : flt a b = true → flt b c = true → flt a c = true.
Proof.
  destruct a, b, c; simpl; try done.
  rewrite !Qltb_lt. apply Qlt_trans.
Qed.

(** ** The training loop *)

Section LoopFacts.
Context {P : Type}.
Variable loss_of : P → fnum.
Variable update : P → P.
Variable patience : nat.
Variable init : P.

Abbreviation loss := (loss_at loss_of update init).
Abbreviation best := (best_before loss_of update init).
Abbreviation improving := (improves loss_of update init).
Abbreviation stale_before := (stale loss_of update init).
Abbreviation state := (state_at loss_of update init).

(** One pass through the loop body moves the trace one epoch on. *)
Lemma run_epochs_step (todo e : nat) :
  run_epochs loss_of update patience (S todo) (state e) e =
  if negb (improving e) && (patience <=? S (stale_before e))
  then (state (S e), S e)
  else run_epochs loss_of update patience todo (state (S e)) (S e).
Proof.
  simpl. unfold early_stopping, state_at. simpl. unfold improves, loss_at.
  destruct (flt (loss_of (params_at update init e)) (best e)); [done|].
  destruct (patience <=? S (stale_before e)); done.
Qed.

(** The loop follows the trace and leaves it at the first epoch at which
    the counter reaches the patience. *)
Lemma run_epochs_trace (todo e : nat) :
  let '(st, n) := run_epochs loss_of update patience todo (state e) e in
  st = state n ∧ e ≤ n ≤ e + todo ∧ (0 < todo → e < n) ∧
  (∀ i, e ≤ i → S i < n → stops loss_of update patience init i = false) ∧
  (n < e + todo → stops loss_of update patience init (n - 1) = true).
Proof.
  revert e. induction todo as [|todo IH]; intros e.
  - simpl. split; [done|]. repeat split; intros; lia.
  - rewrite run_epochs_step. fold (stops loss_of update patience init e).
    destruct (stops loss_of update patience init e) eqn:Hstop.
    + split; [done|]. split; [lia|]. split; [lia|]. split; [intros; lia|].
      intros _. replace (S e - 1) with e by lia. done.
    + specialize (IH (S e)).
      destruct (run_epochs loss_of update patience todo (state (S e)) (S e)) as [st n].
      destruct IH as (Hst & Hn & Hpos & Hbefore & Hlast).
      split; [done|]. split; [lia|]. split; [lia|]. split.
      * intros i Hi Hin. destruct (decide (i = e)) as [->|]; [done|].
        apply Hbefore; lia.
      * intros Hlt. apply Hlast. lia.
Qed.

(** The counter counts the epochs since the last improvement. *)
Lemma stale_ge (e m : nat) :
  m ≤ stale_before e ↔ m ≤ e ∧ ∀ i, e - m ≤ i → i < e → improving i = false.
Proof.
  revert m. induction e as [|e IH]; intros m; simpl.
  - split; [intros; split; [lia | intros; lia] | intros [? _]; lia].
  - destruct (improving e) eqn:Himp.
    + split.
      * intros Hm. assert (m = 0) as -> by lia. split; [lia | intros; lia].
      * intros [Hm Hall]. destruct m as [|m]; [lia|].
        rewrite (Hall e) in Himp by lia. done.
    + destruct m as [|m]; [split; [intros; split; [lia | intros; lia] | lia]|].
      rewrite <- Nat.succ_le_mono, IH. split.
      * intros [Hm Hall]. split; [lia|]. intros i Hi Hie.
        destruct (decide (i = e)) as [->|]; [done|]. apply Hall; lia.
      * intros [Hm Hall]. split; [lia|]. intros i Hi Hie. apply Hall; lia.
Qed.

Lemma stops_iff (e : nat) :
  0 < patience →
  stops loss_of update patience init e = true ↔
  stale_run loss_of update patience init e.
Proof.
  intros Hpat. unfold stops, stale_run.
  rewrite andb_true_iff, negb_true_iff, Nat.leb_le.
  split.
  - intros [Himp Hp].
    assert (Hp' : patience - 1 ≤ stale_before e) by lia.
    apply stale_ge in Hp' as [Hp' Hall].
    split; [lia|]. intros i [Hi Hie].
    destruct (decide (i = e)) as [->|]; [done|]. apply Hall; lia.
  - intros [Hp Hall].
    split; [apply Hall; lia|].
    assert (Hp' : patience - 1 ≤ stale_before e); [|lia].
    apply stale_ge. split; [lia|].
    intros i Hi Hie. apply Hall. lia.
Qed.

(** The running best is below no loss seen, and is one of them unless
    none compared below [+inf]. *)
Lemma best_before_lowest (n i : nat) : i < n → flt (loss i) (best n) = false.
Proof.
  induction n as [|n IH]; [lia|]. intros Hi. simpl.
  destruct (flt (loss n) (best n)) eqn:Himp.
  - destruct (decide (i = n)) as [->|]; [apply flt_irrefl|].
    destruct (flt (loss i) (loss n)) eqn:Hlt; [|done].
    rewrite <- (IH ltac:(lia)). symmetry. eapply flt_trans; eauto.
  - destruct (decide (i = n)) as [->|]; [done|]. apply IH. lia.
Qed.

Lemma best_before_seen (n : nat) :
  best n = PInf ∨ ∃ i, i < n ∧ best n = loss i.
Proof.
  induction n as [|n IH]; [by left|]. simpl.
  destruct (flt (loss n) (best n)).
  - right. exists n. split; [lia | done].
  - destruct IH as [IH | (i & Hi & IH)]; [by left|].
    right. exists i. split; [lia | done].
Qed.

Lemma best_before_first (n : nat) :
  0 < n → flt (loss 0) PInf = true → ∃ i, i < n ∧ best n = loss i.
Proof.
  intros Hn H0. destruct (best_before_seen n) as [Hinf | Hseen]; [|done].
  pose proof (best_before_lowest n 0 Hn) as Hlow. rewrite Hinf in Hlow. congruence.
Qed.

(** What the claim on early stopping says of one run of the loop. *)
Lemma train_early_stopping (budget : nat) :
  0 < patience →
  early_stopping_ok loss_of update patience budget init
                    (train loss_of update patience budget init).
Proof.
  intros Hpat. unfold train.
  pose proof (run_epochs_trace budget 0) as Htrace.
  change (LoopState init PInf 0) with (state 0).
  destruct (run_epochs loss_of update patience budget (state 0) 0) as [st n].
  destruct Htrace as (-> & Hn & Hpos & Hbefore & Hlast).
  split; simpl.
  - lia.
  - done.
  - intros i Hi. by apply best_before_lowest.
  - apply best_before_seen.
  - intros l b c Hlt. unfold early_stopping. by rewrite Hlt.
  - assert (Hcount : ∀ e, stops loss_of update patience init e = true →
                          patience ≤ stale_before (S e)).
    { intros e. unfold stops. rewrite andb_true_iff, negb_true_iff, Nat.leb_le.
      intros [Himp Hp]. simpl. by rewrite Himp. }
    split.
    + intros Hp. assert (0 < n) as Hn0.
      { destruct n; [simpl in Hp; lia | lia]. }
      exists (n - 1). split; [lia|].
      apply stale_ge in Hp as [Hp Hall]. split; [lia|].
      intros i Hi. apply Hall; lia.
    + intros (e & He & Hrun). apply stops_iff in Hrun; [|done].
      destruct (decide (S e < n)) as [Hlt|Hge].
      { rewrite Hbefore in Hrun by lia. done. }
      destruct (decide (n = S e)) as [->|Hne]; [by apply Hcount|].
      assert (0 < n) as Hn0 by (apply Hpos; lia).
      replace n with (S (n - 1)) by lia. apply Hcount, Hlast. lia.
  - intros e He Hrun. apply stops_iff in Hrun; [|done].
    rewrite Hbefore in Hrun by lia. done.
  - split.
    + intros Hlt. exists (n - 1).
      specialize (Hlast ltac:(lia)).
      assert (0 < n) by (apply Hpos; lia).
      apply stops_iff in Hlast; [|done].
      split; [lia | done].
    + intros (e & He & Hrun).
      destruct (decide (n < budget)) as [|Hge]; [done|]. exfalso.
      assert (Hs : stops loss_of update patience init e = true).
      { by apply stops_iff. }
      rewrite Hbefore in Hs by lia. done.
Qed.
End LoopFacts.

(** ** The two trainers *)

Lemma fdiv_finite (a b : Q) : ¬ (b == 0)%Q → fdiv a b = Fin (a / b).
Proof.
  intros Hb. unfold fdiv. destruct (Qeq_bool b 0) eqn:Hz; [|done].
  apply Qeq_bool_eq in Hz. done.
Qed.

Section TrainerFacts.
Context {gen optimizer : Type}.
Variable randn : nat → nat → gen → matrix * gen.
Variable norm : matrix → Q.
Variable adam_step : matrix → factors * optimizer → factors * optimizer.

Lemma cf_init_shapes (R : matrix) (g : gen) :
  randn_shaped randn →
  has_shape (user_factors (cf_init randn R g)) (n_rows R) 32
  ∧ has_shape (item_factors (cf_init randn R g)) 32 (n_cols R).
Proof.
  intros Hrandn. unfold cf_init, cf_n_factors.
  pose proof (Hrandn (n_rows R) 32 g) as Hu.
  destruct (randn (n_rows R) 32 g) as [uf g1]. simpl in Hu.
  pose proof (Hrandn 32 (n_cols R) g1) as Hp.
  destruct (randn 32 (n_cols R) g1) as [pf g2]. simpl in Hp.
  done.
Qed.

Lemma params_at_shapes (R : matrix) (s : factors * optimizer) (e r1 c1 r2 c2 : nat) :
  step_keeps_shapes adam_step →
  has_shape (user_factors s.1) r1 c1 →
  has_shape (item_factors s.1) r2 c2 →
  has_shape (user_factors (params_at (adam_step R) s e).1) r1 c1
  ∧ has_shape (item_factors (params_at (adam_step R) s e).1) r2 c2.
Proof.
  intros Hstep Hu Hi. induction e as [|e [IHu IHi]]; [done|].
  simpl. by apply Hstep.
Qed.

(** C4. Both trainers keep the lowest loss seen so far as their best
    loss; an epoch whose loss is strictly below it sets the patience
    counter to zero; the loop breaks exactly when the loss has failed to
    improve on the best for [patience] consecutive epochs (5 for the quick
    trainer, 3 for the full one) within the budget (50 and 25 epochs), and
    it then leaves out the epochs that remain. *)
Theorem early_stopping_of_both_trainers
    (full_step : matrix → factors * optimizer → factors * optimizer)
    (inv_sqrt_factors : Q) (R : matrix) (g : gen) (adam : optimizer) :
  early_stopping_ok (cf_loss norm R) (adam_step R) 5 50
    (cf_init randn R g, adam) (cf_run randn norm adam_step R g adam)
  ∧ early_stopping_ok (hybrid_loss R) (full_step R) 3 25
    (hybrid_init randn inv_sqrt_factors R g, adam)
    (hybrid_run randn full_step inv_sqrt_factors R g adam).
Proof.
  split.
  - apply (train_early_stopping (cf_loss norm R) (adam_step R) 5). lia.
  - apply (train_early_stopping (hybrid_loss R) (full_step R) 3). lia.
Qed.

(** C7. The quick trainer returns the factors as they are after the
    optimiser step of the last executed epoch: user factors with one row of
    32 numbers per user and item factors with 32 rows of one number per
    item.  Its [final_loss] is the running minimum of the executed epochs
    and not the loss of the last one: no executed epoch has a loss strictly
    below it, and it is the loss of an executed epoch as soon as one of them
    has a loss below [+inf] (with only [nan] or infinite losses it is still
    the initial [+inf]).  This holds whatever the losses of the epochs are,
    those of exact arithmetic and those of float32 alike. *)
Theorem train_collaborative_filtering_output (loss_fn : factors * optimizer → fnum)
    (R : matrix) (g : gen) (adam : optimizer) :
  randn_shaped randn → step_keeps_shapes adam_step →
  let model := train_collaborative_filtering_with randn adam_step loss_fn R g adam in
  let executed := (cf_run_with randn adam_step loss_fn R g adam).2 in
  let init := (cf_init randn R g, adam) in
  let loss := loss_at loss_fn (adam_step R) init in
  train_collaborative_filtering randn norm adam_step R g adam
  = train_collaborative_filtering_with randn adam_step (cf_loss norm R) R g adam
  ∧ out_user_factors model = user_factors (params_at (adam_step R) init executed).1
  ∧ out_post_factors model = item_factors (params_at (adam_step R) init executed).1
  ∧ has_shape (out_user_factors model) (n_rows R) 32
  ∧ has_shape (out_post_factors model) 32 (n_cols R)
  ∧ 0 < executed ≤ 50
  ∧ final_loss model = best_before loss_fn (adam_step R) init executed
  ∧ (∀ i, i < executed → flt (loss i) (final_loss model) = false)
  ∧ (final_loss model = PInf ∨ ∃ i, i < executed ∧ final_loss model = loss i)
  ∧ ((∃ i, i < executed ∧ flt (loss i) PInf = true) →
     ∃ j, j < executed ∧ final_loss model = loss j).
Proof.
  intros Hrandn Hstep model executed init loss.
  split; [reflexivity|].
  subst model executed loss init.
  unfold train_collaborative_filtering_with, cf_run_with, train.
  pose proof (run_epochs_trace loss_fn (adam_step R) cf_patience
                (cf_init randn R g, adam) cf_epochs 0) as Htrace.
  change (LoopState (cf_init randn R g, adam) PInf 0)
    with (state_at loss_fn (adam_step R) (cf_init randn R g, adam) 0).
  destruct (run_epochs _ _ _ _ _ _) as [st n]. simpl.
  destruct Htrace as (-> & Hn & Hpos & _ & _). simpl.
  destruct (cf_init_shapes R g Hrandn) as [Hu Hi].
  destruct (params_at_shapes R (cf_init randn R g, adam) n _ _ _ _ Hstep Hu Hi)
    as [Hu' Hi'].
  assert (0 < n) by (apply Hpos; unfold cf_epochs; lia).
  split_and!; try done.
  - unfold cf_epochs in Hn. lia.
  - intros i Hi0. by apply best_before_lowest.
  - apply best_before_seen.
  - intros (i & Hi0 & Hfin).
    destruct (best_before_seen loss_fn (adam_step R)
                (cf_init randn R g, adam) n) as [Hinf | Hseen]; [|done].
    pose proof (best_before_lowest loss_fn (adam_step R)
                  (cf_init randn R g, adam) n i Hi0) as Hlow.
    rewrite Hinf in Hlow. congruence.
Qed.
End TrainerFacts.

(** ** Ranking *)

Lemma where_NoDup {A} (p : A → bool) (row : list A) : NoDup (where_ p row).
Proof. unfold where_. apply NoDup_filter, NoDup_seq. Qed.

Lemma elem_of_where {A} (p : A → bool) (row : list A) (j : nat) :
  j ∈ where_ p row ↔ p <$> row !! j = Some true.
Proof.
  unfold where_. rewrite list_elem_of_filter, elem_of_seq. split; [by intros [? _]|].
  intros Hj. split; [done|].
  destruct (row !! j) eqn:Hrow; [|done].
  apply lookup_lt_Some in Hrow. lia.
Qed.

Lemma where_lt {A} (p : A → bool) (row : list A) (j : nat) :
  j ∈ where_ p row → j < length row.
Proof.
  unfold where_. rewrite list_elem_of_filter, elem_of_seq. lia.
Qed.

Lemma sort_le_total (a b : fnum) : sort_le a b = true ∨ sort_le b a = true.
Proof.
  destruct a, b; simpl; auto.
  rewrite !Qle_bool_iff. destruct (Qlt_le_dec q q0) as [Hlt|Hle]; [left | right]; lra.
Qed.

Lemma sort_le_trans (a b c : fnum) :
  sort_le a b = true → sort_le b c = true → sort_le a c = true.
Proof.
  destruct a, b, c; simpl; try done.
  rewrite !Qle_bool_iff. apply Qle_trans.
Qed.

#[global] Instance key_le_total v : Total (key_le v).
Proof. intros i j. apply sort_le_total. Qed.

#[global] Instance key_le_trans v : Transitive (key_le v).
Proof. intros i j k. apply sort_le_trans. Qed.

Lemma argsort_Permutation (v : list fnum) : argsort v ≡ₚ seq 0 (length v).
Proof. apply merge_sort_Permutation. Qed.

Lemma argsort_NoDup (v : list fnum) : NoDup (argsort v).
Proof. rewrite argsort_Permutation. apply NoDup_seq. Qed.

Lemma length_argsort (v : list fnum) : length (argsort v) = length v.
Proof. rewrite argsort_Permutation. apply length_seq. Qed.

Lemma elem_of_argsort (v : list fnum) (j : nat) : j ∈ argsort v ↔ j < length v.
Proof. rewrite argsort_Permutation, elem_of_seq. lia. Qed.

Lemma argsort_sorted (v : list fnum) : StronglySorted (key_le v) (argsort v).
Proof. apply StronglySorted_merge_sort; apply _. Qed.

(** The first [n] indices of the ranking hold the [n] lowest values. *)
Lemma argsort_take_lowest (v : list fnum) (n i j : nat) :
  i ∈ take n (argsort v) → j < length v → j ∉ take n (argsort v) →
  sort_le (nth i v NaN) (nth j v NaN) = true.
Proof.
  intros Hi Hj Hnj.
  pose proof (argsort_sorted v) as Hs.
  rewrite <- (take_drop n (argsort v)) in Hs.
  apply (StronglySorted_app_1_elem_of _ _ _ i j Hs Hi).
  apply elem_of_argsort in Hj.
  rewrite <- (take_drop n (argsort v)), elem_of_app in Hj.
  destruct Hj; done.
Qed.

Lemma top_k_nonneg (k : Z) (scores : list fnum) :
  (0 ≤ k)%Z → top_k k scores = take (Z.to_nat k) (argsort (map fneg scores)).
Proof.
  intros Hk. unfold top_k, slice_to.
  destruct (0 <=? k)%Z eqn:Hle; [done|]. apply Z.leb_gt in Hle. lia.
Qed.


Lemma elem_of_prefix {A} (n : nat) (l : list A) (x : A) : x ∈ take n l → x ∈ l.
Proof.
  intros Hx. rewrite <- (take_drop n l). apply elem_of_app. by left.
Qed.


Lemma length_top_k (k : Z) (scores : list fnum) :
  (0 ≤ k)%Z → length (top_k k scores) = Z.to_nat k `min` length scores.
Proof.
  intros Hk. rewrite top_k_nonneg by done.
  rewrite length_take, length_argsort, length_map. done.
Qed.

(** ** Counting common elements *)

Lemma size_list_to_set_le (l : list nat) : size (list_to_set l : gset nat) ≤ length l.
Proof.
  induction l as [|x l IH].
  - done.
  - change (list_to_set (x :: l) : gset nat) with ({[x]} ∪ list_to_set l : gset nat).
    simpl length. rewrite size_union_alt, size_singleton.
    pose proof (subseteq_size (list_to_set l ∖ {[x]}) (list_to_set l : gset nat)
                  (subseteq_difference_l _ _ _ (reflexivity _))).
    lia.
Qed.

Lemma n_common_le_l (a b : list nat) : n_common a b ≤ length a.
Proof.
  unfold n_common. etrans; [|apply size_list_to_set_le].
  apply subseteq_size, intersection_subseteq_l.
Qed.

Lemma n_common_le_r (a b : list nat) : n_common a b ≤ length b.
Proof.
  unfold n_common. etrans; [|apply size_list_to_set_le].
  apply subseteq_size, intersection_subseteq_r.
Qed.

(** ** Precision, recall and F1 *)

Lemma py_div_ok (a b : Q) : ¬ (b == 0)%Q → py_div a b = Ok (a / b)%Q.
Proof.
  intros Hb. unfold py_div. destruct (Qeq_bool b 0) eqn:Hz; [|done].
  apply Qeq_bool_eq in Hz. done.
Qed.

Lemma Qdiv_unit_interval (a b : Q) : (0 <= a)%Q → (a <= b)%Q → (0 < b)%Q →
  (0 <= a / b <= 1)%Q.
Proof.
  intros Ha Hab Hb. split.
  - apply Qle_shift_div_l; lra.
  - apply Qle_shift_div_r; lra.
Qed.

(** When the recommended items are a prefix of at most [k] indices, the
    denominator of the precision is their number. *)
Lemma precision_of_ok (k : Z) (hits : nat) (top : list nat) :
  length top ≤ Z.to_nat k → 0 < length top →
  precision_of k hits top = Ok (Qnat hits / Qnat (length top))%Q.
Proof.
  intros Hlen Hpos. unfold precision_of.
  destruct (0 <? length top) eqn:Hlt; [|apply Nat.ltb_ge in Hlt; lia].
  replace (Z.min k (Z.of_nat (length top))) with (Z.of_nat (length top)) by lia.
  fold (Qnat (length top)). apply py_div_ok.
  pose proof (Qnat_pos _ Hpos). lra.
Qed.

Lemma recall_of_ok (hits : nat) (test_items : list nat) :
  0 < length test_items →
  recall_of hits test_items = Ok (Qnat hits / Qnat (length test_items))%Q.
Proof.
  intros Hpos. unfold recall_of.
  destruct (0 <? length test_items) eqn:Hlt; [|apply Nat.ltb_ge in Hlt; lia].
  apply py_div_ok. pose proof (Qnat_pos _ Hpos). lra.
Qed.

Lemma f1_score_total (p r : Q) : ∃ v, f1_score p r = Ok v.
Proof.
  unfold f1_score. destruct (Qltb 0 (p + r)) eqn:Hlt; [|by eexists].
  apply Qltb_lt in Hlt. eexists. apply py_div_ok. lra.
Qed.

(** ** The per-user loop body *)

(** Case analysis of the next statement that may raise in hypothesis [H]. *)
Ltac step_in H :=
  match type of H with
  | context [mbind _ ?r] =>
      let E := fresh "E" in
      destruct r eqn:E; simpl in H; [|discriminate H]
  end.

Tactic Notation "bind_in" hyp(H) "as" ident(x) ident(E) :=
  match type of H with
  | context [mbind _ ?r] =>
      destruct r as [x|] eqn:E; simpl in H; [|discriminate H]
  end.

Lemma index_Ok {A} (l : list A) (i : nat) (x : A) : index l i = Ok x ↔ l !! i = Some x.
Proof. unfold index. destruct (l !! i); split; congruence. Qed.

Lemma assign_all_Ok {A} (l : list A) (idx : list nat) (x : A) (l' : list A) :
  assign_all l idx x = Ok l' →
  length l' = length l
  ∧ (∀ j, j ∈ idx → l' !! j = Some x)
  ∧ (∀ j, j ∉ idx → l' !! j = l !! j).
Proof.
  unfold assign_all. destruct (forallb _ idx) eqn:Hall; [|done].
  intros [= <-]. rewrite forallb_forall in Hall.
  assert (Hlt : ∀ j, j ∈ idx → j < length l).
  { intros j Hj. apply Nat.ltb_lt, Hall. by apply list_elem_of_In. }
  clear Hall. induction idx as [|i idx IH]; simpl.
  - split; [done|]. split; [|done]. intros j Hj. by apply elem_of_nil in Hj.
  - destruct IH as (IHlen & IHin & IHout).
    { intros j Hj. apply Hlt. by right. }
    split; [by rewrite length_insert|]. split.
    + intros j Hj. destruct (decide (i = j)) as [->|Hne].
      * apply list_lookup_insert_eq. rewrite IHlen. apply Hlt. by left.
      * rewrite list_lookup_insert_ne by done. apply IHin.
        apply elem_of_cons in Hj as [->|]; done.
    + intros j Hj. rewrite not_elem_of_cons in Hj. destruct Hj as [Hne Hj].
      rewrite list_lookup_insert_ne by done. by apply IHout.
Qed.

(** What a user with held-out cells goes through. *)
Lemma user_metrics_Some (k : Z) (predicted train : matrix) (mask : list (list bool))
    (u : nat) (p r : Q) :
  user_metrics k predicted train mask u = Ok (Some (p, r)) →
  ∃ mask_row train_row pred_row scores,
    mask !! u = Some mask_row ∧ train !! u = Some train_row
    ∧ predicted !! u = Some pred_row
    ∧ where_ id mask_row ≠ []
    ∧ assign_all (Fin <$> pred_row) (where_ positive train_row) NInf = Ok scores
    ∧ precision_of k (n_common (top_k k scores) (where_ id mask_row)) (top_k k scores) = Ok p
    ∧ recall_of (n_common (top_k k scores) (where_ id mask_row)) (where_ id mask_row) = Ok r.
Proof.
  unfold user_metrics. intros H.
  step_in H. rename a into mask_row.
  destruct (length (where_ id mask_row) =? 0) eqn:Hlen; [done|].
  step_in H. rename a into train_row.
  step_in H. rename a into pred_row.
  step_in H. destruct a as [p' r']. injection H as -> ->.
  unfold rank_user in E2.
  step_in E2. rename a into scores.
  step_in E2. step_in E2. injection E2 as -> ->.
  exists mask_row, train_row, pred_row, scores.
  apply index_Ok in E. apply index_Ok in E0. apply index_Ok in E1.
  apply Nat.eqb_neq in Hlen.
  repeat split; try done.
  intros Hnil. by rewrite Hnil in Hlen.
Qed.

(** C9. For every evaluated user and every cutoff [k ≥ 1], the precision
    and the recall computed for the user lie in [0, 1]. *)
Theorem precision_recall_in_unit_interval (k : Z) (predicted train : matrix)
    (mask : list (list bool)) (u : nat) (p r : Q) :
  (1 ≤ k)%Z →
  user_metrics k predicted train mask u = Ok (Some (p, r)) →
  (0 <= p <= 1)%Q ∧ (0 <= r <= 1)%Q.
Proof.
  intros Hk Hu.
  apply user_metrics_Some in Hu
    as (mask_row & train_row & pred_row & scores & _ & _ & _ & Htest & _ & Hp & Hr).
  set (top := top_k k scores) in *. set (test_items := where_ id mask_row) in *.
  assert (Hlen : length top ≤ Z.to_nat k).
  { unfold top. rewrite length_top_k by lia. lia. }
  split.
  - destruct (decide (length top = 0)) as [Hz|Hnz].
    + unfold precision_of in Hp. rewrite Hz in Hp. simpl in Hp.
      injection Hp as <-. lra.
    + rewrite precision_of_ok in Hp by (done || lia). injection Hp as <-.
      apply Qdiv_unit_interval.
      * apply Qnat_nonneg.
      * apply Qnat_le, n_common_le_l.
      * apply Qnat_pos. lia.
  - assert (0 < length test_items).
    { destruct test_items; simpl; [done | lia]. }
    rewrite recall_of_ok in Hr by done. injection Hr as <-.
    apply Qdiv_unit_interval.
    + apply Qnat_nonneg.
    + apply Qnat_le, n_common_le_r.
    + by apply Qnat_pos.
Qed.

Lemma precision_recall_in_unit_interval_witness :
  (1 ≤ 2)%Z
  ∧ user_metrics 2 [[3; 1; 2; 5; 4; 9; 0]%Q] [[0; 1; 1; 1; 1; 1; 0]%Q]
      [[true; false; false; false; false; false; false]] 0
    = Ok (Some ((1 # 2)%Q, (1 # 1)%Q))
  ∧ (0 <= 1 # 2 <= 1)%Q ∧ (0 <= 1 # 1 <= 1)%Q.
Proof.
  assert (Hk : (1 ≤ 2)%Z) by lia.
  assert (Hu : user_metrics 2 [[3; 1; 2; 5; 4; 9; 0]%Q] [[0; 1; 1; 1; 1; 1; 0]%Q]
                 [[true; false; false; false; false; false; false]] 0
               = Ok (Some ((1 # 2)%Q, (1 # 1)%Q))) by (vm_compute; reflexivity).
  split; [exact Hk|]. split; [exact Hu|].
  exact (precision_recall_in_unit_interval 2 _ _ _ 0 _ _ Hk Hu).
Defined.


Lemma nth_map_fneg (scores : list fnum) (i : nat) (a : fnum) :
  scores !! i = Some a → nth i (map fneg scores) NaN = fneg a.
Proof.
  intros Hi. change NaN with (fneg NaN). rewrite map_nth.
  f_equal. by apply nth_lookup_Some.
Qed.

(** While there are at least [k] other items, no item whose score was
    forced to negative infinity is among the first [k] of the ranking. *)
Lemma top_k_avoids_excluded (k : Z) (scores : list fnum) (excluded : list nat) :
  (0 ≤ k)%Z → NoDup excluded →
  (∀ j, j ∈ excluded → scores !! j = Some NInf) →
  (∀ j, j < length scores → j ∉ excluded → ∃ q, scores !! j = Some (Fin q)) →
  Z.to_nat k + length excluded ≤ length scores →
  ∀ j, j ∈ top_k k scores → j ∉ excluded.
Proof.
  intros Hk Hnd Hexcl Hother Hroom t Ht Htex.
  rewrite top_k_nonneg in Ht by done.
  set (top := take (Z.to_nat k) (argsort (map fneg scores))) in *.
  destruct (decide (Forall (λ j, j ∈ excluded ∨ j ∈ top) (seq 0 (length scores))))
    as [Hall | Hsome].
  - (* every index is excluded or recommended: too many for the room *)
    apply elem_of_Permutation in Htex as [rest Hrest].
    assert (Hnd' : NoDup (t :: rest)) by (by rewrite <- Hrest).
    apply NoDup_cons in Hnd' as [Htrest Hndrest].
    assert (Hsub : seq 0 (length scores) ⊆+ top ++ rest).
    { apply NoDup_submseteq; [apply NoDup_seq|].
      intros j Hj. rewrite Forall_forall in Hall.
      apply elem_of_app. destruct (Hall j Hj) as [Hjex | Hjtop]; [|by left].
      rewrite Hrest in Hjex. apply elem_of_cons in Hjex as [-> | Hjrest];
        [by left | by right]. }
    apply submseteq_length in Hsub.
    rewrite length_seq, length_app in Hsub.
    pose proof (Permutation_length Hrest) as Hlen. simpl in Hlen.
    assert (length top ≤ Z.to_nat k) by (unfold top; rewrite length_take; lia).
    lia.
  - (* some other item is left out, below an excluded one *)
    apply not_Forall_Exists in Hsome; [|apply _].
    apply Exists_exists in Hsome as (j & Hj & Hnot). simpl in Hnot.
    apply elem_of_seq in Hj.
    assert (Hjex : j ∉ excluded) by (intros ?; apply Hnot; by left).
    assert (Hjtop : j ∉ top) by (intros ?; apply Hnot; by right).
    destruct (Hother j ltac:(lia) Hjex) as [q Hq].
    pose proof (argsort_take_lowest (map fneg scores) (Z.to_nat k) t j Ht
                  ltac:(rewrite length_map; lia) Hjtop) as Hle.
    rewrite (nth_map_fneg scores t NInf), (nth_map_fneg scores j (Fin q)) in Hle
      by auto.
    done.
Qed.



(** ** The holdout *)

Lemma py_int_floor (x : Q) : (0 <= x)%Q → py_int x = Qfloor x.
Proof.
  destruct x as [a d]. unfold Qle, py_int, Qfloor. simpl. intros Ha.
  apply Z.quot_div_nonneg; lia.
Qed.

Lemma py_int_le (x : Q) (n : Z) : (0 ≤ n)%Z → (x <= inject_Z n)%Q → (py_int x ≤ n)%Z.
Proof.
  destruct x as [a d]. unfold Qle, py_int. simpl. intros Hn Ha.
  apply Z.quot_le_upper_bound; lia.
Qed.

(** ** Rounding to a double *)

Lemma py_round_bounds (y : Q) (M : Z) :
  (0 <= y)%Q → (y <= inject_Z M)%Q → (0 ≤ py_round y ≤ M)%Z.
Proof.
  intros Hy HM. unfold py_round.
  pose proof (Qfloor_le y) as Hlo. pose proof (Qlt_floor y) as Hhi.
  assert (Hf0 : (0 ≤ Qfloor y)%Z).
  { change 0%Z with (Qfloor 0). by apply Qfloor_resp_le. }
  assert (HfM : (Qfloor y ≤ M)%Z).
  { rewrite <- (Qfloor_Z M). by apply Qfloor_resp_le. }
  assert (Hup : (inject_Z (Qfloor y) < y)%Q → (Qfloor y + 1 ≤ M)%Z).
  { intros Hlt. assert (Hfm : (inject_Z (Qfloor y) < inject_Z M)%Q) by lra.
    rewrite <- Zlt_Qlt in Hfm. lia. }
  destruct (Qltb (y - inject_Z (Qfloor y)) (1 # 2)) eqn:H1; [lia|].
  apply Qltb_ge in H1.
  assert (Hlt : (inject_Z (Qfloor y) < y)%Q) by lra.
  specialize (Hup Hlt).
  destruct (Qltb (1 # 2) _); [lia|]. destruct (Z.even _); lia.
Qed.

Lemma floor_log2_le (x : Q) : (0 < x)%Q → (2 ^ floor_log2 x <= x)%Q.
Proof.
  intros Hx. unfold floor_log2.
  destruct (Qle_bool _ x) eqn:Hl; [by apply Qle_bool_iff|]. clear Hl.
  destruct x as [a d]. simpl Qnum. simpl Qden.
  assert (Ha : (0 < a)%Z).
  { unfold Qlt in Hx. simpl in Hx. lia. }
  set (la := Z.log2 a). set (ld := Z.log2 (Z.pos d)).
  pose proof (Z.log2_nonneg a) as Hla. pose proof (Z.log2_nonneg (Z.pos d)) as Hld.
  fold la in Hla. fold ld in Hld.
  destruct (Z.log2_spec a Ha) as [Hlo _]. fold la in Hlo.
  destruct (Z.log2_spec (Z.pos d) ltac:(lia)) as [_ Hhi]. fold ld in Hhi.
  set (u := (2 ^ (la - ld - 1))%Q).
  assert (Hu : (0 < u)%Q) by (apply Qpower_0_lt; reflexivity).
  assert (HuB : (u * inject_Z (2 ^ Z.succ ld) == inject_Z (2 ^ la))%Q).
  { unfold u. rewrite !Zpower_Qpower by lia.
    rewrite <- Qpower_plus by discriminate.
    replace (la - ld - 1 + Z.succ ld)%Z with la by lia. reflexivity. }
  assert (HA : (inject_Z (2 ^ la) <= inject_Z a)%Q) by by rewrite <- Zle_Qle.
  assert (HB : (inject_Z (Z.pos d) < inject_Z (2 ^ Z.succ ld))%Q)
    by by rewrite <- Zlt_Qlt.
  assert (Hd : (0 < inject_Z (Z.pos d))%Q) by reflexivity.
  rewrite (Qmake_Qdiv a d). apply Qle_shift_div_l; [done|].
  nra.
Qed.

Lemma floor_log2_small (x : Q) (b : Z) :
  (0 < x)%Q → (x < 2 ^ b)%Q → (floor_log2 x < b)%Z.
Proof.
  intros Hx Hb. pose proof (floor_log2_le x Hx) as Hlo.
  apply (Qpower_lt_compat_l_inv 2); [lra | reflexivity].
Qed.

(** Rounding does not cross an integer below [2^53]: a number between 0
    and such an integer stays between them. *)
Lemma round_double_bounded (x : Q) (N : Z) :
  (0 <= x)%Q → (x <= inject_Z N)%Q → (N < 2 ^ 53)%Z →
  ∃ y, round_double x = Fin y ∧ (0 <= y)%Q ∧ (y <= inject_Z N)%Q.
Proof.
  intros Hx HN Hsmall. unfold round_double.
  destruct (Qeq_bool x 0) eqn:Hz.
  { exists 0%Q. split; [done|]. split; [apply Qle_refl | lra]. }
  apply Qeq_bool_neq in Hz.
  assert (Hpos : (0 < x)%Q) by (apply Qle_lteq in Hx as [?|E]; [done | by symmetry in E]).
  assert (Habs : Qabs x = x).
  { destruct x as [[|a|a] d]; [done | done | by unfold Qlt in Hpos]. }
  rewrite Habs. cbv zeta.
  assert (HN53 : (inject_Z N < 2 ^ 53)%Q).
  { rewrite <- (Zpower_Qpower 2 53) by lia. by rewrite <- Zlt_Qlt. }
  assert (Hfl : (floor_log2 x < 53)%Z) by (apply floor_log2_small; [done | lra]).
  set (e := Z.max (floor_log2 x - 52) (-1074)).
  assert (He : (e ≤ 0)%Z) by (unfold e; lia).
  set (P := (2 ^ (- e))%Z).
  assert (HP : (0 < P)%Z) by (apply Z.pow_pos_nonneg; lia).
  assert (HPe : (2 ^ e * inject_Z P == 1)%Q).
  { unfold P. rewrite Zpower_Qpower by lia.
    rewrite <- Qpower_plus by discriminate.
    replace (e + - e)%Z with 0%Z by lia. reflexivity. }
  assert (H2e : (0 < 2 ^ e)%Q) by (apply Qpower_0_lt; reflexivity).
  assert (HPq : (0 < inject_Z P)%Q).
  { change 0%Q with (inject_Z 0). by rewrite <- Zlt_Qlt. }
  assert (Hinv : (/ 2 ^ e == inject_Z P)%Q).
  { apply (Qmult_inj_l _ _ (2 ^ e)); [lra|].
    rewrite Qmult_inv_r by lra. by rewrite HPe. }
  assert (Hy0 : (0 <= x / 2 ^ e)%Q).
  { unfold Qdiv. rewrite Hinv. apply Qmult_le_0_compat; lra. }
  assert (HyM : (x / 2 ^ e <= inject_Z (N * P))%Q).
  { unfold Qdiv. rewrite Hinv, inject_Z_mult.
    apply Qmult_le_compat_r; lra. }
  destruct (py_round_bounds _ _ Hy0 HyM) as [Hm0 HmM].
  set (m := py_round (x / 2 ^ e)) in *.
  assert (Hm0q : (0 <= inject_Z m)%Q).
  { change 0%Q with (inject_Z 0). by rewrite <- Zle_Qle. }
  assert (HmMq : (inject_Z m <= inject_Z N * inject_Z P)%Q).
  { rewrite <- inject_Z_mult. by rewrite <- Zle_Qle. }
  assert (Hy : (0 <= inject_Z m * 2 ^ e)%Q ∧ (inject_Z m * 2 ^ e <= inject_Z N)%Q).
  { split; [apply Qmult_le_0_compat; lra|].
    apply Qle_trans with (inject_Z N * inject_Z P * 2 ^ e)%Q.
    - apply Qmult_le_compat_r; lra.
    - rewrite <- Qmult_assoc, (Qmult_comm (inject_Z P)), HPe. lra. }
  destruct Hy as [Hylo Hyhi].
  assert (Hbig : (2 ^ 53 <= 2 ^ 1024)%Q).
  { apply Qpower_le_compat_l; [lia | discriminate]. }
  replace (Qle_bool (2 ^ 1024) (inject_Z m * 2 ^ e)) with false.
  2:{ symmetry. apply not_true_iff_false. rewrite Qle_bool_iff. lra. }
  replace (Qltb 0 x) with true by (symmetry; by apply Qltb_lt).
  by eexists.
Qed.

(** A proportion of a population that a double counts exactly gives a
    sample no larger than the population. *)
Lemma n_test_of_bounds (test_size : Q) (n : nat) :
  (0 <= test_size)%Q → (test_size <= 1)%Q → (Z.of_nat n < 2 ^ 53)%Z →
  ∃ z, n_test_of test_size n = Ok z ∧ (1 ≤ z)%Z ∧ (z ≤ Z.max 1 (Z.of_nat n))%Z.
Proof.
  intros Hlo Hhi Hn. unfold n_test_of, float_of_nat.
  destruct (round_double_bounded (Qnat n) (Z.of_nat n))
    as (c & -> & Hc0 & Hcn); [apply Qnat_nonneg | apply Qle_refl | done |].
  destruct (round_double_bounded test_size 1) as (t & -> & Ht0 & Ht1);
    [done | done | done |].
  cbn [mbind result_bind double_mul].
  destruct (round_double_bounded (t * c) (Z.of_nat n)) as (y & -> & Hy0 & Hyn);
    [by apply Qmult_le_0_compat | | done |].
  { change (inject_Z 1) with 1%Q in Ht1. nra. }
  cbn [py_int_float mbind result_bind]. eexists. split; [done|].
  split; [lia|]. apply Z.max_le_compat_l. apply py_int_le; [lia | done].
Qed.

Lemma submseteq_NoDup {A} (l k : list A) : l ⊆+ k → NoDup k → NoDup l.
Proof.
  intros Hsub Hk. apply submseteq_Permutation in Hsub as [k' Hk'].
  rewrite Hk' in Hk. by apply NoDup_app in Hk as [? _].
Qed.

Lemma where_blank (n : nat) : where_ id (replicate n false) = [].
Proof.
  unfold where_. induction (seq 0 (length (replicate n false))) as [|j l IH]; [done|].
  rewrite filter_cons, decide_False; [done|].
  destruct (replicate n false !! j) eqn:Hj; [|done].
  apply lookup_replicate in Hj as [-> _]. done.
Qed.

(** Writing [True] at distinct in-range positions of a blank mask row marks
    exactly those positions. *)
Lemma assign_blank (n : nat) (idx : list nat) (mask_row : list bool) :
  NoDup idx → assign_all (replicate n false) idx true = Ok mask_row →
  length mask_row = n ∧ where_ id mask_row ≡ₚ idx.
Proof.
  intros Hnd Hassign. apply assign_all_Ok in Hassign as (Hlen & Hin & Hout).
  rewrite length_replicate in Hlen. split; [done|].
  apply NoDup_Permutation; [apply where_NoDup | done |].
  intros j. rewrite elem_of_where. split.
  - intros Hj. destruct (decide (j ∈ idx)) as [|Hnot]; [done|].
    rewrite (Hout j Hnot) in Hj.
    destruct (replicate n false !! j) eqn:Hrep; [|done].
    apply lookup_replicate in Hrep as [-> _]. done.
  - intros Hj. by rewrite (Hin j Hj).
Qed.

Section HoldoutFacts.
Context {rng : Type}.
Variable choice : rng → list nat → nat → list nat * rng.

Hypothesis Hchoice : choice_ok choice.

Lemma holdout_length (test_size : Q) (M : matrix) (g : rng) (mask : list (list bool)) :
  holdout choice test_size M g = Ok mask → length mask = length M.
Proof.
  revert g mask. induction M as [|row M IH]; intros g mask H; simpl in H.
  - by injection H as <-.
  - destruct (5 <? length (where_ positive row)).
    + bind_in H as n_test Hn. step_in H. destruct a as [idx g']. simpl in H.
      step_in H. step_in H. injection H as <-. simpl. f_equal. eauto.
    + step_in H. injection H as <-. simpl. f_equal. eauto.
Qed.

Lemma holdout_rows (test_size : Q) (M : matrix) (g : rng) (mask : list (list bool)) :
  holdout choice test_size M g = Ok mask →
  ∀ u row, M !! u = Some row →
    ∃ mask_row, mask !! u = Some mask_row ∧ holdout_row_ok test_size row mask_row.
Proof.
  revert g mask. induction M as [|row M IH]; intros g mask H u urow Hu; [done|].
  simpl in H.
  assert (Hrow : ∃ g' mask_row rest,
             mask = mask_row :: rest ∧ holdout choice test_size M g' = Ok rest
             ∧ holdout_row_ok test_size row mask_row).
  { destruct (5 <? length (where_ positive row)) eqn:Hmany.
    - apply Nat.ltb_lt in Hmany.
      bind_in H as n_test Hn.
      step_in H. destruct a as [idx g']. simpl in H.
      step_in H. rename a into mask_row. step_in H. injection H as <-.
      exists g', mask_row, a. split; [done|]. split; [done|].
      unfold random_choice in E.
      destruct (_ || _) eqn:Hbad; [done|]. injection E as E.
      apply orb_false_iff in Hbad as [Hneg Hbig].
      apply Z.ltb_ge in Hneg, Hbig.
      destruct (Hchoice g (where_ positive row) (Z.to_nat n_test))
        as [Hlen Hsub]; [lia|].
      rewrite E in Hlen, Hsub. simpl in Hlen, Hsub.
      apply assign_blank in E0 as [Hmlen Hperm];
        [|eapply submseteq_NoDup; [done | apply where_NoDup]].
      pose proof (Permutation_length Hperm) as Hplen.
      pose proof (submseteq_length _ _ Hsub) as Hslen.
      unfold holdout_row_ok. cbv zeta.
      split; [done|]. split.
      { intros j Hj. eapply elem_of_submseteq; [|done].
        by eapply elem_of_Permutation_proper. }
      split; [lia|]. split; [|lia].
      intros _. rewrite Hn. f_equal. lia.
    - apply Nat.ltb_ge in Hmany.
      step_in H. injection H as <-.
      exists g, (replicate (length row) false), a. split; [done|]. split; [done|].
      unfold holdout_row_ok. cbv zeta. rewrite where_blank, length_replicate.
      split; [done|]. split; [by intros j Hj; apply elem_of_nil in Hj|].
      split; [simpl; lia|]. split; [lia | done]. }
  destruct Hrow as (g' & mask_row & rest & -> & Hrest & Hok).
  destruct u as [|u]; simpl in Hu.
  - injection Hu as <-. by exists mask_row.
  - simpl. by eapply IH.
Qed.

(** With a test fraction between 0 and 1 and rows short enough for a
    double to count their cells, no sample is larger than its population,
    and the holdout is built. *)
Lemma holdout_succeeds (test_size : Q) (M : matrix) (g : rng) :
  (0 <= test_size)%Q → (test_size <= 1)%Q →
  Forall (λ row, (Z.of_nat (length row) < 2 ^ 53)%Z) M →
  ∃ mask, holdout choice test_size M g = Ok mask.
Proof.
  intros Hts0 Hts HM. revert g.
  induction HM as [|row M Hrow _ IH]; intros g; simpl; [by eexists|].
  destruct (5 <? length (where_ positive row)) eqn:Hmany.
  - apply Nat.ltb_lt in Hmany.
    set (items := where_ positive row) in *.
    assert (Hitems : length items ≤ length row).
    { unfold items, where_.
      pose proof (length_filter (λ j, positive <$> row !! j = Some true)
                    (seq 0 (length row))) as Hle.
      by rewrite length_seq in Hle. }
    destruct (n_test_of_bounds test_size (length items) Hts0 Hts ltac:(lia))
      as (n_test & -> & Hn1 & Hn2).
    cbn [mbind result_bind].
    unfold random_choice.
    destruct (_ || _) eqn:Hbad.
    { apply orb_true_iff in Hbad as [Hneg | Hbig];
        [apply Z.ltb_lt in Hneg | apply Z.ltb_lt in Hbig]; lia. }
    simpl. destruct (choice g items _) as [idx g'] eqn:Hc. simpl.
    destruct (Hchoice g items (Z.to_nat n_test)) as [Hlen Hsub]; [lia|].
    rewrite Hc in Hlen, Hsub. simpl in Hlen, Hsub.
    unfold assign_all.
    replace (forallb _ idx) with true.
    2:{ symmetry. apply forallb_forall. intros j Hj. apply Nat.ltb_lt.
        rewrite length_replicate. apply (where_lt positive).
        eapply elem_of_submseteq; [|done]. by apply list_elem_of_In. }
    simpl. destruct (IH g') as [rest ->]. simpl. by eexists.
  - destruct (IH g) as [rest ->]. simpl. by eexists.
Qed.

(** C2, amended. With a test fraction between 0 and 1 (and rows of fewer
    than [2^53] cells) the holdout is built, and in every holdout that is
    built: a user row with more than 5 positive cells has exactly
    [max(1, int(test_fraction * observed_count))] test cells, where the
    product is the one of doubles and [int] truncates, all of them distinct
    positive cells of the row and never more than [observed_count]; a row
    with 5 or fewer positive cells has none. *)
Theorem holdout_sample_sizes (test_size : Q) (M : matrix) (g : rng) :
  ((0 <= test_size)%Q → (test_size <= 1)%Q →
   Forall (λ row, (Z.of_nat (length row) < 2 ^ 53)%Z) M →
   ∃ mask, holdout choice test_size M g = Ok mask)
  ∧ ∀ mask, holdout choice test_size M g = Ok mask →
      length mask = length M
      ∧ ∀ u row, M !! u = Some row →
          ∃ mask_row, mask !! u = Some mask_row
                      ∧ holdout_row_ok test_size row mask_row.
Proof.
  split; [apply holdout_succeeds|]. intros mask H.
  split; [by eapply holdout_length | by eapply holdout_rows].
Qed.
End HoldoutFacts.

Lemma first_choice_ok : choice_ok first_choice.
Proof.
  intros g a n Hn. unfold first_choice. simpl. split.
  - by apply length_take_le.
  - apply submseteq_take.
Qed.

(** C2, as stated, fails on the rounding: a user with 8 positive cells and
    the default test fraction 0.2 gets [max(1, int(1.6)) = 1] test cell,
    where [max(1, round(1.6))] is 2. *)
Lemma holdout_sample_is_not_rounded :
  let row := [1; 1; 1; 1; 1; 1; 1; 1]%Q in
  let mask_row := [true; false; false; false; false; false; false; false] in
  holdout first_choice (1 # 5) [row] tt = Ok [mask_row]
  ∧ length (where_ positive row) = 8
  ∧ n_test_of (1 # 5) 8 = Ok 1%Z
  ∧ Z.of_nat (length (where_ id mask_row)) = 1%Z
  ∧ spec_n_test (1 # 5) 8 = 2%Z.
Proof. cbv zeta. repeat split; vm_compute; reflexivity. Qed.

Lemma holdout_sample_sizes_witness :
  ∃ mask,
    holdout first_choice (58 # 100)
      [[1; 1; 1; 1; 1; 1; 1; 1]; [1; 0; 0; 0; 0; 0; 0; 0]]%Q tt
    = Ok mask
    ∧ length mask = 2
    ∧ ∃ mask_row, mask !! 0 = Some mask_row
        ∧ holdout_row_ok (58 # 100) [1; 1; 1; 1; 1; 1; 1; 1]%Q mask_row.
Proof.
  destruct (holdout_sample_sizes first_choice first_choice_ok (58 # 100)
              [[1; 1; 1; 1; 1; 1; 1; 1]; [1; 0; 0; 0; 0; 0; 0; 0]]%Q tt)
    as [Hbuilt Hrows].
  destruct (Hbuilt ltac:(vm_compute; discriminate) ltac:(vm_compute; discriminate)
              ltac:(repeat constructor)) as [mask Hmask].
  destruct (Hrows mask Hmask) as [Hlen Hrow].
  exists mask. split; [exact Hmask|]. split; [exact Hlen|].
  exact (Hrow 0 _ eq_refl).
Defined.

(** ** The [except] branches *)

Section EvaluatorFacts.
Context {rng : Type}.
Variable choice : rng → list nat → nat → list nat * rng.
Variable seed : nat → rng.
Variable sqrt : Q → Q.

(** Failures of the kinds the specification names: whether or not the
    holdout is built, a dictionary without one of the factor arrays and
    factors that fit in neither orientation make the body raise. *)
Lemma missing_factors_raise (uf itf : option matrix) (M : matrix) (test_size : Q)
    (k : Z) (g : rng) :
  uf = None ∨ itf = None →
  ∃ e, evaluate_cf_body choice sqrt (FactorDict uf itf) M test_size k g = Err e.
Proof.
  intros Hmissing. unfold evaluate_cf_body.
  destruct (holdout choice test_size M g) as [mask|e]; [|by eexists].
  cbn [mbind result_bind predict_ratings lookup_key].
  destruct uf as [uf|]; [|by eexists].
  destruct itf as [itf|]; [|by eexists].
  by destruct Hmissing.
Qed.

Lemma mismatched_factors_raise (uf itf : matrix) (M : matrix) (test_size : Q)
    (k : Z) (g : rng) :
  n_rows itf ≠ n_cols uf → n_cols itf ≠ n_cols uf →
  ∃ e, evaluate_cf_body choice sqrt (FactorDict (Some uf) (Some itf)) M test_size k g
       = Err e.
Proof.
  intros Hrows Hcols. unfold evaluate_cf_body.
  destruct (holdout choice test_size M g) as [mask|e]; [|by eexists].
  cbn [mbind result_bind predict_ratings lookup_key].
  apply Nat.eqb_neq in Hrows as ->.
  unfold np_dot.
  assert (Ht : n_rows (transpose itf) = n_cols itf).
  { unfold n_rows, transpose. by rewrite length_map, length_seq. }
  rewrite Ht. assert (n_cols uf ≠ n_cols itf) as Hne by done.
  apply Nat.eqb_neq in Hne as ->. by eexists.
Qed.

Lemma post_missing_factors_raise (model : cf_model) (M : matrix) (k : Z) :
  (∀ uf pf, model ≠ FactorDict (Some uf) (Some pf)) →
  ∃ e, post_cf_body choice seed sqrt model M k = Err e.
Proof.
  intros Hmodel. unfold post_cf_body.
  destruct (post_split choice seed M) as [[train test]|e]; [|by eexists].
  cbn [mbind result_bind].
  destruct model as [[uf|] [pf|]|]; cbn [lookup_key mbind result_bind];
    try (by eexists).
  by destruct (Hmodel uf pf).
Qed.

Lemma post_mismatched_factors_raise (uf pf : matrix) (M : matrix) (k : Z) :
  n_cols uf ≠ n_rows pf →
  ∃ e, post_cf_body choice seed sqrt (FactorDict (Some uf) (Some pf)) M k = Err e.
Proof.
  intros Hshape. unfold post_cf_body.
  destruct (post_split choice seed M) as [[train test]|e]; [|by eexists].
  cbn [mbind result_bind lookup_key]. unfold np_dot.
  apply Nat.eqb_neq in Hshape as ->. by eexists.
Qed.

(** C5. Neither evaluator lets an exception out.  For every model,
    matrix, test fraction, integer cutoff and generator state the call
    returns a record; whatever is raised in the [try] block, the record is
    the one whose rmse, precision@k, recall@k and f1@k are all exactly 0;
    and the failures that the specification names do end there: a model
    without one of its factor arrays, a model that is no dictionary of
    factors, and factor arrays whose shapes do not fit. *)
Theorem evaluators_never_raise (model : cf_model) (M : matrix) (test_size : Q)
    (k : Z) (g : rng) :
  let call := evaluate_collaborative_filtering_call choice sqrt model M test_size k g in
  let post_call := evaluate_post_collaborative_filtering_call choice seed sqrt model M k in
  (∃ m, call = Ok m
        ∧ m = evaluate_collaborative_filtering choice sqrt model M test_size k g
        ∧ ∀ e, evaluate_cf_body choice sqrt model M test_size k g = Err e →
               m = Metrics 0 0 0 0)
  ∧ (∃ m, post_call = Ok m
          ∧ m = evaluate_post_collaborative_filtering choice seed sqrt model M k
          ∧ ∀ e, post_cf_body choice seed sqrt model M k = Err e →
                 m = Metrics 0 0 0 0)
  ∧ (∀ uf itf, model = FactorDict uf itf → uf = None ∨ itf = None →
       call = Ok (Metrics 0 0 0 0) ∧ post_call = Ok (Metrics 0 0 0 0))
  ∧ (model = OtherModel → post_call = Ok (Metrics 0 0 0 0))
  ∧ (∀ uf itf, model = FactorDict (Some uf) (Some itf) →
       (n_rows itf ≠ n_cols uf → n_cols itf ≠ n_cols uf →
        call = Ok (Metrics 0 0 0 0))
       ∧ (n_cols uf ≠ n_rows itf → post_call = Ok (Metrics 0 0 0 0))).
Proof.
  cbv zeta.
  unfold evaluate_collaborative_filtering_call,
    evaluate_post_collaborative_filtering_call,
    evaluate_collaborative_filtering, evaluate_post_collaborative_filtering,
    try_except.
  split_and!.
  - destruct (evaluate_cf_body _ _ _ _ _ _ _) as [m|e].
    + exists m. by split_and!.
    + exists zero_metrics. by split_and!.
  - destruct (post_cf_body _ _ _ _ _ _) as [m|e].
    + exists m. by split_and!.
    + exists zero_metrics. by split_and!.
  - intros uf itf -> Hmissing. split.
    + by destruct (missing_factors_raise uf itf M test_size k g Hmissing) as [e ->].
    + destruct (post_missing_factors_raise (FactorDict uf itf) M k) as [e ->];
        [|done].
      intros uf' pf' [= -> ->]. by destruct Hmissing.
  - intros ->.
    by destruct (post_missing_factors_raise OtherModel M k) as [e ->].
  - intros uf itf ->. split.
    + intros Hrows Hcols.
      by destruct (mismatched_factors_raise uf itf M test_size k g Hrows Hcols)
        as [e ->].
    + intros Hshape.
      by destruct (post_mismatched_factors_raise uf itf M k Hshape) as [e ->].
Qed.
End EvaluatorFacts.

Lemma evaluators_never_raise_witness :
  evaluate_collaborative_filtering_call first_choice (λ x, x)
    (FactorDict (Some [[1%Q]]) None) [[1; 1; 1; 1; 1; 1; 0]%Q] (1 # 5) 10 tt
  = Ok (Metrics 0 0 0 0)
  ∧ evaluate_post_collaborative_filtering_call first_choice (λ _, tt) (λ x, x)
      (FactorDict (Some [[1%Q]]) None) [[1; 1; 1; 1; 1; 1; 0]%Q] 10
    = Ok (Metrics 0 0 0 0).
Proof.
  exact (proj1 (proj2 (proj2 (evaluators_never_raise first_choice (λ _, tt) (λ x, x)
                  (FactorDict (Some [[1%Q]]) None) [[1; 1; 1; 1; 1; 1; 0]%Q]
                  (1 # 5) 10 tt)))
           (Some [[1%Q]]) None eq_refl (or_intror eq_refl)).
Defined.

(** ** A run of the quick trainer *)

Lemma zeros_randn_shaped : randn_shaped zeros_randn.
Proof.
  intros r c g. unfold zeros_randn, has_shape. simpl.
  split; [apply length_replicate|].
  apply Forall_replicate, length_replicate.
Qed.

Lemma idle_step_keeps_shapes : step_keeps_shapes idle_step.
Proof. by intros R s r1 c1 r2 c2 Hu Hi. Qed.

Lemma train_collaborative_filtering_output_witness :
  let model := train_collaborative_filtering zeros_randn (λ _, 0%Q) idle_step [[1%Q]] tt tt in
  let overflowing :=
    train_collaborative_filtering_with zeros_randn idle_step (λ _, PInf) [[1%Q]] tt tt in
  out_user_factors model = [replicate 32 0%Q]
  ∧ has_shape (out_post_factors model) 32 1
  ∧ (∃ q, final_loss model = Fin q ∧ (q == 1)%Q)
  ∧ out_user_factors overflowing = [replicate 32 0%Q]
  ∧ final_loss overflowing = PInf.
Proof.
  pose proof (train_collaborative_filtering_output zeros_randn (λ _, 0%Q) idle_step
                (cf_loss (λ _, 0%Q) [[1%Q]]) [[1%Q]] tt tt
                zeros_randn_shaped idle_step_keeps_shapes) as H.
  pose proof (train_collaborative_filtering_output zeros_randn (λ _, 0%Q) idle_step
                (λ _, PInf) [[1%Q]] tt tt
                zeros_randn_shaped idle_step_keeps_shapes) as H'.
  cbv zeta in H, H'. destruct H as (Heq & Hu & _ & _ & Hp & _ & Hbest & _).
  destruct H' as (_ & Hu' & _ & _ & _ & _ & Hbest' & _).
  cbv zeta. rewrite Heq. split_and!.
  - rewrite Hu. vm_compute. reflexivity.
  - exact Hp.
  - rewrite Hbest. eexists. split; [vm_compute; reflexivity | reflexivity].
  - rewrite Hu'. vm_compute. reflexivity.
  - rewrite Hbest'. vm_compute. reflexivity.
Defined.

(** C8. The F1 computation never divides by zero: it returns a value for
    every averaged precision [p] and recall [r], the harmonic mean
    [2pr/(p+r)] when [p + r > 0] and exactly 0 when both are 0; and the F1
    entry of a record that the evaluator computes is this function of its
    precision and recall entries. *)
Theorem f1_score_never_divides_by_zero :
  (∀ p r : Q, ∃ v, f1_score p r = Ok v
      ∧ ((0 < p + r)%Q → v = (2 * (p * r) / (p + r))%Q)
      ∧ ((p == 0)%Q → (r == 0)%Q → v = 0%Q))
  ∧ (∀ (rng : Type) (choice : rng → list nat → nat → list nat * rng) (sqrt : Q → Q)
       (model : cf_model) (M : matrix) (test_size : Q) (k : Z) (g : rng) (m : metrics),
       evaluate_cf_body choice sqrt model M test_size k g = Ok m →
       f1_score (precision_at_k m) (recall_at_k m) = Ok (f1_at_k m)).
Proof.
  split.
  - intros p r. unfold f1_score. destruct (Qltb 0 (p + r)) eqn:Hlt.
    + apply Qltb_lt in Hlt. rewrite py_div_ok by lra.
      eexists. split; [done|]. split; [done|]. intros Hp Hr. lra.
    + apply Qltb_ge in Hlt. exists 0%Q. split; [done|]. split; [|done].
      intros Hpos. lra.
  - intros rng choice sqrt model M test_size k g m H. unfold evaluate_cf_body in H.
    repeat step_in H. by injection H as <-.
Qed.

Lemma f1_score_never_divides_by_zero_witness :
  ∃ v, f1_score (1 # 2) (1 # 4) = Ok v
       ∧ v = (2 * ((1 # 2) * (1 # 4)) / ((1 # 2) + (1 # 4)))%Q.
Proof.
  destruct (proj1 f1_score_never_divides_by_zero (1 # 2) (1 # 4)) as (v & Hv & Hpos & _).
  exists v. split; [exact Hv|]. apply Hpos. reflexivity.
Defined.

(** ** The RMSE of the evaluators *)

Lemma select_row_blank {A} (row : list A) :
  select_row row (replicate (length row) false) = [].
Proof. unfold select_row. induction row as [|x row IH]; [done|]. simpl. exact IH. Qed.

Lemma bool_index_blank {A} (M : list (list A)) :
  bool_index M (map (λ row, replicate (length row) false) M) = Ok [].
Proof.
  unfold bool_index.
  assert (Hshape : same_shape_b M (map (λ row, replicate (length row) false) M) = true).
  { unfold same_shape_b. rewrite length_map, Nat.eqb_refl. simpl.
    induction M as [|row M IH]; [done|]. simpl.
    rewrite length_replicate, Nat.eqb_refl. exact IH. }
  rewrite Hshape. f_equal. clear Hshape.
  induction M as [|row M IH]; [done|]. simpl. by rewrite select_row_blank, IH.
Qed.

Section RmseFacts.
Context {rng : Type}.
Variable choice : rng → list nat → nat → list nat * rng.
Variable seed : nat → rng.
Variable sqrt : Q → Q.

(** When no user has more than 5 positive cells nothing is sampled. *)
Lemma holdout_sparse (test_size : Q) (M : matrix) (g : rng) :
  Forall (λ row, length (where_ positive row) ≤ 5) M →
  holdout choice test_size M g = Ok (map (λ row, replicate (length row) false) M).
Proof.
  induction 1 as [|row M Hrow _ IH]; [done|]. simpl.
  apply Nat.ltb_ge in Hrow as ->. by rewrite IH.
Qed.

(** The main evaluator without test cells: scikit-learn rejects the empty
    sample, and the [except] branch reports an rmse of exactly 0. *)
Lemma evaluate_cf_without_test_cells (model : cf_model) (M : matrix)
    (test_size : Q) (k : Z) (g : rng) :
  Forall (λ row, length (where_ positive row) ≤ 5) M →
  evaluate_collaborative_filtering choice sqrt model M test_size k g = zero_metrics.
Proof.
  intros Hsparse. unfold evaluate_collaborative_filtering, evaluate_cf_body.
  rewrite (holdout_sparse test_size M g Hsparse). simpl.
  destruct (predict_ratings model _) as [predicted|]; [|done]. simpl.
  rewrite bool_index_blank. simpl.
  destruct (bool_index predicted _) as [predicted_test|]; [|done]. done.
Qed.

(** The main evaluator with test cells: the rmse is the root of the mean
    squared error over the cells selected by the test mask. *)
Lemma evaluate_cf_rmse (model : cf_model) (M : matrix) (test_size : Q) (k : Z)
    (g : rng) (m : metrics) :
  evaluate_cf_body choice sqrt model M test_size k g = Ok m →
  ∃ test_mask predicted test_ratings predicted_test,
    holdout choice test_size M g = Ok test_mask
    ∧ bool_index M test_mask = Ok test_ratings
    ∧ bool_index predicted test_mask = Ok predicted_test
    ∧ test_ratings ≠ []
    ∧ rmse m = sqrt (mean (sq_errs (zip test_ratings predicted_test))).
Proof.
  unfold evaluate_cf_body. intros H.
  step_in H. rename a into test_mask.
  step_in H. rename a into predicted.
  step_in H. rename a into test_ratings.
  step_in H. rename a into predicted_test.
  step_in H. rename a into mse.
  step_in H. step_in H. injection H as <-.
  exists test_mask, predicted, test_ratings, predicted_test.
  unfold mean_squared_error in E3.
  destruct (_ || _) eqn:Hbad; [done|]. injection E3 as <-.
  apply orb_false_iff in Hbad as [Hempty _]. apply Nat.eqb_neq in Hempty.
  repeat split; try done. intros ->. done.
Qed.

Lemma held_out_refl (M : matrix) : held_out M M.
Proof.
  unfold held_out. induction M as [|row M IH]; constructor; [|done].
  induction row; constructor; auto.
Qed.

Lemma hold_out_cell_test_unchanged (n_posts : nat) (M train : matrix) (idx : nat)
    (train' test' : matrix) :
  held_out M train →
  hold_out_cell n_posts (train, M) idx = Ok (train', test') →
  test' = M ∧ held_out M train'.
Proof.
  intros Hheld H. unfold hold_out_cell in H.
  set (u := idx / n_posts) in *. set (p := idx mod n_posts) in *.
  bind_in H as x Hx.
  unfold iloc in Hx. bind_in Hx as trow Htrow.
  apply index_Ok in Htrow, Hx.
  destruct (positive x) eqn:Hpos.
  2:{ by injection H as <- <-. }
  bind_in H as test1 Htest. bind_in H as train1 Htrain. injection H as <- <-.
  unfold iloc_set in Htest, Htrain.
  bind_in Htest as mrow Hmrow. bind_in Htest as y Hy. injection Htest as <-.
  bind_in Htrain as trow' Htrow'. bind_in Htrain as x' Hx'. injection Htrain as <-.
  apply index_Ok in Hmrow, Hy, Htrow', Hx'.
  assert (trow' = trow) as -> by congruence.
  unfold held_out in Hheld.
  pose proof (Forall2_lookup_lr _ _ _ u _ _ Hheld Hmrow Htrow) as Hrow.
  destruct (Forall2_lookup_lr _ _ _ p _ _ Hrow Hy Hx) as [-> | ->]; [|done].
  split.
  - rewrite (list_insert_id mrow p y) by done. by apply list_insert_id.
  - unfold held_out. rewrite <- (list_insert_id M u mrow Hmrow).
    apply Forall2_insert; [done|].
    rewrite <- (list_insert_id mrow p y Hy).
    apply Forall2_insert; [done | by right].
Qed.

Lemma hold_out_cells_test_unchanged (n_posts : nat) (M train : matrix)
    (idxs : list nat) (train' test' : matrix) :
  held_out M train →
  hold_out_cells n_posts (train, M) idxs = Ok (train', test') →
  test' = M ∧ held_out M train'.
Proof.
  revert train. induction idxs as [|idx idxs IH]; intros train Hheld H; simpl in H.
  - by injection H as <- <-.
  - step_in H. destruct a as [train1 test1].
    apply hold_out_cell_test_unchanged in E as [-> Hheld1]; [|done].
    by eapply IH.
Qed.

Lemma post_split_test_unchanged (M train' test' : matrix) :
  post_split choice seed M = Ok (train', test') → test' = M.
Proof.
  unfold post_split. intros H. step_in H. destruct a as [idxs g']. simpl in H.
  by apply hold_out_cells_test_unchanged in H as [-> _]; [|apply held_out_refl].
Qed.

(** So the rmse of the post evaluator is that of every positive cell of the
    interaction matrix, held out or not. *)
Lemma post_rmse_ignores_holdout (model : cf_model) (M : matrix) (k : Z) (m : metrics) :
  post_cf_body choice seed sqrt model M k = Ok m →
  ∃ uf pf, model = FactorDict (Some uf) (Some pf)
           ∧ post_rmse sqrt M (matmul uf pf) = Ok (rmse m).
Proof.
  unfold post_cf_body. intros H.
  step_in H. destruct a as [train test]. simpl in H.
  apply post_split_test_unchanged in E as ->.
  step_in H. destruct a as [uf pf]. simpl in H.
  destruct model as [[uf'|] [pf'|]|]; try done. simpl in E. injection E as -> ->.
  step_in H. rename a into predictions.
  step_in H. step_in H. step_in H. injection H as <-. simpl.
  exists uf, pf. split; [done|].
  unfold np_dot in E. destruct (n_cols uf =? n_rows pf); [|done].
  by injection E as <-.
Qed.

(** C6. The post evaluator reports an RMSE over cells that were not held
    out: on a matrix of one row [1, 0, 0, 0] the sample of 20% of the 4
    positions is empty and nothing is held out, yet the rmse is the error of
    the positive cell, [sqrt 1] for predictions of 0, where the claim has an
    rmse of exactly 0. *)
Theorem post_rmse_without_test_cells :
  let M := [[1; 0; 0; 0]%Q] in
  let model := FactorDict (Some [[0%Q]]) (Some [[0; 0; 0; 0]%Q]) in
  post_split first_choice (λ _, tt) M = Ok (M, M)
  ∧ rmse (evaluate_post_collaborative_filtering first_choice (λ _, tt) sqrt model M 10)
    = sqrt 1.
Proof. cbv zeta. split; vm_compute; reflexivity. Qed.
End RmseFacts.

(** ** The writes of the business evaluator *)

(** Never a division by zero in the precision of a ranking cut at [k]. *)
Lemma precision_of_top_k (k : Z) (hits : nat) (scores : list fnum) :
  ∃ q, precision_of k hits (top_k k scores) = Ok q.
Proof.
  unfold precision_of. destruct (0 <? length (top_k k scores)) eqn:Hlen; [|by eexists].
  apply Nat.ltb_lt in Hlen. eexists. apply py_div_ok.
  change 0%Q with (inject_Z 0). rewrite inject_Z_injective.
  destruct (decide (0 ≤ k)%Z) as [Hk|Hk]; [|lia].
  pose proof (length_top_k k scores Hk). lia.
Qed.

Lemma recall_of_total (hits : nat) (items : list nat) :
  ∃ q, recall_of hits items = Ok q.
Proof.
  unfold recall_of. destruct (0 <? length items) eqn:Hlen; [|by eexists].
  apply Nat.ltb_lt in Hlen. eexists. apply py_div_ok.
  pose proof (Qnat_pos _ Hlen). lra.
Qed.

Section BusinessFacts.
Context `{Countable category}.

Lemma exclude_self_Ok (sim : similarity) (i : nat) (row : list fnum) :
  sim !! i = Some row → i < length row →
  exclude_self sim i = (<[i := <[i := NInf]> row]> sim, Ok (<[i := NInf]> row)).
Proof.
  intros Hrow Hlen. unfold exclude_self. rewrite Hrow.
  by apply Nat.ltb_lt in Hlen as ->.
Qed.

Lemma excluded_range_step (a m : nat) (sim : similarity) (row : list fnum) :
  sim !! a = Some row →
  excluded_range (S a) m (<[a := <[a := NInf]> row]> sim) = excluded_range a (S m) sim.
Proof.
  intros Hrow. unfold excluded_range. apply list_eq. intros i.
  rewrite !list_lookup_imap.
  destruct (decide (i = a)) as [->|Hne].
  - rewrite list_lookup_insert_eq by (by eapply lookup_lt_Some).
    rewrite Hrow. simpl. rewrite decide_False by lia. rewrite decide_True by lia. done.
  - rewrite list_lookup_insert_ne by done.
    destruct (sim !! i) as [r|]; [|done]. simpl.
    repeat case_decide; try done; exfalso; lia.
Qed.

Lemma excluded_range_zero (a : nat) (sim : similarity) : excluded_range a 0 sim = sim.
Proof.
  unfold excluded_range. apply list_eq. intros i. rewrite list_lookup_imap.
  destruct (sim !! i); [|done]. simpl. by rewrite decide_False by lia.
Qed.

Lemma has_shape_insert_row (sim : similarity) (n i : nat) (row : list fnum) :
  has_shape sim n n → length row = n → has_shape (<[i := row]> sim) n n.
Proof.
  intros [Hlen Hrows] Hrow. split; [by rewrite length_insert|].
  by apply Forall_insert.
Qed.

(** The first loop on a square array of the size of the frame: it runs to
    its end and has excluded every business it went through. *)
Lemma business_ranking_writes (categories : list category) (k : Z) (n a m : nat)
    (sim : similarity) :
  has_shape sim n n → a + m ≤ n →
  ∃ per_business,
    business_ranking categories k (seq a m) sim
    = (excluded_range a m sim, Ok per_business).
Proof.
  revert a sim. induction m as [|m IH]; intros a sim Hshape Ham.
  - simpl. rewrite excluded_range_zero. by eexists.
  - simpl.
    destruct Hshape as [Hlen Hrows].
    destruct (lookup_lt_is_Some_2 sim a ltac:(lia)) as [row Hrow].
    assert (Hrowlen : length row = n).
    { by eapply (Forall_lookup_1 _ _ _ _ Hrows). }
    rewrite (exclude_self_Ok sim a row Hrow) by lia.
    destruct (IH (S a) (<[a := <[a := NInf]> row]> sim)) as [rest Hrest]; [|lia|].
    { apply has_shape_insert_row; [done|]. by rewrite length_insert. }
    rewrite excluded_range_step in Hrest by done.
    destruct (length (relevant_to categories a) =? 0).
    + rewrite Hrest. simpl. by eexists.
    + destruct (precision_of_top_k k
                  (n_common (top_k k (<[a := NInf]> row)) (relevant_to categories a))
                  (<[a := NInf]> row)) as [p ->].
      destruct (recall_of_total
                  (n_common (top_k k (<[a := NInf]> row)) (relevant_to categories a))
                  (relevant_to categories a)) as [r ->].
      simpl. rewrite Hrest. simpl. by eexists.
Qed.

(** The second loop writes again what the first loop wrote: an excluded
    array is left as it is, whether the loop ends or raises. *)
Lemma exclude_self_again (sim : similarity) (i : nat) :
  (∀ row, sim !! i = Some row → row !! i = Some NInf ∨ length row ≤ i) →
  (exclude_self sim i).1 = sim.
Proof.
  intros Hdone. unfold exclude_self. destruct (sim !! i) as [row|] eqn:Hrow; [|done].
  destruct (i <? length row) eqn:Hlt; [|done]. simpl.
  apply Nat.ltb_lt in Hlt.
  destruct (Hdone row eq_refl) as [Hi | Hge]; [|lia].
  rewrite (list_insert_id row i NInf Hi). by apply list_insert_id.
Qed.

Lemma recommended_categories_frame (categories : list category) (k : Z)
    (todo : list nat) (sim : similarity) (acc : gset category) :
  (∀ i row, i ∈ todo → sim !! i = Some row → row !! i = Some NInf ∨ length row ≤ i) →
  (recommended_categories categories k todo sim acc).1 = sim.
Proof.
  revert acc. induction todo as [|i todo IH]; intros acc Hdone; [done|]. simpl.
  pose proof (exclude_self_again sim i (λ row, Hdone i row ltac:(left))) as Hsame.
  destruct (exclude_self sim i) as [sim1 [sim_scores|e]]; simpl in Hsame; subst sim1;
    [|done].
  destruct (mapM _ _) as [cats|e]; [|done].
  apply IH. intros j row Hj. apply Hdone. by right.
Qed.

Lemma excluded_range_diagonal (n : nat) (sim : similarity) (i : nat) (row : list fnum) :
  excluded_range 0 n sim !! i = Some row → i < n →
  row !! i = Some NInf ∨ length row ≤ i.
Proof.
  unfold excluded_range. rewrite list_lookup_imap. intros Hrow Hi.
  destruct (sim !! i) as [r|]; [|done]. simpl in Hrow.
  rewrite decide_True in Hrow by lia. injection Hrow as <-.
  destruct (decide (i < length r)) as [Hlt|Hge].
  - left. by apply list_lookup_insert_eq.
  - right. rewrite length_insert. lia.
Qed.

(** C10. On a square similarity array with one row per business of the
    frame, a call leaves the caller's array with every diagonal entry at
    negative infinity and every other entry as it was. *)
Theorem business_evaluator_overwrites_diagonal (sim : similarity)
    (categories : list category) (k : Z) :
  has_shape sim (length categories) (length categories) →
  let sim' := (evaluate_business_recommendations sim (Some categories) k).1 in
  has_shape sim' (length categories) (length categories)
  ∧ ∀ i j x, sim !! i ≫= (.!! j) = Some x →
             sim' !! i ≫= (.!! j) = Some (if decide (i = j) then NInf else x).
Proof.
  intros Hshape. cbv zeta.
  set (n := length categories) in *.
  assert (Hfinal : (evaluate_business_recommendations sim (Some categories) k).1
                   = excluded_range 0 n sim).
  { unfold evaluate_business_recommendations, business_body. simpl. fold n.
    destruct (business_ranking_writes categories k n 0 n sim Hshape ltac:(lia))
      as [per_business ->].
    destruct (f1_score_total (mean_or_zero per_business.*1)
                (mean_or_zero per_business.*2)) as [f1 ->].
    pose proof (recommended_categories_frame categories k (seq 0 n)
                  (excluded_range 0 n sim) ∅) as Hframe.
    destruct (recommended_categories _ _ _ _ _) as [sim2 [recommended|e]];
      simpl in Hframe; rewrite Hframe.
    - by destruct (mbind _ _).
    - intros i row Hi. apply elem_of_seq in Hi. intros Hrow.
      eapply excluded_range_diagonal; [done | lia].
    - done.
    - intros i row Hi. apply elem_of_seq in Hi. intros Hrow.
      eapply excluded_range_diagonal; [done | lia]. }
  rewrite Hfinal. split.
  - destruct Hshape as [Hlen Hrows]. split.
    + unfold excluded_range. by rewrite length_imap.
    + unfold excluded_range. apply Forall_lookup. intros i row.
      rewrite list_lookup_imap. destruct (sim !! i) as [r|] eqn:Hr; [|done]. simpl.
      intros [= <-]. pose proof (Forall_lookup_1 _ _ _ _ Hrows Hr) as Hrl.
      simpl in Hrl. destruct (decide _); [by rewrite length_insert | done].
  - intros i j x Hx. unfold excluded_range. rewrite list_lookup_imap.
    destruct (sim !! i) as [row|] eqn:Hrow; [|done]. simpl in *.
    assert (Hi : i < n).
    { destruct Hshape as [<- _]. by eapply lookup_lt_Some. }
    rewrite decide_True by lia.
    destruct (decide (i = j)) as [->|Hne].
    + apply list_lookup_insert_eq. by eapply lookup_lt_Some.
    + by rewrite list_lookup_insert_ne.
Qed.
End BusinessFacts.

Lemma business_evaluator_overwrites_diagonal_witness :
  let sim := [[Fin 1; Fin (1 # 2)]; [Fin (1 # 2); Fin 1]] in
  let sim' := (evaluate_business_recommendations sim (Some [7; 7]) 5).1 in
  has_shape sim 2 2
  ∧ sim' !! 0 ≫= (.!! 0) = Some NInf
  ∧ sim' !! 0 ≫= (.!! 1) = Some (Fin (1 # 2))
  ∧ sim' !! 1 ≫= (.!! 1) = Some NInf.
Proof.
  cbv zeta.
  assert (Hshape : has_shape [[Fin 1; Fin (1 # 2)]; [Fin (1 # 2); Fin 1]] 2 2)
    by (split; [reflexivity | repeat constructor]).
  destruct (business_evaluator_overwrites_diagonal
              [[Fin 1; Fin (1 # 2)]; [Fin (1 # 2); Fin 1]] [7; 7] 5 Hshape)
    as [_ Hcells].
  split; [exact Hshape|].
  split; [exact (Hcells 0 0 (Fin 1) eq_refl)|].
  split; [exact (Hcells 0 1 (Fin (1 # 2)) eq_refl) | exact (Hcells 1 1 (Fin 1) eq_refl)].
Defined.

(* ================================================================= *)
(** * Further properties of the trainers *)

Section LoopBounds.
Context {P : Type}.
Variable loss_of : P → fnum.
Variable update : P → P.
Variable patience : nat.
Variable init : P.
Hypothesis Hpatience : 0 < patience.

(** A loop that ends before its budget has run at least [patience] epochs,
    and one more when the first epoch improved on [+inf]. *)
Lemma train_runs_patience (budget : nat) :
  budget `min` patience ≤ (train loss_of update patience budget init).2.
Proof.
  unfold train.
  pose proof (run_epochs_trace loss_of update patience init budget 0) as Htrace.
  change (LoopState init PInf 0) with (state_at loss_of update init 0).
  destruct (run_epochs _ _ _ _ _ _) as [st n]. simpl.
  destruct Htrace as (_ & Hn & Hpos & _ & Hlast).
  destruct (decide (n < budget)) as [Hlt|]; [|lia].
  specialize (Hlast ltac:(lia)). apply stops_iff in Hlast as [Hp _]; [|done].
  assert (0 < n) by (apply Hpos; lia). lia.
Qed.

Lemma train_runs_past_improvement (budget : nat) :
  improves loss_of update init 0 = true →
  budget `min` S patience ≤ (train loss_of update patience budget init).2.
Proof.
  intros Himp. unfold train.
  pose proof (run_epochs_trace loss_of update patience init budget 0) as Htrace.
  change (LoopState init PInf 0) with (state_at loss_of update init 0).
  destruct (run_epochs _ _ _ _ _ _) as [st n]. simpl.
  destruct Htrace as (_ & Hn & Hpos & _ & Hlast).
  destruct (decide (n < budget)) as [Hlt|]; [|lia].
  specialize (Hlast ltac:(lia)). apply stops_iff in Hlast as [Hp Hall]; [|done].
  assert (0 < n) by (apply Hpos; lia).
  destruct (decide (S patience ≤ n)) as [|Hshort]; [lia|].
  rewrite (Hall 0) in Himp by lia. done.
Qed.

(** A loss that never improves leaves the best loss at [+inf] and counts
    every epoch. *)
Lemma never_improving_trace (e : nat) :
  (∀ i, flt (loss_at loss_of update init i) PInf = false) →
  best_before loss_of update init e = PInf ∧ stale loss_of update init e = e.
Proof.
  intros Hnever. induction e as [|e [IHb IHs]]; [done|]. simpl.
  unfold improves. rewrite IHb, Hnever. by rewrite IHs.
Qed.

Lemma never_improving_run (budget : nat) :
  patience ≤ budget →
  (∀ i, flt (loss_at loss_of update init i) PInf = false) →
  let run := train loss_of update patience budget init in
  run.2 = patience ∧ best_loss run.1 = PInf ∧ patience_counter run.1 = patience.
Proof.
  intros Hbudget Hnever. cbv zeta.
  pose proof (train_runs_patience budget) as Hmin. unfold train in *.
  pose proof (run_epochs_trace loss_of update patience init budget 0) as Htrace.
  change (LoopState init PInf 0) with (state_at loss_of update init 0) in *.
  destruct (run_epochs _ _ _ _ _ _) as [st n]. simpl in *.
  destruct Htrace as (-> & Hn & Hpos & Hbefore & Hlast).
  assert (n = patience) as ->.
  { destruct (decide (n ≤ patience)) as [|Hlong]; [lia|].
    specialize (Hbefore (patience - 1) ltac:(lia) ltac:(lia)).
    unfold stops, improves in Hbefore.
    destruct (never_improving_trace (patience - 1) Hnever) as [Hb Hs].
    rewrite Hb, Hnever, Hs in Hbefore. simpl in Hbefore.
    apply Nat.leb_gt in Hbefore. lia. }
  destruct (never_improving_trace patience Hnever) as [Hb Hs]. simpl. done.
Qed.
End LoopBounds.

Section TrainerRuns.
Context {gen optimizer : Type}.
Variable randn : nat → nat → gen → matrix * gen.
Variable norm : matrix → Q.
Variable adam_step : matrix → factors * optimizer → factors * optimizer.

(** X1. Whatever the losses of the epochs are, those of exact arithmetic
    and those of float32 alike: when the loss of the first epoch is below
    [+inf] (a number, not [nan] and not an overflow to infinity), the quick
    trainer executes at least 6 and at most 50 epochs, the first epoch
    improving on the initial best of [+inf] and the patience of 5 being
    counted after it; when no epoch has a loss below [+inf], it executes
    exactly 5. *)
Theorem quick_trainer_runs_six_epochs (loss_fn : factors * optimizer → fnum)
    (R : matrix) (g : gen) (adam : optimizer) :
  let executed := (cf_run_with randn adam_step loss_fn R g adam).2 in
  let loss := loss_at loss_fn (adam_step R) (cf_init randn R g, adam) in
  cf_run randn norm adam_step R g adam
  = cf_run_with randn adam_step (cf_loss norm R) R g adam
  ∧ (flt (loss 0) PInf = true → 6 ≤ executed ≤ 50)
  ∧ ((∀ i, flt (loss i) PInf = false) → executed = 5).
Proof.
  cbv zeta. unfold cf_run, cf_run_with. split_and!.
  - reflexivity.
  - intros Hfirst. split.
    + by apply (train_runs_past_improvement loss_fn (adam_step R) cf_patience
               (cf_init randn R g, adam) ltac:(unfold cf_patience; lia) cf_epochs).
    + pose proof (train_early_stopping loss_fn (adam_step R) cf_patience
                    (cf_init randn R g, adam) cf_epochs ltac:(unfold cf_patience; lia))
        as Hok.
      apply (es_budget _ _ _ _ _ _ Hok).
  - intros Hnever.
    by destruct (never_improving_run loss_fn (adam_step R) cf_patience
                   (cf_init randn R g, adam) ltac:(unfold cf_patience; lia) cf_epochs
                   ltac:(unfold cf_patience, cf_epochs; lia) Hnever) as [-> _].
Qed.

(** X2. On an interaction matrix without a strictly positive cell the
    loss of the full trainer is [nan] in every epoch: the loop breaks after
    exactly 3 epochs, and the best loss it ends with is still [+inf]. *)
Theorem full_trainer_without_positive_cell (inv_sqrt_factors : Q) (R : matrix)
    (g : gen) (adam : optimizer) :
  Forall (Forall (λ r, positive r = false)) R →
  let run := hybrid_run randn adam_step inv_sqrt_factors R g adam in
  (∀ e, loss_at (hybrid_loss R) (adam_step R)
          (hybrid_init randn inv_sqrt_factors R g, adam) e = NaN)
  ∧ run.2 = 3 ∧ best_loss run.1 = PInf.
Proof.
  intros HR. cbv zeta.
  assert (Hnan : ∀ s, hybrid_loss (optimizer := optimizer) R s = NaN).
  { intros s. unfold hybrid_loss. cbv zeta.
    assert (Hmse : hybrid_mse_loss R (predict s.1) = NaN).
    { unfold hybrid_mse_loss. cbv zeta. unfold fdiv.
      rewrite (Qeq_eq_bool _ _ (no_positive_mask R HR)).
      assert (Hnum : (tsum (mmul (mask_of R) (sq_err R (predict s.1))) == 0)%Q).
      { rewrite masked_err_sum, no_positive_observed by done. reflexivity. }
      by rewrite (Qeq_eq_bool _ _ Hnum). }
    by rewrite Hmse. }
  split; [intros e; apply Hnan|].
  unfold hybrid_run.
  destruct (never_improving_run (hybrid_loss R) (adam_step R) hybrid_patience
              (hybrid_init randn inv_sqrt_factors R g, adam)
              ltac:(unfold hybrid_patience; lia) hybrid_epochs
              ltac:(unfold hybrid_patience, hybrid_epochs; lia))
    as (Hn & Hb & _).
  { intros i. unfold loss_at. by rewrite Hnan. }
  done.
Qed.
End TrainerRuns.

Lemma quick_trainer_runs_six_epochs_witness :
  flt (loss_at (cf_loss (λ _, 0%Q) [[1%Q]]) (idle_step [[1%Q]])
         (cf_init zeros_randn [[1%Q]] tt, tt) 0) PInf = true
  ∧ 6 ≤ (cf_run zeros_randn (λ _, 0%Q) idle_step [[1%Q]] tt tt).2 ≤ 50
  ∧ (cf_run_with zeros_randn idle_step (λ _, PInf) [[1%Q]] tt tt).2 = 5.
Proof.
  assert (H : flt (loss_at (cf_loss (λ _, 0%Q) [[1%Q]]) (idle_step [[1%Q]])
                     (cf_init zeros_randn [[1%Q]] tt, tt) 0) PInf = true)
    by (vm_compute; reflexivity).
  split; [exact H|].
  destruct (quick_trainer_runs_six_epochs zeros_randn (λ _, 0%Q) idle_step
              (cf_loss (λ _, 0%Q) [[1%Q]]) [[1%Q]] tt tt) as (Heq & Hfirst & _).
  destruct (quick_trainer_runs_six_epochs zeros_randn (λ _, 0%Q) idle_step
              (λ _, PInf) [[1%Q]] tt tt) as (_ & _ & Hnever).
  split; [rewrite Heq; exact (Hfirst H)|].
  apply Hnever. intros i. reflexivity.
Defined.

Lemma full_trainer_without_positive_cell_witness :
  Forall (Forall (λ r, positive r = false)) [[0; 0]; [0; 0]]%Q
  ∧ (hybrid_run zeros_randn idle_step (1 # 11) [[0; 0]; [0; 0]]%Q tt tt).2 = 3.
Proof.
  assert (H : Forall (Forall (λ r, positive r = false)) [[0; 0]; [0; 0]]%Q)
    by (repeat constructor).
  split; [exact H|].
  exact (proj1 (proj2 (full_trainer_without_positive_cell zeros_randn idle_step
                         (1 # 11) _ tt tt H))).
Defined.

(* ================================================================= *)
(** * Further properties of the rankings *)



(** X4. In [evaluate_business_recommendations], on a row of similarities
    that are numbers, a cutoff below the number of businesses never
    recommends a business to itself. *)
Theorem business_not_recommended_to_itself (k : Z) (similarities : list Q) (i : nat) :
  (0 ≤ k)%Z → i < length similarities → Z.to_nat k < length similarities →
  i ∉ top_k k (<[i := NInf]> (Fin <$> similarities)).
Proof.
  intros Hk Hi Hroom Htop.
  refine (top_k_avoids_excluded k (<[i := NInf]> (Fin <$> similarities)) [i]
            Hk _ _ _ _ i Htop _).
  - apply NoDup_singleton.
  - intros j Hj. apply list_elem_of_singleton in Hj as ->.
    apply list_lookup_insert_eq. by rewrite length_fmap.
  - intros j Hj Hne. rewrite length_insert, length_fmap in Hj.
    rewrite list_lookup_insert_ne by (intros ->; apply Hne; by apply list_elem_of_singleton).
    rewrite list_lookup_fmap.
    destruct (similarities !! j) as [q|] eqn:Hq; [by exists q|].
    apply lookup_ge_None in Hq. lia.
  - rewrite length_insert, length_fmap. simpl. lia.
  - by apply list_elem_of_singleton.
Qed.

Lemma business_not_recommended_to_itself_witness :
  1 ∉ top_k 2 (<[1 := NInf]> (Fin <$> [1 # 2; 1; 1 # 3]%Q)).
Proof.
  apply (business_not_recommended_to_itself 2 [1 # 2; 1; 1 # 3]%Q 1);
    [lia | simpl; lia | simpl; lia].
Defined.

(* ================================================================= *)
(** * Further properties of [evaluate_collaborative_filtering] *)

Lemma for_each_Forall {A B} (body : A → result (option B)) (P : B → Prop)
    (l : list A) (out : list B) :
  (∀ a b, body a = Ok (Some b) → P b) →
  for_each body l = Ok out → Forall P out.
Proof.
  intros Hbody. revert out. induction l as [|a l IH]; intros out H; simpl in H.
  - injection H as <-. constructor.
  - bind_in H as o Ho. bind_in H as rest Hrest. injection H as <-.
    destruct o as [b|]; [|by apply IH].
    constructor; [by eapply Hbody | by apply IH].
Qed.

Lemma qsum_bounds (l : list Q) :
  Forall (λ x, 0 <= x <= 1)%Q l → (0 <= qsum l <= Qnat (length l))%Q.
Proof.
  induction 1 as [|x l [Hx0 Hx1] _ [IH0 IH1]].
  - split; vm_compute; discriminate.
  - simpl qsum. simpl length. rewrite Qnat_S. lra.
Qed.

Lemma mean_or_zero_unit_interval (l : list Q) :
  Forall (λ x, 0 <= x <= 1)%Q l → (0 <= mean_or_zero l <= 1)%Q.
Proof.
  intros Hl. destruct l as [|x l]; [simpl; lra|].
  unfold mean_or_zero, mean. fold (Qnat (length (x :: l))).
  destruct (qsum_bounds _ Hl) as [H0 H1].
  apply Qdiv_unit_interval; [done | done |].
  apply Qnat_pos. simpl. lia.
Qed.

Lemma f1_score_unit_interval (p r v : Q) :
  (0 <= p <= 1)%Q → (0 <= r <= 1)%Q → f1_score p r = Ok v → (0 <= v <= 1)%Q.
Proof.
  intros Hp Hr. unfold f1_score. destruct (Qltb 0 (p + r)) eqn:Hlt.
  - apply Qltb_lt in Hlt. rewrite py_div_ok by lra. intros [= <-].
    apply Qdiv_unit_interval; nra.
  - intros [= <-]. lra.
Qed.

(** The bounds of one user's precision and recall. *)
Lemma user_metrics_unit_interval (k : Z) (predicted train : matrix)
    (mask : list (list bool)) (u : nat) (pr : Q * Q) :
  (1 ≤ k)%Z →
  user_metrics k predicted train mask u = Ok (Some pr) →
  (0 <= pr.1 <= 1)%Q ∧ (0 <= pr.2 <= 1)%Q.
Proof.
  intros Hk Hu. destruct pr as [p r].
  apply user_metrics_Some in Hu
    as (mask_row & train_row & pred_row & scores & _ & _ & _ & Htest & _ & Hp & Hr).
  assert (Hlen : length (top_k k scores) ≤ Z.to_nat k).
  { rewrite length_top_k by lia. lia. }
  simpl. split.
  - destruct (decide (length (top_k k scores) = 0)) as [Hz|Hnz].
    + unfold precision_of in Hp. rewrite Hz in Hp. simpl in Hp.
      injection Hp as <-. lra.
    + rewrite precision_of_ok in Hp by (done || lia). injection Hp as <-.
      apply Qdiv_unit_interval;
        [apply Qnat_nonneg | apply Qnat_le, n_common_le_l | apply Qnat_pos; lia].
  - assert (0 < length (where_ id mask_row)).
    { destruct (where_ id mask_row); simpl; [done | lia]. }
    rewrite recall_of_ok in Hr by done. injection Hr as <-.
    apply Qdiv_unit_interval;
      [apply Qnat_nonneg | apply Qnat_le, n_common_le_r | by apply Qnat_pos].
Qed.

Section ReportedMetrics.
Context {rng : Type}.
Variable choice : rng → list nat → nat → list nat * rng.
Variable sqrt : Q → Q.

(** X5. For every cutoff [k ≥ 1] and every input, the precision@k,
    recall@k and f1@k that [evaluate_collaborative_filtering] reports lie
    in [0, 1], whether they are averages over the evaluated users or the
    zeros of the [except] branch. *)
Theorem reported_metrics_in_unit_interval (model : cf_model) (M : matrix)
    (test_size : Q) (k : Z) (g : rng) :
  (1 ≤ k)%Z →
  let m := evaluate_collaborative_filtering choice sqrt model M test_size k g in
  (0 <= precision_at_k m <= 1)%Q ∧ (0 <= recall_at_k m <= 1)%Q
  ∧ (0 <= f1_at_k m <= 1)%Q.
Proof.
  intros Hk. cbv zeta. unfold evaluate_collaborative_filtering.
  destruct (evaluate_cf_body choice sqrt model M test_size k g) as [m|e] eqn:Hbody.
  2:{ simpl. lra. }
  unfold evaluate_cf_body in Hbody.
  bind_in Hbody as test_mask Hmask.
  bind_in Hbody as predicted Hpred.
  bind_in Hbody as test_ratings Htest.
  bind_in Hbody as predicted_test Hptest.
  bind_in Hbody as mse Hmse.
  bind_in Hbody as per_user Husers.
  bind_in Hbody as f1 Hf1.
  injection Hbody as <-. simpl.
  pose proof (for_each_Forall _ (λ pr, (0 <= pr.1 <= 1)%Q ∧ (0 <= pr.2 <= 1)%Q) _ _
                (λ u pr, user_metrics_unit_interval k _ _ _ u pr Hk) Husers) as Hall.
  assert (Hp : (0 <= mean_or_zero per_user.*1 <= 1)%Q).
  { apply mean_or_zero_unit_interval, Forall_fmap.
    eapply Forall_impl; [exact Hall|]. by intros pr [? _]. }
  assert (Hr : (0 <= mean_or_zero per_user.*2 <= 1)%Q).
  { apply mean_or_zero_unit_interval, Forall_fmap.
    eapply Forall_impl; [exact Hall|]. by intros pr [_ ?]. }
  split; [done|]. split; [done|]. exact (f1_score_unit_interval _ _ _ Hp Hr Hf1).
Qed.

(** X6. The holdout splits the positive cells of every user row: in the
    training matrix the test cells are zero and every other cell is as in
    the interaction matrix, so the training-observed items of a user are
    exactly the positive items that are not test items. *)
Theorem train_items_are_positive_items_not_held_out (test_size : Q) (M : matrix)
    (g : rng) (mask : list (list bool)) :
  choice_ok choice →
  holdout choice test_size M g = Ok mask →
  ∀ u row mask_row, M !! u = Some row → mask !! u = Some mask_row →
    ∃ train_row, zero_out M mask !! u = Some train_row
      ∧ length train_row = length row
      ∧ (∀ j x, row !! j = Some x →
           train_row !! j = Some (if decide (j ∈ where_ id mask_row) then 0%Q else x))
      ∧ ∀ j, j ∈ where_ positive train_row
             ↔ j ∈ where_ positive row ∧ j ∉ where_ id mask_row.
Proof.
  intros Hchoice Hmask u row mask_row Hrow Hmrow.
  destruct (holdout_rows choice Hchoice test_size M g mask Hmask u row Hrow)
    as (mask_row' & Hmrow' & Hok).
  assert (mask_row' = mask_row) as -> by congruence.
  destruct Hok as (Hlen & _).
  assert (Hz : zero_out M mask !! u
               = Some (zip_with (λ (x : Q) (b : bool), if b then 0%Q else x) row mask_row)).
  { unfold zero_out, map2, matrix in *. by rewrite lookup_zip_with, Hrow, Hmrow. }
  eexists. split; [exact Hz|].
  assert (Hcell : ∀ j x, row !! j = Some x →
            zip_with (λ (x : Q) (b : bool), if b then 0%Q else x) row mask_row !! j
            = Some (if decide (j ∈ where_ id mask_row) then 0%Q else x)).
  { intros j x Hx. rewrite lookup_zip_with, Hx. simpl.
    destruct (mask_row !! j) as [b|] eqn:Hb.
    2:{ apply lookup_ge_None in Hb. apply lookup_lt_Some in Hx. lia. }
    simpl. f_equal. destruct b.
    - rewrite decide_True; [done|]. apply elem_of_where. by rewrite Hb.
    - rewrite decide_False; [done|]. rewrite elem_of_where, Hb. done. }
  split; [rewrite length_zip_with; lia|]. split; [exact Hcell|].
  intros j. rewrite !elem_of_where. split.
  - intros Hj.
    destruct (zip_with _ row mask_row !! j) as [t|] eqn:Ht; [|done].
    simpl in Hj. injection Hj as Hpos.
    destruct (row !! j) as [x|] eqn:Hx.
    2:{ apply lookup_ge_None in Hx. apply lookup_lt_Some in Ht.
        rewrite length_zip_with in Ht. lia. }
    rewrite (Hcell j x Hx) in Ht. injection Ht as <-.
    destruct (decide (j ∈ where_ id mask_row)) as [Hin|Hout]; [done|].
    split; [simpl; by rewrite Hpos|].
    intros Hc. by apply Hout, elem_of_where.
  - intros [Hj Hout].
    destruct (row !! j) as [x|] eqn:Hx; [|done]. simpl in Hj. injection Hj as Hpos.
    rewrite (Hcell j x Hx). rewrite decide_False by (by rewrite elem_of_where).
    simpl. by rewrite Hpos.
Qed.
End ReportedMetrics.

Lemma reported_metrics_in_unit_interval_witness :
  let m := evaluate_collaborative_filtering first_choice (λ x, x)
             (FactorDict (Some [[1%Q]]) (Some [[1; 2; 3; 4; 5; 6; 7]%Q]))
             [[1; 1; 1; 1; 1; 1; 0]%Q] (1 # 5) 3 tt in
  (1 ≤ 3)%Z ∧ (0 <= precision_at_k m <= 1)%Q.
Proof.
  assert (Hk : (1 ≤ 3)%Z) by lia.
  split; [exact Hk|].
  exact (proj1 (reported_metrics_in_unit_interval first_choice (λ x, x)
                  (FactorDict (Some [[1%Q]]) (Some [[1; 2; 3; 4; 5; 6; 7]%Q]))
                  [[1; 1; 1; 1; 1; 1; 0]%Q] (1 # 5) 3 tt Hk)).
Defined.

Lemma train_items_are_positive_items_not_held_out_witness :
  ∃ train_row,
    zero_out [[1; 1; 1; 1; 1; 1; 0]%Q] [[true; false; false; false; false; false; false]] !! 0
    = Some train_row
    ∧ ∀ j, j ∈ where_ positive train_row
           ↔ j ∈ where_ positive [1; 1; 1; 1; 1; 1; 0]%Q
             ∧ j ∉ where_ id [true; false; false; false; false; false; false].
Proof.
  destruct (train_items_are_positive_items_not_held_out first_choice
              (1 # 5) [[1; 1; 1; 1; 1; 1; 0]%Q] tt
              [[true; false; false; false; false; false; false]]
              first_choice_ok ltac:(vm_compute; reflexivity) 0 _ _ eq_refl eq_refl)
    as (train_row & Hrow & _ & _ & Hitems).
  exists train_row. split; [exact Hrow | exact Hitems].
Defined.

(* ================================================================= *)
(** * Shapes of products, and the loss of the quick trainer *)

Lemma length_transpose (B : matrix) : length (transpose B) = n_cols B.
Proof. unfold transpose. by rewrite length_map, length_seq. Qed.

Lemma matmul_shape (A B : matrix) (n k m : nat) :
  has_shape A n k → has_shape B k m → 0 < k → has_shape (matmul A B) n m.
Proof.
  intros [HA _] HB Hk. unfold matmul. split; [by rewrite length_map|].
  apply Forall_map, Forall_forall. intros row _. simpl.
  rewrite length_map, length_transpose. by apply (has_shape_n_cols B k m).
Qed.

Lemma has_shape_map_map {A B} (f : A → B) (M : list (list A)) (r c : nat) :
  has_shape M r c → has_shape (map (map f) M) r c.
Proof.
  intros [Hlen Hrows]. split; [by rewrite length_map|].
  apply Forall_map. eapply Forall_impl; [exact Hrows|].
  intros row Hrow. simpl. by rewrite length_map.
Qed.

Section QuickTrainerShapes.
Context {gen optimizer : Type}.
Variable randn : nat → nat → gen → matrix * gen.
Variable norm : matrix → Q.
Variable adam_step : matrix → factors * optimizer → factors * optimizer.

(** X7. On a rectangular interaction matrix with at least one user, in
    every epoch of the quick trainer the user factors have one row of 32
    numbers per user, the post factors 32 rows of one number per post, and
    the predicted ratings have the shape of the interaction matrix, so that
    the mask, the difference and the product of the loss are taken between
    arrays of one shape. *)
Theorem quick_trainer_shapes_every_epoch (R : matrix) (r c : nat) (g : gen)
    (adam : optimizer) (e : nat) :
  randn_shaped randn → step_keeps_shapes adam_step →
  has_shape R r c → 0 < r →
  let s := params_at (adam_step R) (cf_init randn R g, adam) e in
  has_shape (user_factors s.1) r 32
  ∧ has_shape (item_factors s.1) 32 c
  ∧ has_shape (predict s.1) r c
  ∧ same_shape R (predict s.1)
  ∧ same_shape (mask_of R) (predict s.1).
Proof.
  intros Hrandn Hstep HR Hrows. cbv zeta.
  set (s := params_at (adam_step R) (cf_init randn R g, adam) e).
  assert (Hr : n_rows R = r) by (by destruct HR).
  assert (Hc : n_cols R = c) by (by apply (has_shape_n_cols R r c)).
  destruct (cf_init_shapes randn R g Hrandn) as [Hu Hi].
  rewrite Hr in Hu. rewrite Hc in Hi.
  destruct (params_at_shapes adam_step R (cf_init randn R g, adam) e _ _ _ _ Hstep Hu Hi)
    as [Hu' Hi']. fold s in Hu', Hi'.
  assert (HP : has_shape (predict s.1) r c).
  { unfold predict. apply (matmul_shape _ _ r 32 c); [done | done | lia]. }
  split_and!; [done | done | done | by apply (has_shape_same _ _ r c) |].
  apply (has_shape_same _ _ r c); [|done].
  unfold mask_of. by apply has_shape_map_map.
Qed.
End QuickTrainerShapes.

Lemma quick_trainer_shapes_every_epoch_witness :
  has_shape [[1; 0]%Q] 1 2
  ∧ has_shape (predict (params_at (idle_step [[1; 0]%Q])
                          (cf_init zeros_randn [[1; 0]%Q] tt, tt) 4).1) 1 2.
Proof.
  assert (HR : has_shape [[1; 0]%Q] 1 2)
    by (split; [reflexivity | repeat constructor]).
  split; [exact HR|].
  destruct (quick_trainer_shapes_every_epoch zeros_randn idle_step
              [[1; 0]%Q] 1 2 tt tt 4 zeros_randn_shaped idle_step_keeps_shapes
              HR ltac:(lia))
    as (_ & _ & HP & _).
  exact HP.
Defined.

(* ================================================================= *)
(** * Further properties of the two evaluators of the factorisation *)

Section SplitFacts.
Context {rng : Type}.
Variable choice : rng → list nat → nat → list nat * rng.
Variable seed : nat → rng.
Variable sqrt : Q → Q.

(** X8. When no user has more than 5 positive interactions (in
    particular on an all-zero matrix), [evaluate_collaborative_filtering]
    samples no test cell and returns the all-zero record, whatever the model
    and the cutoff. *)
Theorem sparse_users_give_zero_record (model : cf_model) (M : matrix)
    (test_size : Q) (k : Z) (g : rng) :
  Forall (λ row, length (where_ positive row) ≤ 5) M →
  holdout choice test_size M g = Ok (map (λ row, replicate (length row) false) M)
  ∧ evaluate_collaborative_filtering choice sqrt model M test_size k g
    = Metrics 0 0 0 0.
Proof.
  intros Hsparse. split.
  - by apply holdout_sparse.
  - by apply evaluate_cf_without_test_cells.
Qed.

(** X9. The split of [evaluate_post_collaborative_filtering] never
    changes the test matrix: it is the interaction matrix itself, while
    every cell of the training matrix is the original value or zero. *)
Theorem post_split_keeps_test_matrix (M train_matrix test_matrix : matrix) :
  post_split choice seed M = Ok (train_matrix, test_matrix) →
  test_matrix = M ∧ held_out M train_matrix.
Proof.
  unfold post_split. intros H. bind_in H as sample Hsample.
  destruct sample as [idxs g']. simpl in H.
  by apply hold_out_cells_test_unchanged in H; [|apply held_out_refl].
Qed.
End SplitFacts.

Lemma sparse_users_give_zero_record_witness :
  Forall (λ row, length (where_ positive row) ≤ 5) [[0; 0; 0]; [1; 1; 0]]%Q
  ∧ evaluate_collaborative_filtering first_choice (λ x, x) OtherModel
      [[0; 0; 0]; [1; 1; 0]]%Q (1 # 5) 10 tt = Metrics 0 0 0 0.
Proof.
  assert (H : Forall (λ row, length (where_ positive row) ≤ 5) [[0; 0; 0]; [1; 1; 0]]%Q).
  { repeat constructor; vm_compute; lia. }
  split; [exact H|].
  exact (proj2 (sparse_users_give_zero_record first_choice (λ x, x) OtherModel
                  _ (1 # 5) 10 tt H)).
Defined.

Lemma post_split_keeps_test_matrix_witness :
  let M := [[1; 0; 0; 0; 0; 0; 0; 0; 0; 1]%Q] in
  post_split first_choice (λ _, tt) M
  = Ok ([[0; 0; 0; 0; 0; 0; 0; 0; 0; 1]%Q], M)
  ∧ held_out M [[0; 0; 0; 0; 0; 0; 0; 0; 0; 1]%Q].
Proof.
  cbv zeta.
  assert (H : post_split first_choice (λ _, tt) [[1; 0; 0; 0; 0; 0; 0; 0; 0; 1]%Q]
              = Ok ([[0; 0; 0; 0; 0; 0; 0; 0; 0; 1]%Q],
                    [[1; 0; 0; 0; 0; 0; 0; 0; 0; 1]%Q]))
    by (vm_compute; reflexivity).
  split; [exact H|].
  exact (proj2 (post_split_keeps_test_matrix first_choice (λ _, tt) _ _ _ H)).
Defined.

(* ================================================================= *)
(** ** Dictionaries and the ID mappings of the trainers *)

Section DictFacts.
Context {K V : Type} `{EqDecision K}.
Implicit Types (d items : list (K * V)).

Lemma dict_get_set k k' v d :
  dict_get k' (dict_set k v d)
  = if decide (k' = k) then Some v else dict_get k' d.
Proof.
  induction d as [|[k0 v0] d IH]; simpl.
  - by destruct (decide (k' = k)).
  - destruct (decide (k = k0)) as [->|Hne]; simpl.
    + by destruct (decide (k' = k0)).
    + destruct (decide (k' = k0)) as [->|Hne'].
      * by rewrite decide_False.
      * exact IH.
Qed.

Lemma dict_set_fresh k v d : k ∉ d.*1 → dict_set k v d = d ++ [(k, v)].
Proof.
  induction d as [|[k0 v0] d IH]; simpl; [done|].
  intros Hk. apply not_elem_of_cons in Hk as [Hne Hk].
  rewrite decide_False by done. by rewrite IH.
Qed.

Lemma dict_of_snoc items kv :
  dict_of (items ++ [kv]) = dict_set kv.1 kv.2 (dict_of items).
Proof. unfold dict_of. by rewrite foldl_app. Qed.

Lemma dict_of_NoDup items : NoDup items.*1 → dict_of items = items.
Proof.
  induction items as [|[k v] items IH] using rev_ind; [done|].
  rewrite fmap_app, dict_of_snoc. simpl. intros Hnd.
  apply NoDup_app in Hnd as (Hnd & Hk & _).
  rewrite IH by done. apply dict_set_fresh.
  intros Hin. apply (Hk k Hin). left.
Qed.

Lemma dict_get_elem k v d : dict_get k d = Some v → (k, v) ∈ d.
Proof.
  induction d as [|[k0 v0] d IH]; simpl; [done|].
  destruct (decide (k = k0)) as [->|Hne].
  - intros [= ->]. left.
  - intros Hg. right. by apply IH.
Qed.

Lemma dict_get_NoDup k v d : NoDup d.*1 → (k, v) ∈ d → dict_get k d = Some v.
Proof.
  induction d as [|[k0 v0] d IH]; simpl.
  - by intros _ ?%elem_of_nil.
  - intros [Hk Hnd]%NoDup_cons [[= -> ->]|Hin]%elem_of_cons.
    + by rewrite decide_True.
    + destruct (decide (k = k0)) as [->|Hne]; [|by apply IH].
      exfalso. apply Hk. apply list_elem_of_fmap. by exists (k0, v).
Qed.

Lemma dict_set_keys k v d :
  (k ∈ d.*1 ∧ (dict_set k v d).*1 = d.*1)
  ∨ ((k ∉ d.*1) ∧ (dict_set k v d).*1 = d.*1 ++ [k]).
Proof.
  induction d as [|[k0 v0] d IH]; cbn [dict_set fst].
  - right. split; [apply not_elem_of_nil | done].
  - destruct (decide (k = k0)) as [->|Hne]; rewrite !fmap_cons; cbn [fst].
    + left. split; [left | done].
    + destruct IH as [[Hin Heq]|[Hin Heq]]; rewrite Heq.
      * left. split; [by right | done].
      * right. split; [|done]. by apply not_elem_of_cons.
Qed.

Lemma dict_of_keys_NoDup items : NoDup (dict_of items).*1.
Proof.
  induction items as [|[k v] items IH] using rev_ind; [constructor|].
  rewrite dict_of_snoc. simpl.
  destruct (dict_set_keys k v (dict_of items)) as [[Hin Heq]|[Hin Heq]];
    rewrite Heq; [done|].
  apply NoDup_app. split_and!; [done | | apply NoDup_singleton].
  intros x Hx ->%list_elem_of_singleton. by apply Hin.
Qed.
End DictFacts.

Lemma mapM_Ok_length {A B} (f : A → result B) l ks :
  mapM f l = Ok ks → length ks = length l.
Proof.
  revert ks. induction l as [|x l IH]; simpl; intros ks.
  - by intros [= <-].
  - destruct (f x) as [y|e]; [|done]. simpl.
    destruct (mapM f l) as [ks'|e]; [|done]. simpl.
    intros [= <-]. simpl. f_equal. by apply IH.
Qed.

Lemma mapM_Ok_lookup {A B} (f : A → result B) l ks i :
  mapM f l = Ok ks →
  (∀ k, ks !! i = Some k ↔ ∃ x, l !! i = Some x ∧ f x = Ok k).
Proof.
  revert ks i. induction l as [|x l IH]; simpl; intros ks i.
  - intros [= <-] k. rewrite lookup_nil. split; [done|]. by intros (? & ? & _).
  - destruct (f x) as [y|e] eqn:Hfx; [|done]. simpl.
    destruct (mapM f l) as [ks'|e]; [|done]. simpl.
    intros [= <-] k. destruct i as [|i]; simpl.
    + split.
      * intros [= <-]. by exists x.
      * intros (x' & [= <-] & Hk). congruence.
    + by apply IH.
Qed.

(** The dictionary of an enumeration sends a key to the last position that
    carries it. *)
Lemma dict_of_enumerate {K} `{EqDecision K} (keys : list K) k i :
  dict_get k (dict_of (imap (λ i k, (k, i)) keys)) = Some i
  ↔ keys !! i = Some k ∧ ∀ j, i < j → keys !! j ≠ Some k.
Proof.
  revert k i. induction keys as [|x keys IH] using rev_ind; intros k i.
  - simpl. split; [done|]. by intros [? _].
  - rewrite imap_app. simpl. rewrite dict_of_snoc, dict_get_set. simpl.
    rewrite Nat.add_0_r.
    destruct (decide (k = x)) as [->|Hne].
    + split.
      * intros [= <-]. split.
        -- by rewrite lookup_app_r, Nat.sub_diag.
        -- intros j Hj. rewrite lookup_ge_None_2; [done|].
           rewrite length_app. simpl. lia.
      * intros [Hi Hlast]. f_equal.
        apply lookup_lt_Some in Hi as Hlt. rewrite length_app in Hlt.
        simpl in Hlt.
        destruct (decide (i = length keys)) as [->|Hne]; [done|].
        exfalso. apply (Hlast (length keys)); [lia|].
        by rewrite lookup_app_r, Nat.sub_diag.
    + rewrite IH. split.
      * intros [Hi Hlast]. split.
        -- by apply lookup_app_l_Some.
        -- intros j Hj Hjk. apply lookup_app_Some in Hjk as [Hjk|[_ Hjk]].
           ++ by apply (Hlast j).
           ++ apply list_lookup_singleton_Some in Hjk as [_ ->]. done.
      * intros [Hi Hlast].
        apply lookup_app_Some in Hi as [Hi|[_ Hi]].
        -- split; [done|]. intros j Hj Hjk. apply (Hlast j Hj).
           by apply lookup_app_l_Some.
        -- apply list_lookup_singleton_Some in Hi as [_ ->]. done.
Qed.

Lemma dict_get_iff_elem {K V} `{EqDecision K} (d : list (K * V)) k v :
  NoDup d.*1 → dict_get k d = Some v ↔ (k, v) ∈ d.
Proof.
  intros Hnd. split; [apply dict_get_elem | by apply dict_get_NoDup].
Qed.

Lemma enumerate_values_NoDup {K} `{EqDecision K} (keys : list K) :
  NoDup (dict_of (imap (λ i k, (k, i)) keys)).*2.
Proof.
  set (m := dict_of _).
  assert (Hnd : NoDup m.*1) by apply dict_of_keys_NoDup.
  apply NoDup_fmap_2_strong; [|by eapply NoDup_fmap_1].
  intros [k i] [k' i'] Hin Hin' Heq. simpl in Heq. subst i'.
  apply (dict_get_NoDup _ _ _ Hnd) in Hin, Hin'.
  apply dict_of_enumerate in Hin as [Hin _], Hin' as [Hin' _].
  congruence.
Qed.

Section IdMapFacts.
Context {L K : Type} `{EqDecision K}.
Variable key_of : L → result K.

(** X10.  The ID maps that the trainers return for one axis of the matrix
    ([user_id_map] with [reverse_user_map], [post_id_map] with
    [reverse_post_map]): the reverse map is the exact inverse of the map, and
    the map sends a key to the last row (or column) whose label converts to
    that key, so that of several labels with one key only the last can be
    reached. *)
Theorem id_maps_round_trip labels m r :
  id_maps key_of labels = Ok (m, r) →
  (∀ k i, dict_get k m = Some i ↔ dict_get i r = Some k) ∧
  (∀ k i, dict_get k m = Some i ↔
     (∃ l, labels !! i = Some l ∧ key_of l = Ok k) ∧
     (∀ j l, i < j → labels !! j = Some l → key_of l ≠ Ok k)) ∧
  length r = length m ∧ length m ≤ length labels.
Proof.
  unfold id_maps, id_map.
  destruct (mapM key_of labels) as [keys|e] eqn:Hkeys; [|done]. simpl.
  intros [= <- <-].
  set (m := dict_of (imap (λ i k, (k, i)) keys)).
  assert (Hnd : NoDup m.*1) by apply dict_of_keys_NoDup.
  assert (Hswap : (map (λ kv : K * nat, (kv.2, kv.1)) m).*1 = m.*2).
  { rewrite <- list_fmap_compose. done. }
  assert (Hnd' : NoDup (map (λ kv : K * nat, (kv.2, kv.1)) m).*1).
  { rewrite Hswap. apply enumerate_values_NoDup. }
  assert (Hr : reverse_map m = map (λ kv : K * nat, (kv.2, kv.1)) m).
  { by apply dict_of_NoDup. }
  split_and!.
  - intros k i. rewrite Hr.
    rewrite (dict_get_iff_elem m) by done.
    rewrite (dict_get_iff_elem (map _ m)) by done.
    rewrite list_elem_of_fmap. split.
    + intros Hin. by exists (k, i).
    + intros ([k' i'] & [= -> ->] & Hin). done.
  - intros k i. unfold m. rewrite dict_of_enumerate.
    rewrite (mapM_Ok_lookup _ _ _ i Hkeys k). split.
    + intros [Hi Hlast]. split; [done|].
      intros j l Hj Hl Hk. apply (Hlast j Hj).
      apply (mapM_Ok_lookup _ _ _ j Hkeys k). by exists l.
    + intros [Hi Hlast]. split; [done|].
      intros j Hj Hjk.
      apply (mapM_Ok_lookup _ _ _ j Hkeys k) in Hjk as (l & Hl & Hk).
      by apply (Hlast j l).
  - rewrite Hr. by rewrite length_map.
  - rewrite <- (mapM_Ok_length _ _ _ Hkeys).
    rewrite <- (length_fmap snd m).
    assert (Hsub : (m.*2) ⊆+ seq 0 (length keys)).
    { apply NoDup_submseteq; [apply enumerate_values_NoDup|].
      intros i (kv & -> & Hin)%list_elem_of_fmap.
      destruct kv as [k i]. simpl.
      apply (dict_get_NoDup _ _ _ Hnd) in Hin.
      apply dict_of_enumerate in Hin as [Hin _].
      apply lookup_lt_Some in Hin. apply elem_of_seq. lia. }
    apply submseteq_length in Hsub. by rewrite length_seq in Hsub.
Qed.

End IdMapFacts.

Lemma id_maps_round_trip_witness :
  id_maps (λ l : nat, Ok l) [7; 8; 7]%nat
    = Ok ([(7, 2); (8, 1)]%nat, [(2, 7); (1, 8)]%nat) ∧
  dict_get 7%nat [(7, 2); (8, 1)]%nat = Some 2%nat.
Proof.
  assert (H : id_maps (λ l : nat, Ok l) [7; 8; 7]%nat
              = Ok ([(7, 2); (8, 1)]%nat, [(2, 7); (1, 8)]%nat))
    by (vm_compute; reflexivity).
  split; [exact H|].
  apply (proj1 (id_maps_round_trip _ _ _ _ H)). vm_compute. reflexivity.
Defined.

(* ================================================================= *)
(** ** Frames without duplicates: the business maps and the posts of a
       company *)

Lemma elem_of_drop_duplicates {K} `{EqDecision K} (l : list K) x :
  x ∈ drop_duplicates l ↔ x ∈ l.
Proof.
  induction l as [|y l IH]; simpl; [done|].
  rewrite !elem_of_cons, list_elem_of_filter, IH. split.
  - intros [Hx|[_ Hx]]; [by left | by right].
  - intros [Hx|Hx]; [by left|].
    destruct (decide (x = y)); [by left | by right].
Qed.

Lemma NoDup_drop_duplicates {K} `{EqDecision K} (l : list K) :
  NoDup (drop_duplicates l).
Proof.
  induction l as [|y l IH]; simpl; [constructor|].
  apply NoDup_cons. split; [|by apply NoDup_filter].
  rewrite list_elem_of_filter. by intros [Hy _].
Qed.

Lemma drop_duplicates_NoDup {K} `{EqDecision K} (l : list K) :
  NoDup l → drop_duplicates l = l.
Proof.
  induction l as [|y l IH]; simpl; [done|].
  intros [Hy Hnd]%NoDup_cons. rewrite IH by done. f_equal.
  clear IH Hnd. induction l as [|z l IH]; [done|].
  apply not_elem_of_cons in Hy as [Hne Hy].
  rewrite filter_cons_True by done. f_equal. by apply IH.
Qed.

(** X11.  The maps of [train_content_based_business]: a business name of
    the input frame, duplicated or not, has one ID, that ID has one index,
    and the index is the row of the name in the frame without duplicates,
    that is, its row in the similarity matrix; IDs are the index plus
    one. *)
Theorem business_maps_compose {K} `{EqDecision K} (names : list K) (name : K) :
  name ∈ names →
  let '(business_names, business_id_map, business_idx_map) :=
    business_id_maps names in
  ∃ idx,
    business_names !! idx = Some name ∧
    dict_get name business_id_map = Some (S idx) ∧
    dict_get (S idx) business_idx_map = Some idx ∧
    (∀ id, dict_get name business_id_map = Some id → id = S idx) ∧
    (∀ j, business_names !! j = Some name → j = idx).
Proof.
  intros Hin. unfold business_id_maps.
  set (bn := drop_duplicates names).
  assert (Hnd : NoDup bn) by apply NoDup_drop_duplicates.
  assert (Hbn : name ∈ bn) by by apply elem_of_drop_duplicates.
  apply list_elem_of_lookup_1 in Hbn as [idx Hidx].
  assert (Hlt : idx < length bn) by by eapply lookup_lt_Some.
  assert (Hkeys : (zip bn (seq 1 (length bn))).*1 = bn).
  { apply fst_zip. by rewrite length_seq. }
  assert (Hid : dict_get name (dict_of (zip bn (seq 1 (length bn))))
                = Some (S idx)).
  { rewrite dict_of_NoDup by by rewrite Hkeys.
    apply dict_get_NoDup; [by rewrite Hkeys|].
    apply list_elem_of_lookup_2 with idx.
    apply lookup_zip_with_Some. exists name, (S idx).
    split_and!; [done | done | by rewrite lookup_seq_lt]. }
  exists idx. split_and!; [done | done | | |].
  - apply dict_of_enumerate. split.
    + by rewrite lookup_seq_lt.
    + intros j Hj [Hjk _]%lookup_seq. lia.
  - intros id Hid'. congruence.
  - intros j Hj. by eapply NoDup_lookup.
Qed.

Lemma business_maps_compose_witness :
  let '(business_names, business_id_map, business_idx_map) :=
    business_id_maps [5; 6; 5; 9]%nat in
  ∃ idx,
    business_names !! idx = Some 9%nat ∧
    dict_get 9%nat business_id_map = Some (S idx) ∧
    dict_get (S idx) business_idx_map = Some idx ∧
    (∀ id, dict_get 9%nat business_id_map = Some id → id = S idx) ∧
    (∀ j, business_names !! j = Some 9%nat → j = idx).
Proof.
  apply (business_maps_compose [5; 6; 5; 9]%nat 9%nat).
  apply list_elem_of_lookup_2 with 3%nat. reflexivity.
Defined.

Lemma filter_ext_elem {A} (P Q : A → Prop) `{∀ x, Decision (P x)}
    `{∀ x, Decision (Q x)} (l : list A) :
  (∀ x, x ∈ l → P x ↔ Q x) → filter P l = filter Q l.
Proof.
  induction l as [|x l IH]; intros Hext; [done|].
  rewrite !filter_cons.
  rewrite IH by (intros y Hy; apply Hext; by right).
  destruct (decide (P x)) as [HP|HP], (decide (Q x)) as [HQ|HQ]; try done.
  - exfalso. apply HQ, Hext; [left | done].
  - exfalso. apply HP, Hext; [left | done].
Qed.

Lemma mapM_Ok_Forall2 {A B} (f : A → result B) (l : list A) (ys : list B) :
  mapM f l = Ok ys ↔ Forall2 (λ a y, f a = Ok y) l ys.
Proof.
  revert ys. induction l as [|a l IH]; intros ys; cbn [mapM].
  - split.
    + intros [= <-]. constructor.
    + intros Hnil. by apply Forall2_nil_inv_l in Hnil as ->.
  - split.
    + destruct (f a) as [y|e] eqn:Hy; [|done]. cbn [mbind result_bind].
      destruct (mapM f l) as [ys'|e]; [|done]. cbn [mbind result_bind].
      intros [= <-]. apply List.Forall2_cons; [done | by apply IH].
    + intros Hall. apply Forall2_cons_inv_l in Hall as (y & ys' & Hy & Hrest & ->).
      rewrite Hy. cbn [mbind result_bind].
      apply IH in Hrest as ->. done.
Qed.

Lemma mapM_total_in {A B} (f : A → result B) (l : list A) :
  Forall (λ a, ∃ y, f a = Ok y) l → ∃ ys, mapM f l = Ok ys.
Proof.
  induction 1 as [|a l [y Hy] _ [ys IH]]; cbn [mapM]; [by eexists|].
  rewrite Hy. cbn [mbind result_bind]. rewrite IH. by eexists.
Qed.

Lemma filter_split_disjoint {A} (P Q : A → Prop) `{∀ x, Decision (P x)}
    `{∀ x, Decision (Q x)} (l : list A) :
  (∀ x, P x → Q x → False) →
  filter (λ x, P x ∨ Q x) l ≡ₚ filter P l ++ filter Q l.
Proof.
  intros Hdisj. induction l as [|x l IH]; [done|].
  rewrite !filter_cons.
  destruct (decide (P x)) as [HP|HP], (decide (Q x)) as [HQ|HQ].
  - by destruct (Hdisj x).
  - rewrite decide_True by (by left). simpl. by rewrite IH.
  - rewrite decide_True by (by right). rewrite IH. apply Permutation_middle.
  - rewrite decide_False by (by intros [?|?]). exact IH.
Qed.

Section PostAffinityFacts.
Context {K : Type} `{EqDecision K}.
Implicit Types (company_posts : list (post K)) (name : option K).

Lemma posts_of_missing company_posts : posts_of company_posts None = [].
Proof.
  unfold posts_of. induction company_posts as [|p l IH]; [done|].
  rewrite filter_cons_False; [done|]. intros [[x Hx] _]. done.
Qed.

Lemma posts_of_groups company_posts (names : list (option K)) :
  NoDup names →
  concat (posts_of company_posts <$> names)
  ≡ₚ filter (λ p, is_Some (company_name p) ∧ company_name p ∈ names) company_posts.
Proof.
  induction 1 as [|x names Hx Hnd IH].
  - simpl. induction company_posts as [|p l IHl]; [done|].
    rewrite filter_cons_False; [done|]. intros [_ Hin]. by apply elem_of_nil in Hin.
  - rewrite fmap_cons. simpl. rewrite IH. unfold posts_of.
    rewrite <- filter_split_disjoint.
    + apply reflexive_eq. apply list_filter_iff. intros p. split.
      * intros [[Hsome Heq]|[Hsome Hin]].
        -- subst x. split; [done | by left].
        -- split; [done | by right].
      * intros [Hsome [Heq|Hin]%elem_of_cons].
        -- left. subst x. by split.
        -- right. by split.
    + intros p [_ <-] [_ Hin]. by apply Hx.
Qed.

Lemma post_info_of_Ok (p : post K) :
  (∃ info, post_info_of p = Ok info) ↔ ∃ q, post_id p = Fin q.
Proof.
  unfold post_info_of. destruct (post_id p) as [| |q|]; simpl; split;
    try (by intros [? ?]); by eexists.
Qed.

(** X12.  [create_business_post_affinity] returns exactly when every post
    that has a company name has a PostID that is a number.  Its keys are
    the company names in the order of their first post, a missing name
    among them; the entry of a company holds the records of its posts in
    the order of the frame and is never empty; the entry of the missing
    name is empty, so posts without a company name are filed nowhere; and
    the groups of the keys hold every post that has a company name exactly
    once. *)
Theorem business_post_affinity_partitions company_posts :
  ((∃ d, create_business_post_affinity company_posts = Ok d)
   ↔ Forall (λ p, is_Some (company_name p) → ∃ q, post_id p = Fin q) company_posts)
  ∧ ∀ d, create_business_post_affinity company_posts = Ok d →
      d.*1 = drop_duplicates (company_name <$> company_posts)
      ∧ (∀ name infos,
           dict_get name d = Some infos ↔
           name ∈ company_name <$> company_posts ∧
           mapM post_info_of (posts_of company_posts name) = Ok infos)
      ∧ (∀ x infos, dict_get (Some x) d = Some infos → infos ≠ [])
      ∧ (∀ infos, dict_get None d = Some infos → infos = [])
      ∧ concat (posts_of company_posts <$> d.*1)
        ≡ₚ filter (λ p, is_Some (company_name p)) company_posts
      ∧ length (concat d.*2)
        = length (filter (λ p, is_Some (company_name p)) company_posts).
Proof.
  unfold create_business_post_affinity.
  set (names := drop_duplicates (company_name <$> company_posts)).
  set (entry := λ name : option K,
         mapM post_info_of (posts_of company_posts name)
         ≫= λ posts_info, Ok (name, posts_info)).
  assert (Hnd : NoDup names) by apply NoDup_drop_duplicates.
  assert (Hentry : ∀ name item,
            entry name = Ok item ↔
            item.1 = name ∧ mapM post_info_of (posts_of company_posts name) = Ok item.2).
  { intros name [name' infos]. unfold entry.
    destruct (mapM post_info_of _) as [infos'|e]; simpl; split;
      try (by intros [=]); try (by intros [_ [=]]).
    - by intros [= <- <-].
    - by intros [-> [= ->]]. }
  assert (Hgroups : concat (posts_of company_posts <$> names)
            ≡ₚ filter (λ p, is_Some (company_name p)) company_posts).
  { rewrite posts_of_groups by done.
    apply reflexive_eq, filter_ext_elem. intros p Hp. split; [by intros [? _]|].
    intros Hsome. split; [done|].
    apply elem_of_drop_duplicates. by apply list_elem_of_fmap_2. }
  split.
  - split.
    + intros [d Hd]. destruct (mapM entry names) as [items|e] eqn:Hitems; [|done].
      apply mapM_Ok_Forall2 in Hitems.
      apply Forall_forall. intros p Hp Hsome.
      assert (Hname : company_name p ∈ names).
      { apply elem_of_drop_duplicates. by apply list_elem_of_fmap_2. }
      apply list_elem_of_lookup_1 in Hname as [i Hi].
      destruct (Forall2_lookup_l _ _ _ _ _ Hitems Hi) as (item & _ & Hitem).
      apply Hentry in Hitem as [_ Hinfos].
      apply mapM_Ok_Forall2 in Hinfos.
      assert (Hin : p ∈ posts_of company_posts (company_name p)).
      { by apply list_elem_of_filter. }
      apply list_elem_of_lookup_1 in Hin as [j Hj].
      destruct (Forall2_lookup_l _ _ _ _ _ Hinfos Hj) as (info & _ & Hinfo).
      apply post_info_of_Ok. by exists info.
    + intros Hids.
      destruct (mapM_total_in entry names) as [items ->]; [|by eexists].
      apply Forall_forall. intros name _. unfold entry.
      destruct (mapM_total_in post_info_of (posts_of company_posts name))
        as [infos ->]; [|by eexists].
      apply Forall_forall. intros p [[Hsome <-] Hp]%list_elem_of_filter.
      apply post_info_of_Ok. rewrite Forall_forall in Hids. by apply Hids.
  - intros d Hd. destruct (mapM entry names) as [items|e] eqn:Hitems; [|done].
    injection Hd as <-. apply mapM_Ok_Forall2 in Hitems.
    assert (Hkeys : items.*1 = names).
    { clear Hnd Hgroups. induction Hitems as [|name item ns its Hitem _ IH]; [done|].
      apply Hentry in Hitem as [Hname _]. rewrite fmap_cons. by rewrite Hname, IH. }
    assert (Hdict : dict_of items = items).
    { apply dict_of_NoDup. by rewrite Hkeys. }
    rewrite Hdict.
    assert (Hget : ∀ name infos,
               dict_get name items = Some infos ↔
               name ∈ company_name <$> company_posts ∧
               mapM post_info_of (posts_of company_posts name) = Ok infos).
    { intros name infos. rewrite dict_get_iff_elem by by rewrite Hkeys. split.
      - intros Hin. apply list_elem_of_lookup_1 in Hin as [i Hi].
        destruct (Forall2_lookup_r _ _ _ _ _ Hitems Hi) as (name' & Hname' & Hitem).
        apply Hentry in Hitem as [Heq Hinfos]. simpl in Heq, Hinfos. subst name'.
        split; [|done]. apply elem_of_drop_duplicates.
        by eapply list_elem_of_lookup_2.
      - intros [Hin Hinfos].
        apply elem_of_drop_duplicates in Hin. fold names in Hin.
        apply list_elem_of_lookup_1 in Hin as [i Hi].
        destruct (Forall2_lookup_l _ _ _ _ _ Hitems Hi) as ([name' infos'] & Hi' & Hitem).
        apply Hentry in Hitem as [Heq Hinfos']. simpl in Heq, Hinfos'. subst name'.
        assert (infos' = infos) as -> by congruence.
        by eapply list_elem_of_lookup_2. }
    split_and!.
    + done.
    + exact Hget.
    + intros x infos [Hin Hinfos]%Hget.
      apply list_elem_of_fmap in Hin as (p & Hname & Hp).
      intros ->. apply mapM_Ok_length in Hinfos.
      assert (Hpin : p ∈ posts_of company_posts (Some x)).
      { apply list_elem_of_filter. by split_and!. }
      destruct (posts_of company_posts (Some x)); [by apply elem_of_nil in Hpin | done].
    + intros infos [_ Hinfos]%Hget. rewrite posts_of_missing in Hinfos.
      by injection Hinfos as <-.
    + by rewrite Hkeys.
    + rewrite <- (Permutation_length Hgroups).
      clear Hkeys Hdict Hget Hnd Hgroups.
      induction Hitems as [|name item ns its Hitem _ IH]; [done|].
      apply Hentry in Hitem as [_ Hinfos]. apply mapM_Ok_length in Hinfos.
      rewrite !fmap_cons. simpl. rewrite !length_app. by rewrite Hinfos, IH.
Qed.
End PostAffinityFacts.

Lemma business_post_affinity_partitions_witness :
  ∃ d,
    create_business_post_affinity
      [Post (Fin 7) (Some 1%nat) 10%nat 20%nat (Fin 3) None;
       Post NaN None 11%nat 20%nat (Fin 1) None;
       Post (Fin 8) (Some 2%nat) 12%nat 21%nat (Fin 2) (Some (Fin 5));
       Post (Fin 9) (Some 1%nat) 13%nat 20%nat (Fin 4) None] = Ok d ∧
    d.*1 = [Some 1%nat; None; Some 2%nat] ∧
    dict_get None d = Some [] ∧
    info_id <$> default [] (dict_get (Some 1%nat) d) = [7%Z; 9%Z] ∧
    length (concat d.*2) = 3%nat.
Proof.
  set (frame := [Post (Fin 7) (Some 1%nat) 10%nat 20%nat (Fin 3) None;
                 Post NaN None 11%nat 20%nat (Fin 1) None;
                 Post (Fin 8) (Some 2%nat) 12%nat 21%nat (Fin 2) (Some (Fin 5));
                 Post (Fin 9) (Some 1%nat) 13%nat 20%nat (Fin 4) None]).
  destruct (business_post_affinity_partitions frame) as [[_ Hreturns] Hfacts].
  destruct Hreturns as [d Hd].
  { repeat constructor; intros Hname; try (by eexists).
    by destruct Hname as [x Hx]. }
  destruct (Hfacts d Hd) as (Hkeys & Hget & _ & Hmissing & _ & Hcount).
  exists d. split_and!; [done | done | | | done].
  - apply Hget. split; [|reflexivity].
    by apply (list_elem_of_lookup_2 _ 1%nat).
  - vm_compute in Hd. injection Hd as <-. reflexivity.
Defined.

(* ================================================================= *)
(** ** The affinity of businesses and products *)

Lemma dict_get_of_items {K V} `{EqDecision K} (items : list (K * V)) k :
  dict_get k (dict_of items) = dict_get k (reverse items).
Proof.
  induction items as [|kv items IH] using rev_ind; [done|].
  rewrite dict_of_snoc, dict_get_set, reverse_snoc. simpl.
  destruct (decide (k = kv.1)); [done | exact IH].
Qed.

Lemma dict_get_of_last {K V} `{EqDecision K} (items : list (K * V)) k v :
  dict_get k (dict_of items) = Some v →
  ∃ before after, items = before ++ (k, v) :: after ∧ k ∉ after.*1.
Proof.
  induction items as [|[k' v'] items IH] using rev_ind; [done|].
  rewrite dict_of_snoc, dict_get_set. simpl.
  destruct (decide (k = k')) as [<-|Hne].
  - intros [= <-]. exists items, []. split; [done | apply not_elem_of_nil].
  - intros (before & after & -> & Hk)%IH.
    exists before, (after ++ [(k', v')]). split; [by rewrite <- app_assoc|].
    rewrite fmap_app, elem_of_app. intros [Hin|Hin%list_elem_of_singleton]; [done|].
    by apply Hne.
Qed.

Lemma dict_get_is_Some {K V} `{EqDecision K} (d : list (K * V)) k :
  is_Some (dict_get k d) ↔ k ∈ d.*1.
Proof.
  induction d as [|kv d IH]; cbn [dict_get].
  - rewrite fmap_nil, elem_of_nil. split; [by intros [? ?] | done].
  - rewrite fmap_cons, elem_of_cons.
    destruct (decide (k = kv.1)) as [->|Hne].
    + split; [by left | by eexists].
    + rewrite IH. split; [by right | by intros [?|?]].
Qed.

Lemma for_each_total {A B} (body : A → result (option B)) (l : list A) :
  (∀ a, ∃ o, body a = Ok o) → ∃ out, for_each body l = Ok out.
Proof.
  intros Hbody. induction l as [|a l [rest IH]]; simpl; [by eexists|].
  destruct (Hbody a) as [o ->]. simpl. rewrite IH. simpl. by eexists.
Qed.

Lemma mapM_total {A B} (f : A → result B) (P : A → B → Prop) (l : list A) :
  (∀ a, ∃ y, f a = Ok y ∧ P a y) →
  ∃ ys, mapM f l = Ok ys ∧ Forall2 P l ys.
Proof.
  intros Hf. induction l as [|a l (ys & IH & Hys)]; simpl.
  - exists []. split; [done | constructor].
  - destruct (Hf a) as (y & -> & Hy). simpl. rewrite IH. simpl.
    exists (y :: ys). split; [done | by apply List.Forall2_cons].
Qed.

Lemma insert_by_score_Permutation x l : insert_by_score x l ≡ₚ x :: l.
Proof.
  induction l as [|y l IH]; simpl; [done|].
  destruct (Qle_bool (m_score y) (m_score x)); [done|].
  rewrite IH. apply perm_swap.
Qed.

Lemma sorted_by_score_Permutation l : sorted_by_score l ≡ₚ l.
Proof.
  induction l as [|x l IH]; simpl; [done|].
  by rewrite insert_by_score_Permutation, IH.
Qed.

Lemma insert_by_score_sorted x l :
  StronglySorted score_ge l → StronglySorted score_ge (insert_by_score x l).
Proof.
  induction 1 as [|y l Hl IH Hy]; simpl.
  - repeat constructor.
  - destruct (Qle_bool (m_score y) (m_score x)) eqn:Hyx.
    + apply Qle_bool_iff in Hyx.
      constructor; [by constructor|].
      constructor; [done|].
      eapply Forall_impl; [exact Hy|]. unfold score_ge. intros z Hz. simpl in Hz. lra.
    + constructor; [done|].
      rewrite insert_by_score_Permutation. constructor; [|done].
      unfold score_ge. destruct (Qlt_le_dec (m_score y) (m_score x)) as [Hlt|Hle].
      * apply Qlt_le_weak in Hlt. apply Qle_bool_iff in Hlt. congruence.
      * apply Qle_bool_iff in Hle. assert (Hxy := Hle).
        apply Qle_bool_iff in Hxy. exact Hxy.
Qed.

Lemma sorted_by_score_sorted l : StronglySorted score_ge (sorted_by_score l).
Proof.
  induction l as [|x l IH]; simpl; [constructor|].
  by apply insert_by_score_sorted.
Qed.

Lemma StronglySorted_lookup {A} (R : A → A → Prop) (l : list A) i j a b :
  StronglySorted R l → i < j → l !! i = Some a → l !! j = Some b → R a b.
Proof.
  intros Hl. revert i j. induction Hl as [|x l Hl IH Hx]; intros i j Hij Hi Hj.
  - by rewrite lookup_nil in Hi.
  - destruct j as [|j]; [lia|]. simpl in Hj. destruct i as [|i].
    + injection Hi as <-. eapply Forall_forall in Hx; [exact Hx|].
      by eapply list_elem_of_lookup_2.
    + simpl in Hi. apply (IH i j); [lia | done | done].
Qed.

Section ProductAffinityFacts.
Variables upper lower : string → string.

Lemma match_product_ok (keywords : list string) (p : product) :
  ∃ o, match_product upper keywords p = Ok o ∧
       ∀ e, o = Some e → (0 < m_score e)%Q ∧ (m_score e <= 9 # 10)%Q.
Proof.
  unfold match_product.
  set (c := count_keywords keywords (upper (description p))).
  destruct (Qltb 0 (Qnat c * (1 + egypt_relevance p))) eqn:Hms.
  - apply Qltb_lt in Hms.
    assert (Hc : 0 < c).
    { destruct c; [|lia]. exfalso. change (Qnat 0) with 0%Q in Hms. lra. }
    assert (Hlen : 0 < length keywords).
    { pose proof (length_filter (λ keyword, contains keyword
                     (upper (description p)) = true) keywords) as Hle.
      unfold c, count_keywords in Hc. lia. }
    apply Qnat_pos in Hlen.
    rewrite py_div_ok by lra. simpl. eexists. split; [done|].
    intros e [= <-]. simpl. unfold py_min.
    set (x := (Qnat c * (1 + egypt_relevance p) / Qnat (length keywords))%Q).
    assert (Hx : (0 < x)%Q).
    { unfold x. apply Qlt_shift_div_l; [done | lra]. }
    destruct (Qltb x (9 # 10)) eqn:Hcap.
    + apply Qltb_lt in Hcap. split; [done | lra].
    + split; [reflexivity | apply Qle_refl].
  - eexists. split; [done|]. by intros e [=].
Qed.

(** X13.  [calculate_business_product_affinity] never fails, whatever the
    frames hold (the division by the number of keywords is reached only
    when a keyword matched), every business name of the frame has an entry,
    and every entry is the list of the at most 20 best matches of the last
    business of that name (no later row of the frame bears the name, the
    assignment to the dictionary overwriting what an earlier one left):
    scores lie in (0, 0.9], stand in descending order, and no match that
    was left out scores higher than one that was kept. *)
Theorem product_affinity_top_matches (has_relevance : bool)
    (products : list product) (businesses : list business) :
  ∃ d, calculate_business_product_affinity upper lower has_relevance
         products businesses = Ok d ∧
    (∀ name, is_Some (dict_get name d) ↔ name ∈ business_name <$> businesses) ∧
    ∀ name entries, dict_get name d = Some entries →
      length entries ≤ 20 ∧
      Forall (λ e, (0 < m_score e)%Q ∧ (m_score e <= 9 # 10)%Q) entries ∧
      (∀ i j a b, i < j → entries !! i = Some a → entries !! j = Some b →
                  (m_score b <= m_score a)%Q) ∧
      ∃ before b after all rest,
        businesses = before ++ b :: after ∧ business_name b = name ∧
        Forall (λ b', business_name b' ≠ name) after ∧
        for_each (match_product upper (keywords_of b))
                 (with_relevance lower has_relevance products) = Ok all ∧
        entries ++ rest ≡ₚ all ∧
        Forall (λ r, Forall (λ e, (m_score r <= m_score e)%Q) entries) rest.
Proof.
  unfold calculate_business_product_affinity.
  set (products' := with_relevance lower has_relevance products).
  set (P := λ (b : business) (item : string * list matched_product),
         item.1 = business_name b ∧
         ∃ all, for_each (match_product upper (keywords_of b)) products' = Ok all ∧
                item.2 = take 20 (sorted_by_score all)).
  destruct (mapM_total (affinity_of upper products') P businesses)
    as (items & Hitems & HP).
  { intros b. unfold affinity_of.
    destruct (for_each_total (match_product upper (keywords_of b)) products')
      as [all Hall].
    { intros p. destruct (match_product_ok (keywords_of b) p) as (o & Ho & _).
      by exists o. }
    rewrite Hall. simpl. eexists. split; [done|].
    split; [done|]. exists all. split; [done|]. simpl.
    by destruct (sorted_by_score all). }
  rewrite Hitems. simpl. eexists. split; [done|]. split.
  - intros name. rewrite dict_get_of_items, dict_get_is_Some.
    rewrite fmap_reverse, elem_of_reverse.
    assert (Hkeys : items.*1 = business_name <$> businesses);
      [|by rewrite Hkeys].
    clear Hitems. induction HP as [|b item bs items' [Hname _] _ IH]; [done|].
    rewrite !fmap_cons. by rewrite Hname, IH.
  - intros name entries (items1 & items2 & -> & Hlast)%dict_get_of_last.
    apply Forall2_app_inv_r in HP as (before & tl & _ & HP & ->).
    apply Forall2_cons_inv_r in HP
      as (b & after & (Hname & all & Hall & Hentries) & Hafter & ->).
    simpl in Hname, Hentries. subst entries.
    assert (Hlater : Forall (λ b', business_name b' ≠ name) after).
    { clear Hitems. induction Hafter as [|b' item bs its [Hkey _] _ IH]; [done|].
      rewrite fmap_cons, not_elem_of_cons in Hlast. destruct Hlast as [Hne Hrest].
      constructor; [congruence | by apply IH]. }
    assert (Hsorted := sorted_by_score_sorted all).
    assert (Hbody : Forall (λ e, (0 < m_score e)%Q ∧ (m_score e <= 9 # 10)%Q) all).
    { eapply for_each_Forall; [|exact Hall].
      intros p e He. destruct (match_product_ok (keywords_of b) p) as (o & Ho & Hscore).
      rewrite Ho in He. injection He as ->. by apply Hscore. }
    split_and!.
    + rewrite length_take. lia.
    + apply Forall_take. by rewrite sorted_by_score_Permutation.
    + intros i j x y Hij [Hi _]%lookup_take_Some [Hj _]%lookup_take_Some.
      exact (StronglySorted_lookup _ _ _ _ _ _ Hsorted Hij Hi Hj).
    + exists before, b, after, all, (drop 20 (sorted_by_score all)).
      split_and!; [done | done | done | done | |].
      * rewrite take_drop. apply sorted_by_score_Permutation.
      * apply Forall_forall. intros r Hr. apply Forall_forall. intros e He.
        apply list_elem_of_lookup_1 in Hr as [j Hj], He as [i Hi].
        rewrite lookup_drop in Hj. apply lookup_take_Some in Hi as [Hi Hlt].
        apply (StronglySorted_lookup _ _ i (20 + j) e r Hsorted); [lia | done | done].
Qed.
End ProductAffinityFacts.

(* ================================================================= *)
(** ** The economic context *)

Ltac case_column frame col H :=
  let E := fresh "E" in
  destruct (dict_get col frame) as [[|? ?]|] eqn:E;
  [exfalso; by eapply H | |];
  cbn [mbind mret frame_result_bind frame_result_ret iloc_first].

(** X14.  [train_economic_context_model] on a frame with at least one row:
    the defaults 4.2, 10.2 and 1.9 that the source passes to
    [economic_data.get] are never used.  When one of the three core
    columns is missing the function raises [AttributeError] (the default is
    a list, which has no [iloc]); when it returns, all three columns were
    there and the indicators hold their first values, together with a
    tourism sensitivity. *)
Theorem economic_context_needs_core_columns
    (economic_data : list (string * list Q)) (month : nat) :
  (∀ col, dict_get col economic_data ≠ Some []) →
  match train_economic_context_model economic_data month with
  | Raised e =>
      e = AttributeError ∧
      ∃ key col, (key, col) ∈ core_columns ∧ dict_get col economic_data = None
  | Got f =>
      (∀ key col, (key, col) ∈ core_columns →
         ∃ v rest, dict_get col economic_data = Some (v :: rest) ∧
                   dict_get key (indicators f) = Some v) ∧
      is_Some (dict_get "tourism_sensitivity" (indicators f))
  end.
Proof.
  intros Hrows. unfold train_economic_context_model, frame_get, optional_indicator.
  case_column economic_data "gdp_growth_annual_pct" Hrows;
    [|split; [done|]; exists "gdp_growth", "gdp_growth_annual_pct";
      split; [apply list_elem_of_lookup_2 with 0%nat; reflexivity | done]].
  case_column economic_data "inflation_consumer_prices_annual_pct" Hrows;
    [|split; [done|];
      exists "inflation", "inflation_consumer_prices_annual_pct";
      split; [apply list_elem_of_lookup_2 with 1%nat; reflexivity | done]].
  case_column economic_data "population_growth_annual_pct" Hrows;
    [|split; [done|];
      exists "population_growth", "population_growth_annual_pct";
      split; [apply list_elem_of_lookup_2 with 2%nat; reflexivity | done]].
  case_column economic_data "tourism_sensitivity" Hrows.
  all: case_column economic_data "trade_balance" Hrows.
  all: case_column economic_data "economic_stability_index" Hrows.
  all: case_column economic_data "manufacturing_value_added_pct_of_gdp" Hrows.
  all: case_column economic_data
         "agriculture_forestry_and_fishing_value_added_pct_of_gdp" Hrows.
  all: case_column economic_data "services_value_added_pct_of_gdp" Hrows.
  all: cbn [indicators].
  all: split; [|by eexists].
  all: intros key col Hin.
  all: repeat (apply elem_of_cons in Hin as [[= -> ->]|Hin];
               [eexists _, _; split; [eassumption | reflexivity]|]).
  all: by apply elem_of_nil in Hin.
Qed.

Lemma economic_context_needs_core_columns_witness :
  (∀ col, dict_get col [("gdp_growth_annual_pct", [5 # 1]%Q);
                        ("inflation_consumer_prices_annual_pct", [9 # 1]%Q)]
          ≠ Some []) ∧
  train_economic_context_model
    [("gdp_growth_annual_pct", [5 # 1]%Q);
     ("inflation_consumer_prices_annual_pct", [9 # 1]%Q)] 11
  = Raised AttributeError.
Proof.
  assert (Hrows : ∀ col, dict_get col [("gdp_growth_annual_pct", [5 # 1]%Q);
                        ("inflation_consumer_prices_annual_pct", [9 # 1]%Q)]
          ≠ Some []).
  { intros col. simpl. repeat (case_decide; [done|]). done. }
  split; [exact Hrows|].
  pose proof (economic_context_needs_core_columns _ 11 Hrows) as H.
  destruct (train_economic_context_model _ 11) as [f|e] eqn:E.
  - vm_compute in E. discriminate E.
  - destruct H as [-> _]. reflexivity.
Defined.

(* ================================================================= *)
(** ** The evaluator of the company recommendations *)

Lemma qsum_nonneg (l : list Q) : Forall (λ x, 0 <= x)%Q l → (0 <= qsum l)%Q.
Proof.
  induction 1 as [|x l Hx _ IH]; simpl; [apply Qle_refl | lra].
Qed.

Lemma mean_or_zero_nonneg (l : list Q) :
  Forall (λ x, 0 <= x)%Q l → (0 <= mean_or_zero l)%Q.
Proof.
  intros Hl. destruct l as [|x l]; [apply Qle_refl|].
  unfold mean_or_zero, mean. apply Qle_shift_div_l.
  - change (inject_Z (Z.of_nat (length (x :: l)))) with (Qnat (length (x :: l))).
    apply Qnat_pos. simpl. lia.
  - rewrite Qmult_0_l. by apply qsum_nonneg.
Qed.

Lemma length_drop_duplicates {K} `{EqDecision K} (l : list K) :
  length (drop_duplicates l) ≤ length l.
Proof.
  induction l as [|x l IH]; simpl; [done|].
  pose proof (length_filter (λ y, y ≠ x) (drop_duplicates l)). lia.
Qed.

Lemma length_py_slice_top {A} (k : Z) (l : list A) :
  (0 < k)%Z → (Z.of_nat (length (py_slice (- k - 1) (-1) l)) ≤ k)%Z.
Proof.
  intros Hk. unfold py_slice, slice_bound.
  rewrite length_drop, length_take.
  replace (-1 <? 0)%Z with true by done.
  replace (- k - 1 <? 0)%Z with true by (symmetry; apply Z.ltb_lt; lia).
  lia.
Qed.

Lemma py_slice_prefix {A} (start : Z) (l : list A) (x : A) :
  x ∈ py_slice start (-1) l → x ∈ take (length l - 1) l.
Proof.
  unfold py_slice, slice_bound. replace (-1 <? 0)%Z with true by done.
  intros Hx. apply subseteq_drop in Hx.
  by replace (length l - 1) with (Z.to_nat (Z.max 0 (-1 + Z.of_nat (length l))))
    by lia.
Qed.

Lemma py_slice_sublist {A} (start stop : Z) (l : list A) :
  py_slice start stop l `sublist_of` l.
Proof.
  unfold py_slice. etrans; [apply sublist_drop | apply sublist_take].
Qed.

Lemma mapM_index_length {A} (l : list A) (idx : list nat) (out : list A) :
  mapM (index l) idx = Ok out → length out = length idx.
Proof. apply mapM_Ok_length. Qed.

Lemma mapM_index_total {A} (l : list A) (idx : list nat) :
  Forall (λ j, j < length l) idx →
  mapM (index l) idx = Ok (omap (λ j, l !! j) idx).
Proof.
  induction 1 as [|j idx Hj _ IH]; [done|].
  apply lookup_lt_is_Some in Hj as [x Hx].
  cbn [mapM omap list_omap]. rewrite IH. unfold index. by rewrite Hx.
Qed.

Section CompanyFacts.
Context {category : Type} `{EqDecision category}.
Implicit Types (sim : similarity) (rows : list (Z * category)).

Lemma count_equal_le (c : category) (values : list category) :
  count_equal c values ≤ length values.
Proof. apply length_filter. Qed.

Lemma company_loop_bounds sim (categories : list category) (k : Z) rows scores :
  company_loop sim categories k rows = Ok scores →
  Forall (λ pr, (0 <= pr.1 <= 1)%Q ∧ (0 <= pr.2)%Q) scores.
Proof.
  revert scores. induction rows as [|[i c] rows IH]; simpl; intros scores Hloop.
  - injection Hloop as <-. constructor.
  - destruct (Z.of_nat (length sim) <=? i)%Z.
    { injection Hloop as <-. constructor. }
    bind_in Hloop as similarities Hrow.
    bind_in Hloop as recommended Hrec.
    bind_in Hloop as rest Hrest.
    injection Hloop as <-. constructor; [|by apply IH]. simpl.
    pose proof (count_equal_le c recommended) as Hle.
    rewrite (mapM_index_length _ _ _ Hrec) in Hle.
    split.
    + destruct (0 <? k)%Z eqn:Hk; [|split; [apply Qle_refl | done]].
      apply Z.ltb_lt in Hk.
      pose proof (length_py_slice_top k (argsort similarities) Hk) as Hlen.
      fold (company_top_k k similarities) in Hlen.
      apply Qdiv_unit_interval.
      * apply Qnat_nonneg.
      * unfold Qnat. rewrite <- Zle_Qle. lia.
      * change 0%Q with (inject_Z 0). by rewrite <- Zlt_Qlt.
    + destruct (0 <? _)%Z eqn:Hs; [|apply Qle_refl].
      apply Z.ltb_lt in Hs. apply Qle_shift_div_l.
      * change 0%Q with (inject_Z 0). by rewrite <- Zlt_Qlt.
      * rewrite Qmult_0_l. apply Qnat_nonneg.
Qed.

(** X15.  The metrics of [evaluate_company_recommendations], for every
    array, frame and [k], also when the body raises: precision and category
    coverage lie in [0, 1], recall and F1 are never negative. *)
Theorem company_metrics_bounds sim rows (has_category : bool) (k : Z) :
  let m := evaluate_company_recommendations sim rows has_category k in
  (0 <= b_precision_at_k m <= 1)%Q ∧ (0 <= b_recall_at_k m)%Q ∧
  (0 <= b_f1_at_k m)%Q ∧ (0 <= category_coverage m <= 1)%Q.
Proof.
  unfold evaluate_company_recommendations.
  destruct (company_body sim rows has_category k) as [m|e] eqn:Hbody;
    [|by vm_compute].
  unfold company_body in Hbody.
  bind_in Hbody as column Hcol.
  bind_in Hbody as scores Hloop.
  injection Hbody as <-. simpl.
  apply company_loop_bounds in Hloop.
  assert (Hp : (0 <= mean_or_zero scores.*1 <= 1)%Q).
  { apply mean_or_zero_unit_interval. apply Forall_fmap.
    eapply Forall_impl; [exact Hloop|]. by intros pr [? _]. }
  assert (Hr : (0 <= mean_or_zero scores.*2)%Q).
  { apply mean_or_zero_nonneg. apply Forall_fmap.
    eapply Forall_impl; [exact Hloop|]. by intros pr [_ ?]. }
  split_and!; [apply Hp | apply Hp | done | | |].
  - destruct (Qltb 0 _) eqn:Hsum; [|apply Qle_refl].
    apply Qltb_lt in Hsum. apply Qle_shift_div_l; [done|].
    rewrite Qmult_0_l. apply Qmult_le_0_compat; [|done].
    apply Qmult_le_0_compat; [done | apply Hp].
  - destruct (0 <? length rows) eqn:Hn; [|apply Qle_refl].
    apply Nat.ltb_lt in Hn. apply Qle_shift_div_l; [by apply Qnat_pos|].
    rewrite Qmult_0_l. apply Qnat_nonneg.
  - destruct (0 <? length rows) eqn:Hn; [|done].
    apply Nat.ltb_lt in Hn. apply Qdiv_unit_interval.
    + apply Qnat_nonneg.
    + apply Qnat_le. destruct has_category; [|done].
      injection Hcol as <-.
      pose proof (length_drop_duplicates rows.*2) as Hle.
      by rewrite length_fmap in Hle.
    + by apply Qnat_pos.
Qed.
End CompanyFacts.

Lemma sorted_last_is_greatest {A} (R : A → A → Prop) (l : list A) (i : A) :
  StronglySorted R l → NoDup l → i ∈ l →
  (∀ j, j ∈ l → j ≠ i → ¬ R i j) →
  i ∉ take (length l - 1) l.
Proof.
  intros Hsorted Hnd Hi Hmax.
  apply list_elem_of_split in Hi as (l1 & l2 & ->).
  apply StronglySorted_app_1_r in Hsorted as Hright.
  apply StronglySorted_inv in Hright as [_ Hafter].
  apply NoDup_app in Hnd as (_ & Hl1 & Hl2).
  apply NoDup_cons in Hl2 as [Hil2 _].
  destruct l2 as [|j l2].
  - rewrite length_app. simpl.
    replace (length l1 + 1 - 1) with (length l1) by lia.
    rewrite take_app_length. intros Hin. apply (Hl1 i Hin). left.
  - exfalso. apply Forall_cons in Hafter as [Hij _].
    apply (Hmax j); [|by intros -> ; apply Hil2; left|done].
    apply elem_of_app. right. right. left.
Qed.

Lemma count_positions {A} `{EqDecision A} (c : A) (l : list A) :
  length (filter (λ j, l !! j = Some c) (seq 0 (length l)))
  = length (filter (λ x, x = c) l).
Proof.
  induction l as [|x l IH] using rev_ind; [done|].
  rewrite length_app. simpl. rewrite Nat.add_1_r, seq_S. simpl.
  rewrite !filter_app, !length_app, <- IH. f_equal.
  - f_equal. apply filter_ext_elem. intros j Hj%elem_of_seq.
    by rewrite lookup_app_l by lia.
  - rewrite !filter_cons, !filter_nil.
    rewrite lookup_app_r, Nat.sub_diag by lia. simpl.
    destruct (decide (Some x = Some c)) as [[= ->]|Hne].
    + by rewrite decide_True.
    + rewrite decide_False; [done|]. by intros ->.
Qed.

Lemma count_looked_up {A} `{EqDecision A} (c : A) (l : list A) (idx : list nat) :
  length (filter (λ x, x = c) (omap (λ j, l !! j) idx))
  = length (filter (λ j, l !! j = Some c) idx).
Proof.
  induction idx as [|j idx IH]; [done|].
  rewrite filter_cons. cbn [omap list_omap].
  destruct (l !! j) as [x|] eqn:Hx.
  - rewrite filter_cons.
    destruct (decide (x = c)) as [->|Hne].
    + rewrite decide_True by done. simpl. by rewrite <- IH.
    + rewrite decide_False by (by intros [= ->]). exact IH.
  - rewrite decide_False by done. exact IH.
Qed.

Section CompanyDominant.
Context {category : Type} `{EqDecision category}.
Variables (sim : similarity) (column : list category) (k : Z).
Hypothesis Hrows : length sim = length column.
Hypothesis Hsquare : Forall (λ row, length row = length column) sim.
Hypothesis Hdominant : self_dominant sim.

Lemma company_top_k_excludes_self (i : nat) (row : list fnum) :
  sim !! i = Some row → i ∉ company_top_k k row.
Proof.
  intros Hrow Hin. unfold company_top_k in Hin.
  apply py_slice_prefix in Hin. revert Hin.
  destruct (Hdominant i row Hrow) as (s & Hs & Hothers).
  apply sorted_last_is_greatest with (R := key_le row).
  - apply argsort_sorted.
  - apply argsort_NoDup.
  - apply elem_of_argsort. by eapply lookup_lt_Some.
  - intros j Hj%elem_of_argsort Hne. unfold key_le.
    apply lookup_lt_is_Some in Hj as [x Hx].
    destruct (Hothers j x Hne Hx) as (q & -> & Hq).
    rewrite (nth_lookup_Some _ _ _ _ Hs), (nth_lookup_Some _ _ _ _ Hx). simpl.
    rewrite Qle_bool_iff. lra.
Qed.

Lemma company_top_k_in_range (row : list fnum) :
  Forall (λ j, j < length row) (company_top_k k row).
Proof.
  apply Forall_forall. intros j Hj. apply elem_of_argsort.
  eapply elem_of_sublist; [exact Hj | apply py_slice_sublist].
Qed.

Lemma company_top_k_NoDup (row : list fnum) : NoDup (company_top_k k row).
Proof.
  eapply sublist_NoDup; [apply argsort_NoDup | apply py_slice_sublist].
Qed.

Lemma company_loop_dominant (rows : list (Z * category)) :
  Forall (λ r, ∃ p : nat, r.1 = Z.of_nat p ∧ column !! p = Some r.2) rows →
  ∃ scores, company_loop sim column k rows = Ok scores ∧
            Forall (λ pr, (0 <= pr.2 <= 1)%Q) scores.
Proof.
  induction 1 as [|[i c] rows (p & Hi & Hc) _ (rest & IH & Hrest)];
    cbn [company_loop].
  - exists []. split; [done | constructor].
  - simpl in Hi, Hc. subst i.
    assert (Hp : p < length column) by by eapply lookup_lt_Some.
    replace (Z.of_nat (length sim) <=? Z.of_nat p)%Z with false
      by (symmetry; apply Z.leb_gt; lia).
    unfold np_row. replace (0 <=? Z.of_nat p)%Z with true
      by (symmetry; apply Z.leb_le; lia).
    rewrite Nat2Z.id.
    destruct (sim !! p) as [row|] eqn:Hrow;
      [|apply lookup_ge_None in Hrow; lia].
    replace (index sim p) with (Ok row) by (unfold index; by rewrite Hrow).
    cbn [mbind result_bind].
    assert (Hlen : length row = length column).
    { eapply Forall_forall in Hsquare; [exact Hsquare|].
      by eapply list_elem_of_lookup_2. }
    rewrite mapM_index_total
      by (rewrite <- Hlen; apply company_top_k_in_range).
    cbn [mbind result_bind]. rewrite IH. cbn [mbind result_bind].
    eexists. split; [done|].
    constructor; [|done]. cbn [snd].
    unfold count_equal. rewrite count_looked_up.
    set (top := company_top_k k row).
    set (T := filter (λ j, column !! j = Some c) top).
    assert (Hcount : S (length T) ≤ length (filter (λ x, x = c) column)).
    { rewrite <- count_positions.
      change (S (length T)) with (length (p :: T)).
      apply submseteq_length, NoDup_submseteq.
      - apply NoDup_cons. split.
        + intros [_ Hin]%list_elem_of_filter.
          by apply (company_top_k_excludes_self p row).
        + apply NoDup_filter, company_top_k_NoDup.
      - intros j [->|Hj]%elem_of_cons.
        + apply list_elem_of_filter. split; [done|]. apply elem_of_seq. lia.
        + apply list_elem_of_filter in Hj as [Hjc Hj].
          apply list_elem_of_filter. split; [done|].
          apply elem_of_seq. apply lookup_lt_Some in Hjc. lia. }
    destruct (0 <? _)%Z eqn:Hs; [|split; [apply Qle_refl | done]].
    apply Z.ltb_lt in Hs. apply Qdiv_unit_interval.
    + apply Qnat_nonneg.
    + unfold Qnat. rewrite <- Zle_Qle. lia.
    + change 0%Q with (inject_Z 0). by rewrite <- Zlt_Qlt.
Qed.

(** X16.  [evaluate_company_recommendations] on the frame the array was
    computed from (default index, one row of the square array for every
    business) when every business is strictly more similar to itself than
    to any other: for every [k] the slice [[-k-1:-1]] never recommends a
    business to itself, the body does not raise, and recall and F1 lie in
    [0, 1]. *)
Theorem company_metrics_self_dominant :
  let rows := zip (Z.of_nat <$> seq 0 (length column)) column in
  (∀ i row, sim !! i = Some row → i ∉ company_top_k k row) ∧
  ∃ m, company_body sim rows true k = Ok m ∧
       evaluate_company_recommendations sim rows true k = m ∧
       (0 <= b_recall_at_k m <= 1)%Q ∧ (0 <= b_f1_at_k m <= 1)%Q.
Proof.
  intros rows. split; [exact company_top_k_excludes_self|].
  assert (Hcol : rows.*2 = column).
  { apply snd_zip. by rewrite length_fmap, length_seq. }
  destruct (company_loop_dominant rows) as (scores & Hloop & Hrecall).
  { apply Forall_forall. intros [i c] Hin.
    apply list_elem_of_lookup_1 in Hin as [p Hp].
    apply lookup_zip_with_Some in Hp as (i' & c' & [= <- <-] & Hi & Hc).
    rewrite list_lookup_fmap in Hi.
    destruct (seq 0 (length column) !! p) as [p'|] eqn:Hp'; [|done].
    apply lookup_seq in Hp' as [-> _]. injection Hi as <-.
    by exists p. }
  pose proof (company_loop_bounds _ _ _ _ _ Hloop) as Hbounds.
  assert (Hbody : ∃ m, company_body sim rows true k = Ok m ∧
            (0 <= b_recall_at_k m <= 1)%Q ∧ (0 <= b_f1_at_k m <= 1)%Q).
  { unfold company_body. simpl. rewrite Hcol, Hloop. simpl.
    eexists. split; [done|]. simpl.
    assert (Hp : (0 <= mean_or_zero scores.*1 <= 1)%Q).
    { apply mean_or_zero_unit_interval. apply Forall_fmap.
      eapply Forall_impl; [exact Hbounds|]. by intros pr [? _]. }
    assert (Hr : (0 <= mean_or_zero scores.*2 <= 1)%Q).
    { apply mean_or_zero_unit_interval. by apply Forall_fmap. }
    split; [done|].
    destruct (Qltb 0 _) eqn:Hsum; [|split; [apply Qle_refl | done]].
    apply Qltb_lt in Hsum. split.
    - apply Qle_shift_div_l; [done|]. nra.
    - apply Qle_shift_div_r; [done|]. nra. }
  destruct Hbody as (m & Hbody & Hm). exists m.
  split; [done|]. split; [|done].
  unfold evaluate_company_recommendations. by rewrite Hbody.
Qed.
End CompanyDominant.

Lemma company_metrics_self_dominant_witness :
  (∃ m, company_body [[Fin 1; Fin (1 # 2); Fin 0];
                      [Fin (1 # 2); Fin 1; Fin (1 # 4)];
                      [Fin 0; Fin (1 # 4); Fin 1]]
          (zip (Z.of_nat <$> seq 0 3) [1; 1; 2]%nat) true 5 = Ok m ∧
        (0 <= b_recall_at_k m <= 1)%Q).
Proof.
  assert (Hdominant : self_dominant [[Fin 1; Fin (1 # 2); Fin 0];
                                     [Fin (1 # 2); Fin 1; Fin (1 # 4)];
                                     [Fin 0; Fin (1 # 4); Fin 1]]).
  { intros i row Hrow.
    destruct i as [|[|[|i]]]; simpl in Hrow; try done;
      injection Hrow as <-; eexists; (split; [reflexivity|]);
      intros j x Hne Hx;
      destruct j as [|[|[|j]]]; simpl in Hx; try done;
      injection Hx as <-; eexists; (split; [reflexivity|]); by vm_compute. }
  assert (Hsquare : Forall (λ row : list fnum, length row = length [1; 1; 2]%nat)
                      [[Fin 1; Fin (1 # 2); Fin 0];
                       [Fin (1 # 2); Fin 1; Fin (1 # 4)];
                       [Fin 0; Fin (1 # 4); Fin 1]]).
  { repeat constructor. }
  destruct (company_metrics_self_dominant
              [[Fin 1; Fin (1 # 2); Fin 0];
               [Fin (1 # 2); Fin 1; Fin (1 # 4)];
               [Fin 0; Fin (1 # 4); Fin 1]] [1; 1; 2]%nat 5
              eq_refl Hsquare Hdominant)
    as [_ (m & Hm & _ & Hrecall & _)].
  exists m. split; [exact Hm | exact Hrecall].
Defined.

(* ================================================================= *)
(** ** The post evaluator on the model of the quick trainer *)

Lemma has_shape_lookup {A} (M : list (list A)) (r c i : nat) (row : list A) :
  has_shape M r c → M !! i = Some row → length row = c.
Proof.
  intros [_ Hrows] Hi. eapply Forall_forall in Hrows; [exact Hrows|].
  by eapply list_elem_of_lookup_2.
Qed.

Lemma has_shape_row {A} (M : list (list A)) (r c i : nat) :
  has_shape M r c → i < r → ∃ row, M !! i = Some row ∧ length row = c.
Proof.
  intros HM Hi. destruct HM as [Hlen Hrows].
  destruct (lookup_lt_is_Some_2 M i) as [row Hrow]; [lia|].
  exists row. split; [done|]. by eapply has_shape_lookup.
Qed.

Lemma same_shape_b_true {A B} (M : list (list A)) (N : list (list B)) (r c : nat) :
  has_shape M r c → has_shape N r c → same_shape_b M N = true.
Proof.
  intros HM HN. pose proof (has_shape_same M N r c HM HN) as Hsame.
  unfold same_shape_b. destruct HM as [HM _], HN as [HN _].
  rewrite HM, HN, Nat.eqb_refl. simpl.
  clear HM HN. induction Hsame as [|row nrow M N Hrow _ IH]; [done|].
  simpl. by rewrite Hrow, Nat.eqb_refl.
Qed.

Lemma iloc_total (M : matrix) (r c i j : nat) :
  has_shape M r c → i < r → j < c → ∃ x, iloc M i j = Ok x.
Proof.
  intros HM Hi Hj. destruct (has_shape_row M r c i HM Hi) as (row & Hrow & Hlen).
  destruct (lookup_lt_is_Some_2 row j) as [x Hx]; [lia|].
  exists x. unfold iloc, index. rewrite Hrow. simpl. by rewrite Hx.
Qed.

Lemma iloc_set_total (M : matrix) (r c i j : nat) (x : Q) :
  has_shape M r c → i < r → j < c →
  ∃ M', iloc_set M i j x = Ok M' ∧ has_shape M' r c.
Proof.
  intros HM Hi Hj. destruct (has_shape_row M r c i HM Hi) as (row & Hrow & Hlen).
  destruct (lookup_lt_is_Some_2 row j) as [y Hy]; [lia|].
  unfold iloc_set, index. rewrite Hrow. simpl. rewrite Hy. simpl.
  eexists. split; [done|]. destruct HM as [HM1 HM2]. unfold matrix in *. split.
  - by rewrite length_insert.
  - apply Forall_insert; [done|]. by rewrite length_insert.
Qed.

Lemma hold_out_cell_total (r c : nat) (train test : matrix) (idx : nat) :
  has_shape train r c → has_shape test r c → idx < r * c →
  ∃ train' test', hold_out_cell c (train, test) idx = Ok (train', test')
                  ∧ has_shape train' r c ∧ has_shape test' r c.
Proof.
  intros Htrain Htest Hidx. unfold hold_out_cell.
  assert (Hc : 0 < c) by (destruct c; lia).
  assert (Hu : idx / c < r) by (apply Nat.Div0.div_lt_upper_bound; lia).
  assert (Hp : idx mod c < c) by (apply Nat.mod_upper_bound; lia).
  destruct (iloc_total train r c _ _ Htrain Hu Hp) as [x ->]. simpl.
  destruct (positive x); [|by eexists _, _].
  destruct (iloc_set_total test r c _ _ x Htest Hu Hp) as (test' & -> & Htest').
  simpl.
  destruct (iloc_set_total train r c _ _ 0%Q Htrain Hu Hp) as (train' & -> & Htrain').
  simpl. by eexists _, _.
Qed.

Lemma hold_out_cells_total (r c : nat) (train test : matrix) (idxs : list nat) :
  has_shape train r c → has_shape test r c → Forall (λ idx, idx < r * c) idxs →
  ∃ train' test', hold_out_cells c (train, test) idxs = Ok (train', test').
Proof.
  intros Htrain Htest Hidxs. revert train test Htrain Htest.
  induction Hidxs as [|idx idxs Hidx _ IH]; intros train test Htrain Htest;
    cbn [hold_out_cells].
  - by eexists _, _.
  - destruct (hold_out_cell_total r c train test idx Htrain Htest Hidx)
      as (train' & test' & -> & Htrain' & Htest').
    cbn [mbind result_bind]. by apply IH.
Qed.

Lemma slice_last_subseteq {A} (k : Z) (l : list A) : slice_last k l ⊆ l.
Proof. unfold slice_last. destruct (0 <? k)%Z; apply subseteq_drop. Qed.

Lemma for_each_total_in {A B} (body : A → result (option B)) (l : list A) :
  Forall (λ a, ∃ o, body a = Ok o) l → ∃ out, for_each body l = Ok out.
Proof.
  induction 1 as [|a l [o Ho] _ [rest IH]]; simpl; [by eexists|].
  rewrite Ho. simpl. rewrite IH. simpl. by eexists.
Qed.

Section PostEvaluatorRuns.
Context {rng : Type}.
Variable choice : rng → list nat → nat → list nat * rng.
Variable seed : nat → rng.
Variable sqrt : Q → Q.
Hypothesis Hchoice : choice_ok choice.

Lemma post_split_total (R : matrix) (r c : nat) :
  has_shape R r c → 0 < r →
  ∃ train test, post_split choice seed R = Ok (train, test).
Proof.
  intros HR Hr. unfold post_split.
  rewrite (has_shape_n_cols R r c HR Hr).
  replace (n_rows R) with r by (by destruct HR as [<- _]).
  set (x := ((1 # 5) * Qnat r * Qnat c)%Q).
  assert (Hx0 : (0 <= x)%Q).
  { unfold x. pose proof (Qnat_nonneg r). pose proof (Qnat_nonneg c).
    apply Qmult_le_0_compat; [|done]. apply Qmult_le_0_compat; [done|done]. }
  assert (Hlo : (0 ≤ py_int x)%Z).
  { rewrite py_int_floor by done.
    change 0%Z with (Qfloor 0). by apply Qfloor_resp_le. }
  assert (Hhi : (py_int x ≤ Z.of_nat (r * c))%Z).
  { apply py_int_le; [lia|]. unfold x.
    rewrite Nat2Z.inj_mul, inject_Z_mult. fold (Qnat r) (Qnat c).
    pose proof (Qnat_nonneg r). pose proof (Qnat_nonneg c).
    assert (0 <= Qnat r * Qnat c)%Q by by apply Qmult_le_0_compat.
    lra. }
  unfold random_choice. rewrite length_seq.
  replace (py_int x <? 0)%Z with false by (symmetry; apply Z.ltb_ge; lia).
  replace (Z.of_nat (r * c) <? py_int x)%Z with false
    by (symmetry; apply Z.ltb_ge; lia).
  simpl.
  destruct (Hchoice (seed 42) (seq 0 (r * c)) (Z.to_nat (py_int x)))
    as [_ Hsub]; [rewrite length_seq; lia|].
  destruct (choice (seed 42) (seq 0 (r * c)) (Z.to_nat (py_int x)))
    as [idxs g'].
  simpl in *. apply (hold_out_cells_total r c); [done | done |].
  apply Forall_forall. intros idx Hidx.
  apply (elem_of_submseteq _ _ _ Hidx) in Hsub.
  apply elem_of_seq in Hsub. lia.
Qed.

Lemma post_user_metrics_total (R predictions : matrix) (r c : nat) (k : Z)
    (user_idx : nat) :
  has_shape R r c → has_shape predictions r c → (0 < k)%Z → user_idx < r →
  ∃ o, post_user_metrics k R predictions user_idx = Ok o.
Proof.
  intros HR HP Hk Hu. unfold post_user_metrics.
  destruct (has_shape_row R r c user_idx HR Hu) as (row & Hrow & Hlen).
  destruct (has_shape_row predictions r c user_idx HP Hu) as (pred & Hpred & Hplen).
  replace (index R user_idx) with (Ok row) by (unfold index; by rewrite Hrow).
  replace (index predictions user_idx) with (Ok pred)
    by (unfold index; by rewrite Hpred).
  cbn [mbind result_bind].
  destruct (0 <? _) eqn:Htrue; [|by eexists].
  unfold count_relevant. rewrite mapM_index_total.
  - cbn [mbind result_bind].
    replace (0 <? k)%Z with true by (symmetry; by apply Z.ltb_lt).
    apply Nat.ltb_lt in Htrue. apply Qnat_pos in Htrue.
    rewrite (py_div_ok _ (inject_Z k)).
    + cbn [mbind result_bind].
      rewrite (py_div_ok _ (Qnat _)) by lra. by eexists.
    + change 0%Q with (inject_Z 0). rewrite inject_Z_injective. lia.
  - apply Forall_forall. intros j Hj. apply slice_last_subseteq in Hj.
    apply elem_of_argsort in Hj. rewrite length_fmap in Hj.
    rewrite length_map. lia.
Qed.

Lemma post_cf_body_total (R uf pf : matrix) (r c f : nat) (k : Z) :
  has_shape R r c → has_shape uf r f → has_shape pf f c →
  0 < r → 0 < f → (0 < k)%Z →
  ∃ m, post_cf_body choice seed sqrt (FactorDict (Some uf) (Some pf)) R k = Ok m.
Proof.
  intros HR Huf Hpf Hr Hf Hk. unfold post_cf_body.
  destruct (post_split_total R r c HR Hr) as (train & test & Hsplit).
  rewrite Hsplit. cbn [mbind result_bind lookup_key].
  apply post_split_test_unchanged in Hsplit as ->.
  unfold np_dot. rewrite (has_shape_n_cols uf r f Huf Hr).
  replace (n_rows pf) with f by (by destruct Hpf as [<- _]).
  rewrite Nat.eqb_refl. cbn [mbind result_bind].
  pose proof (matmul_shape uf pf r f c Huf Hpf Hf) as HP.
  assert (Hrmse : ∃ v, post_rmse sqrt R (matmul uf pf) = Ok v).
  { unfold post_rmse. destruct (0 <? _); [|by eexists].
    unfold bool_index.
    rewrite (same_shape_b_true R _ r c HR (has_shape_map_map positive R r c HR)).
    cbn [mbind result_bind].
    rewrite (same_shape_b_true (matmul uf pf) _ r c HP
               (has_shape_map_map positive R r c HR)).
    by eexists. }
  destruct Hrmse as [v ->]. cbn [mbind result_bind].
  destruct (for_each_total_in (post_user_metrics k R (matmul uf pf))
              (seq 0 (10 `min` n_rows R))) as [per_user ->].
  { apply Forall_forall. intros u Hu%elem_of_seq.
    apply (post_user_metrics_total R _ r c); [done | done | done |].
    destruct HR as [HR _]. unfold n_rows in Hu. lia. }
  cbn [mbind result_bind].
  destruct (f1_score_total (mean_or_zero per_user.*1) (mean_or_zero per_user.*2))
    as [f1 ->].
  by eexists.
Qed.
End PostEvaluatorRuns.

Section MainEvaluation.
Context {gen optimizer rng : Type}.
Variable randn : nat → nat → gen → matrix * gen.
Variable norm : matrix → Q.
Variable adam_step : matrix → factors * optimizer → factors * optimizer.
Variable choice : rng → list nat → nat → list nat * rng.
Variable seed : nat → rng.
Variable sqrt : Q → Q.

(** X17.  The evaluation in [main]: on a rectangular interaction matrix
    with at least one user and one post, the model that the quick trainer
    returns always passes through the whole body of
    [evaluate_post_collaborative_filtering] (the factor shapes fit, every
    index is in range, no division by zero), so the metrics that [main]
    stores are computed ones and never the zeros of the [except] branch. *)
Theorem main_evaluates_trained_model (R : matrix) (r c : nat) (g : gen)
    (adam : optimizer) (k : Z) :
  randn_shaped randn → step_keeps_shapes adam_step → choice_ok choice →
  has_shape R r c → 0 < r → 0 < c → (0 < k)%Z →
  let model := train_collaborative_filtering randn norm adam_step R g adam in
  ∃ m, post_cf_body choice seed sqrt (post_model model) R k = Ok m ∧
       evaluate_post_collaborative_filtering choice seed sqrt (post_model model) R k
       = m.
Proof.
  intros Hrandn Hstep Hchoice HR Hr Hc Hk model.
  assert (Hshapes : has_shape (out_user_factors model) r 32
                    ∧ has_shape (out_post_factors model) 32 c).
  { subst model. unfold train_collaborative_filtering, cf_run, train.
    pose proof (run_epochs_trace (cf_loss norm R) (adam_step R) cf_patience
                  (cf_init randn R g, adam) cf_epochs 0) as Htrace.
    change (LoopState (cf_init randn R g, adam) PInf 0)
      with (state_at (cf_loss norm R) (adam_step R) (cf_init randn R g, adam) 0).
    destruct (run_epochs _ _ _ _ _ _) as [st n]. simpl.
    destruct Htrace as (-> & _). simpl.
    destruct (cf_init_shapes randn R g Hrandn) as [Hu Hi].
    rewrite (has_shape_n_cols R r c HR Hr) in Hi.
    replace (n_rows R) with r in Hu by (by destruct HR as [<- _]).
    exact (params_at_shapes adam_step R (cf_init randn R g, adam) n _ _ _ _
             Hstep Hu Hi). }
  destruct Hshapes as [Hu Hp].
  destruct (post_cf_body_total choice seed sqrt Hchoice R _ _ r c 32 k
              HR Hu Hp Hr ltac:(lia) Hk) as [m Hm].
  exists m. split; [exact Hm|].
  unfold evaluate_post_collaborative_filtering.
  unfold post_model in Hm. unfold post_model. by rewrite Hm.
Qed.
End MainEvaluation.

Lemma main_evaluates_trained_model_witness :
  ∃ m, post_cf_body first_choice (λ _, tt) (λ x, x)
         (post_model (train_collaborative_filtering zeros_randn (λ _, 0%Q)
                        idle_step [[1; 0]; [0; 2]]%Q tt tt))
         [[1; 0]; [0; 2]]%Q 10 = Ok m.
Proof.
  destruct (main_evaluates_trained_model zeros_randn (λ _, 0%Q) idle_step
              first_choice (λ _, tt) (λ x, x) [[1; 0]; [0; 2]]%Q 2 2 tt tt 10)
    as (m & Hm & _).
  - apply zeros_randn_shaped.
  - apply idle_step_keeps_shapes.
  - apply first_choice_ok.
  - by repeat constructor.
  - lia.
  - lia.
  - lia.
  - by exists m.
Defined.

(* ================================================================= *)
(** ** A second call of the business evaluator *)

Lemma excluded_range_shape (n : nat) (sim : similarity) :
  has_shape sim n n → has_shape (excluded_range 0 n sim) n n.
Proof.
  intros [Hlen Hrows]. unfold excluded_range. split; [by rewrite length_imap|].
  apply Forall_lookup. intros i row.
  rewrite list_lookup_imap. destruct (sim !! i) as [r|] eqn:Hr; [|done]. simpl.
  intros [= <-]. pose proof (Forall_lookup_1 _ _ _ _ Hrows Hr) as Hrl.
  simpl in Hrl. destruct (decide _); [by rewrite length_insert | done].
Qed.

Lemma excluded_range_idemp (n : nat) (sim : similarity) :
  excluded_range 0 n (excluded_range 0 n sim) = excluded_range 0 n sim.
Proof.
  unfold excluded_range. apply list_eq. intros i. rewrite !list_lookup_imap.
  destruct (sim !! i) as [r|]; [|done]. simpl.
  destruct (decide (0 ≤ i < n)); [|done]. by rewrite list_insert_insert_eq.
Qed.

Lemma excluded_range_insert (n a : nat) (sim : similarity) (row : list fnum) :
  sim !! a = Some row → a < n →
  excluded_range 0 n (<[a := <[a := NInf]> row]> sim) = excluded_range 0 n sim.
Proof.
  intros Hrow Ha. unfold excluded_range. apply list_eq. intros i.
  rewrite !list_lookup_imap.
  destruct (decide (i = a)) as [->|Hne].
  - rewrite list_lookup_insert_eq by (by eapply lookup_lt_Some).
    rewrite Hrow. simpl. rewrite !decide_True by lia.
    by rewrite list_insert_insert_eq.
  - by rewrite list_lookup_insert_ne.
Qed.

Lemma excluded_range_row (n a : nat) (sim : similarity) (row : list fnum) :
  sim !! a = Some row → a < n →
  excluded_range 0 n sim !! a = Some (<[a := NInf]> row).
Proof.
  intros Hrow Ha. unfold excluded_range. rewrite list_lookup_imap, Hrow. simpl.
  by rewrite decide_True by lia.
Qed.

Section BusinessSecondCall.
Context `{Countable category}.

(** The rankings read the rows only after the self-exclusion: two arrays
    that agree once their diagonals are excluded give the same scores. *)
Lemma business_ranking_excluded (categories : list category) (k : Z)
    (n a m : nat) (sim sim' : similarity) :
  has_shape sim n n → has_shape sim' n n → a + m ≤ n →
  excluded_range 0 n sim = excluded_range 0 n sim' →
  (business_ranking categories k (seq a m) sim).2
  = (business_ranking categories k (seq a m) sim').2.
Proof.
  revert a sim sim'. induction m as [|m IH]; intros a sim sim' Hs Hs' Ham Heq;
    [done|].
  cbn [seq business_ranking].
  destruct (has_shape_row sim n n a Hs ltac:(lia)) as (row & Hrow & Hlen).
  destruct (has_shape_row sim' n n a Hs' ltac:(lia)) as (row' & Hrow' & Hlen').
  rewrite (exclude_self_Ok sim a row Hrow) by lia.
  rewrite (exclude_self_Ok sim' a row' Hrow') by lia.
  assert (Hscores : <[a := NInf]> row = <[a := NInf]> row').
  { pose proof (excluded_range_row n a sim row Hrow ltac:(lia)) as H1.
    pose proof (excluded_range_row n a sim' row' Hrow' ltac:(lia)) as H2.
    rewrite Heq in H1. congruence. }
  rewrite <- Hscores.
  destruct (if length (relevant_to categories a) =? 0 then _ else _)
    as [o|e]; [|done].
  assert (Hnext : excluded_range 0 n (<[a := <[a := NInf]> row]> sim)
                  = excluded_range 0 n (<[a := <[a := NInf]> row]> sim')).
  { rewrite (excluded_range_insert n a sim row Hrow) by lia.
    rewrite Hscores.
    by rewrite (excluded_range_insert n a sim' row' Hrow') by lia. }
  assert (Hscores_len : length (<[a := NInf]> row) = n)
    by (by rewrite length_insert).
  assert (Hbudget : S a + m ≤ n) by lia.
  pose proof (IH (S a) (<[a := <[a := NInf]> row]> sim)
                (<[a := <[a := NInf]> row]> sim')
                (has_shape_insert_row sim n a _ Hs Hscores_len)
                (has_shape_insert_row sim' n a _ Hs' Hscores_len)
                Hbudget Hnext) as Hrec.
  destruct (business_ranking categories k (seq (S a) m)
              (<[a := <[a := NInf]> row]> sim)) as [s1 r1].
  destruct (business_ranking categories k (seq (S a) m)
              (<[a := <[a := NInf]> row]> sim')) as [s2 r2].
  simpl in *. by rewrite Hrec.
Qed.

(** X18.  Calling [evaluate_business_recommendations] again on the array
    that a first call has written into changes nothing more: the second call
    returns the same metrics and leaves the array as the first call left
    it. *)
Theorem business_evaluator_second_call (sim : similarity)
    (categories : list category) (k : Z) :
  has_shape sim (length categories) (length categories) →
  let first := evaluate_business_recommendations sim (Some categories) k in
  evaluate_business_recommendations first.1 (Some categories) k = first.
Proof.
  intros Hshape. cbv zeta.
  set (n := length categories) in *.
  pose proof (excluded_range_shape n sim Hshape) as Hshape'.
  destruct (business_ranking_writes categories k n 0 n sim Hshape ltac:(lia))
    as [per Hper].
  destruct (business_ranking_writes categories k n 0 n (excluded_range 0 n sim)
              Hshape' ltac:(lia)) as [per' Hper'].
  rewrite excluded_range_idemp in Hper'.
  assert (Hsame : per' = per).
  { pose proof (business_ranking_excluded categories k n 0 n sim
                  (excluded_range 0 n sim) Hshape Hshape' ltac:(lia)
                  (eq_sym (excluded_range_idemp n sim))) as Heq.
    rewrite Hper, Hper' in Heq. simpl in Heq. congruence. }
  subst per'.
  assert (Hframe : (recommended_categories categories k (seq 0 n)
                      (excluded_range 0 n sim) ∅).1 = excluded_range 0 n sim).
  { apply recommended_categories_frame.
    intros i row Hi. apply elem_of_seq in Hi. intros Hrow.
    eapply excluded_range_diagonal; [done | lia]. }
  assert (Hfirst : (evaluate_business_recommendations sim (Some categories) k).1
                   = excluded_range 0 n sim).
  { unfold evaluate_business_recommendations, business_body. simpl. fold n.
    rewrite Hper.
    destruct (f1_score_total (mean_or_zero per.*1) (mean_or_zero per.*2))
      as [f1 ->].
    destruct (recommended_categories _ _ _ _ _) as [sim2 [recommended|e]];
      simpl in Hframe; rewrite Hframe; [|done].
    by destruct (mbind _ _). }
  rewrite Hfirst.
  unfold evaluate_business_recommendations, business_body. simpl. fold n.
  rewrite Hper, Hper'.
  destruct (f1_score_total (mean_or_zero per.*1) (mean_or_zero per.*2))
    as [f1 ->].
  destruct (recommended_categories _ _ _ _ _) as [sim2 [recommended|e]];
    simpl in Hframe; rewrite Hframe; [|done].
  by destruct (mbind _ _).
Qed.
End BusinessSecondCall.

Lemma business_evaluator_second_call_witness :
  let sim := [[Fin 1; Fin (1 # 2)]; [Fin (1 # 2); Fin 1]] in
  let first := evaluate_business_recommendations sim (Some [7; 7]%nat) 5 in
  has_shape sim 2 2 ∧
  evaluate_business_recommendations first.1 (Some [7; 7]%nat) 5 = first.
Proof.
  assert (Hshape : has_shape [[Fin 1; Fin (1 # 2)]; [Fin (1 # 2); Fin 1]] 2 2)
    by (by repeat constructor).
  split; [exact Hshape|].
  exact (business_evaluator_second_call _ [7; 7]%nat 5 Hshape).
Defined.

(* ================================================================= *)
(** ** The business maps of the full trainer *)

(** X19.  The business maps of [train_hybrid_recommendation_model], whose
    frame may name a business twice: the index map holds the name of every
    row, the ID map sends a name to its last row, so that going from a name
    to its index and back gives the name, while a row whose name comes again
    further down is not the index of its own name. *)
Theorem hybrid_business_maps_round_trip {K} `{EqDecision K} (business_names : list K) :
  let '(business_id_map, business_idx_map) := hybrid_business_maps business_names in
  (∀ i name, dict_get i business_idx_map = Some name ↔ business_names !! i = Some name) ∧
  (∀ name i, dict_get name business_id_map = Some i →
             dict_get i business_idx_map = Some name) ∧
  (∀ i name, business_names !! i = Some name →
     (dict_get name business_id_map = Some i
      ↔ ∀ j, i < j → business_names !! j ≠ Some name)).
Proof.
  unfold hybrid_business_maps.
  assert (Hidx : ∀ i name,
            dict_get i (dict_of (imap (λ i name, (i, name)) business_names))
            = Some name ↔ business_names !! i = Some name).
  { intros i name.
    assert (Hkeys : (imap (λ (i : nat) (name : K), (i, name)) business_names).*1
                    = seq 0 (length business_names)).
    { rewrite fmap_imap. unfold compose. simpl.
      apply list_eq. intros j. rewrite list_lookup_imap.
      destruct (business_names !! j) as [x|] eqn:Hj; simpl.
      - symmetry. apply lookup_seq. split; [done | by eapply lookup_lt_Some].
      - symmetry. apply lookup_seq_ge. by apply lookup_ge_None. }
    rewrite dict_of_NoDup by (rewrite Hkeys; apply NoDup_seq).
    rewrite dict_get_iff_elem by (rewrite Hkeys; apply NoDup_seq).
    rewrite elem_of_lookup_imap. split.
    - by intros (j & x & [= -> ->] & Hj).
    - intros Hi. by exists i, name. }
  split_and!.
  - exact Hidx.
  - intros name i [Hi _]%dict_of_enumerate. by apply Hidx.
  - intros i name Hi. rewrite dict_of_enumerate. split.
    + by intros [_ Hlast].
    + by intros Hlast.
Qed.
